(** * Clustered light culling: Forward+ and Clustered Deferred shading

    A shallow embedding of the light-clustering compute shader
    (clustering.cs.wgsl), of the two shading fragment shaders
    (forward_plus.fs.wgsl, clustered_deferred_fullscreen.fs.wgsl), of the
    G-buffer fragment shader and of the host class [Lights] (lights.ts).

    Conventions of the embedding.
    - A WGSL [u32] is a [Z]; every operation that can leave the range wraps
      modulo [2^32] ([U32.add], [U32.mul]).
    - A WGSL [f32] is a real number: arithmetic is exact, rounding is not
      modelled.  The builtins [floor], [clamp], [min], [max], [atan2],
      [asin], [length], [normalize] are their mathematical counterparts.
    - A storage buffer is a list; a store outside it is dropped and a load
      outside it yields zero.
    - The stores of a compute invocation are recorded in program order as
      a trace of [Store] events, replayed on the cluster table by [exec].

    The results on counts, capacity, idempotence and the bounds of the
    dispatch use the intersection test of the shader only through its
    boolean outcome; the geometric results rest on the real-number reading
    of its arithmetic. *)

From Stdlib Require Import Reals Lra Lia ZArith List Bool Psatz.
From stdpp Require Import list.
From Equations Require Import Equations.

Local Open Scope Z_scope.

(** ** Machine integers *)

Module U32.
Definition modulus : Z := 2 ^ 32.
Definition in_range (z : Z) : Prop := 0 <= z < modulus.
Definition wrap (z : Z) : Z := z mod modulus.
Definition add (a b : Z) : Z := wrap (a + b).
Definition mul (a b : Z) : Z := wrap (a * b).
(** WGSL: [e / 0] is [e] and [e % 0] is [0]. *)
Definition div (a b : Z) : Z := if b =? 0 then a else a / b.
Definition rem (a b : Z) : Z := if b =? 0 then 0 else a mod b.
End U32.

(** ** Floating-point builtins, over the reals *)

Module F32.
Definition ltb (x y : R) : bool := if Rlt_dec x y then true else false.
Definition gtb (x y : R) : bool := if Rgt_dec x y then true else false.
Definition leb (x y : R) : bool := if Rle_dec x y then true else false.

Definition min (x y : R) : R := Rmin x y.
Definition max (x y : R) : R := Rmax x y.
Definition clamp (e lo hi : R) : R := min (max e lo) hi.
Definition floor (r : R) : R := IZR (Int_part r).

(** [f32(e)] for [e : u32]. *)
Definition of_u32 (z : Z) : R := IZR z.

(** Rounding toward zero. *)
Definition trunc (r : R) : Z :=
  if Rlt_dec r 0 then - Int_part (- r) else Int_part r.

(** [u32(e)] and [i32(e)] for [e : f32]: truncation, saturating. *)
Definition to_u32 (r : R) : Z :=
  Z.max 0 (Z.min (trunc r) (U32.modulus - 1)).
Definition to_i32 (r : R) : Z :=
  Z.max (- 2 ^ 31) (Z.min (trunc r) (2 ^ 31 - 1)).

(** [atan2(y, x)]: the angle of the point [(x, y)] in [(-PI, PI]]. *)
Definition atan2 (y x : R) : R :=
  if Rlt_dec 0 x then atan (y / x)
  else if Rlt_dec x 0 then
    (if Rle_dec 0 y then atan (y / x) + PI else atan (y / x) - PI)%R
  else if Rlt_dec 0 y then (PI / 2)%R
  else if Rlt_dec y 0 then (- PI / 2)%R
  else 0%R.
End F32.

(** ** Vectors and matrices *)

Record vec2 := mkVec2 { v2x : R; v2y : R }.
Record vec3 := mkVec3 { vx : R; vy : R; vz : R }.
Record vec4 := mkVec4 { wx : R; wy : R; wz : R; ww : R }.

(** A [mat4x4<f32>] is four columns. *)
Record mat4 := mkMat4 { col0 : vec4; col1 : vec4; col2 : vec4; col3 : vec4 }.

Definition vec4_of (v : vec3) (w : R) : vec4 := mkVec4 (vx v) (vy v) (vz v) w.
Definition xyz (v : vec4) : vec3 := mkVec3 (wx v) (wy v) (wz v).

Definition vec3_zero : vec3 := mkVec3 0 0 0.
Definition vec3_add (a b : vec3) : vec3 :=
  mkVec3 (vx a + vx b) (vy a + vy b) (vz a + vz b).
Definition vec3_sub (a b : vec3) : vec3 :=
  mkVec3 (vx a - vx b) (vy a - vy b) (vz a - vz b).
Definition vec3_mul (a b : vec3) : vec3 :=
  mkVec3 (vx a * vx b) (vy a * vy b) (vz a * vz b).
Definition vec3_scale (a : vec3) (s : R) : vec3 :=
  mkVec3 (vx a * s) (vy a * s) (vz a * s).
Definition vec3_div (a : vec3) (s : R) : vec3 :=
  mkVec3 (vx a / s) (vy a / s) (vz a / s).
Definition dot (a b : vec3) : R :=
  (vx a * vx b + vy a * vy b + vz a * vz b)%R.
Definition length3 (a : vec3) : R := sqrt (dot a a).
Definition normalize (a : vec3) : vec3 := vec3_div a (length3 a).

(** [m * v] for a column-major matrix. *)
Definition mat4_mul_vec4 (m : mat4) (v : vec4) : vec4 :=
  mkVec4
    (wx (col0 m) * wx v + wx (col1 m) * wy v + wx (col2 m) * wz v + wx (col3 m) * ww v)
    (wy (col0 m) * wx v + wy (col1 m) * wy v + wy (col2 m) * wz v + wy (col3 m) * ww v)
    (wz (col0 m) * wx v + wz (col1 m) * wy v + wz (col2 m) * wz v + wz (col3 m) * ww v)
    (ww (col0 m) * wx v + ww (col1 m) * wy v + ww (col2 m) * wz v + ww (col3 m) * ww v).

Definition mat4_identity : mat4 :=
  mkMat4 (mkVec4 1 0 0 0) (mkVec4 0 1 0 0) (mkVec4 0 0 1 0) (mkVec4 0 0 0 1).

(** ** common.wgsl *)

(** [const lightRadius: f32 = ${lightRadius}], with [lightRadius: 2] in the
    shader constants. *)
Definition lightRadius : R := 2.

Record ClusteringUniforms := mkClusteringUniforms {
  viewMat : mat4;
  projMat : mat4;
  invProjMat : mat4;
  screenWidth : R;
  screenHeight : R;
  near : R;
  far : R;
  clustersX : Z;
  clustersY : Z;
  clustersZ : Z;
  maxLightsPerCluster : Z
}.

Record Light := mkLight { position : vec3; color : vec3 }.

Record Lights := mkLights { numLights : Z; lights : list Light }.

(** The two storage buffers [ClusterCounts] and [ClusterIndices]. *)
Record ClusterTable := mkClusterTable { counts : list Z; indices : list Z }.

Definition zero_light : Light := mkLight vec3_zero vec3_zero.

(** Loads from storage buffers; out of bounds they read zero. *)
Definition load_u32 (buf : list Z) (p : Z) : Z :=
  default 0 (buf !! Z.to_nat p).
Definition load_light (L : Lights) (p : Z) : Light :=
  default zero_light (lights L !! Z.to_nat p).

(** The fields of the uniform block that hold a [u32]. *)
Definition uniforms_wf (U : ClusteringUniforms) : Prop :=
  U32.in_range (clustersX U) /\ U32.in_range (clustersY U) /\
  U32.in_range (clustersZ U) /\ U32.in_range (maxLightsPerCluster U).

(** ** Loops *)

(** [for (var i = i0; i < bound; i++) { a = body i a }].  A [continue] in
    the body is a body that returns its state unchanged.  The counter is a
    [u32] below [bound], so the increment does not wrap. *)
Equations for_loop {A : Type} (bound : Z) (body : Z -> A -> A) (i : Z) (a : A)
  : A by wf (Z.to_nat (bound - i)) lt :=
  for_loop bound body i a with Z_lt_dec i bound := {
    | left _ => for_loop bound body (i + 1) (body i a)
    | right _ => a }.
Next Obligation. lia. Qed.

(** ** Stores of a compute invocation *)

Inductive Store :=
  | StoreIndex (pos : Z) (value : Z)   (* clusterIndices.data[pos] = value *)
  | StoreCount (pos : Z) (value : Z).  (* clusterCounts.data[pos] = value *)

Definition apply_store (t : ClusterTable) (s : Store) : ClusterTable :=
  match s with
  | StoreIndex p v => mkClusterTable (counts t) (<[Z.to_nat p := v]> (indices t))
  | StoreCount p v => mkClusterTable (<[Z.to_nat p := v]> (counts t)) (indices t)
  end.

Definition exec (t : ClusterTable) (tr : list Store) : ClusterTable :=
  fold_left apply_store tr t.

(** ** clustering.cs.wgsl *)

Module Clustering.

Record ClusterBounds := mkClusterBounds {
  angleLeft : R; angleRight : R; angleDown : R; angleUp : R;
  zNear : R; zFar : R
}.

Definition totalClusters (U : ClusteringUniforms) : Z :=
  U32.mul (U32.mul (clustersX U) (clustersY U)) (clustersZ U).

Definition clusterZ (U : ClusteringUniforms) (clusterIndex : Z) : Z :=
  U32.div clusterIndex (U32.mul (clustersX U) (clustersY U)).
Definition clusterXY (U : ClusteringUniforms) (clusterIndex : Z) : Z :=
  U32.rem clusterIndex (U32.mul (clustersX U) (clustersY U)).
Definition clusterY (U : ClusteringUniforms) (clusterIndex : Z) : Z :=
  U32.div (clusterXY U clusterIndex) (clustersX U).
Definition clusterX (U : ClusteringUniforms) (clusterIndex : Z) : Z :=
  U32.rem (clusterXY U clusterIndex) (clustersX U).

Definition fovY : R := (45 * (31415926 / 10000000) / 180)%R.
Definition aspect (U : ClusteringUniforms) : R :=
  (screenWidth U / screenHeight U)%R.
Definition fovX (U : ClusteringUniforms) : R := (fovY * aspect U)%R.

Definition zSliceDepth (U : ClusteringUniforms) : R :=
  ((far U - near U) / F32.of_u32 (clustersZ U))%R.

Definition cluster_bounds (U : ClusteringUniforms) (clusterIndex : Z)
  : ClusterBounds :=
  let cx := clusterX U clusterIndex in
  let cy := clusterY U clusterIndex in
  let cz := clusterZ U clusterIndex in
  {| angleLeft :=
       (- fovX U * (5 / 10) + fovX U * F32.of_u32 cx / F32.of_u32 (clustersX U))%R;
     angleRight :=
       (- fovX U * (5 / 10)
        + fovX U * F32.of_u32 (U32.add cx 1) / F32.of_u32 (clustersX U))%R;
     angleDown :=
       (- fovY * (5 / 10)
        + fovY * F32.of_u32 (U32.add cy 1) / F32.of_u32 (clustersY U))%R;
     angleUp :=
       (- fovY * (5 / 10) + fovY * F32.of_u32 cy / F32.of_u32 (clustersY U))%R;
     zNear := (near U + zSliceDepth U * F32.of_u32 cz)%R;
     zFar := (near U + zSliceDepth U * F32.of_u32 (U32.add cz 1))%R |}.

Definition lightPosView (U : ClusteringUniforms) (light : Light) : vec3 :=
  xyz (mat4_mul_vec4 (viewMat U) (vec4_of (position light) 1)).

Definition halfAngle (lz : R) : R :=
  asin (F32.min 1 (lightRadius / F32.max lz (1 / 1000))).

(** The body of the light loop up to line 77: [true] when control
    reaches "the light intersects this cluster", [false] when one of
    the three [continue] statements is taken. *)
Definition intersects (U : ClusteringUniforms) (b : ClusterBounds)
  (light : Light) : bool :=
  let pv := lightPosView U light in
  let lx := vx pv in
  let ly := vy pv in
  let lz := (- vz pv)%R in
  if F32.ltb lz (zNear b - lightRadius) || F32.gtb lz (zFar b + lightRadius)
  then false
  else
    let horizAngle := F32.atan2 lx (vz pv * -1) in
    let vertAngle := F32.atan2 ly (vz pv * -1) in
    let halfAngleHoriz := halfAngle lz in
    let halfAngleVert := halfAngle lz in
    let lightAngleLeft := (horizAngle - halfAngleHoriz)%R in
    let lightAngleRight := (horizAngle + halfAngleHoriz)%R in
    let lightAngleDown := (vertAngle - halfAngleVert)%R in
    let lightAngleUp := (vertAngle + halfAngleVert)%R in
    if F32.ltb lightAngleRight (angleLeft b) || F32.gtb lightAngleLeft (angleRight b)
    then false
    else if F32.ltb lightAngleUp (angleDown b) || F32.gtb lightAngleDown (angleUp b)
    then false
    else true.

(** One iteration of the light loop on the local [count] and the stores
    issued so far. *)
Definition light_body (U : ClusteringUniforms) (b : ClusterBounds)
  (L : Lights) (clusterIndex : Z) (lightIndex : Z) (st : Z * list Store)
  : Z * list Store :=
  let light := load_light L lightIndex in
  if intersects U b light then
    if fst st <? maxLightsPerCluster U then
      (U32.add (fst st) 1,
       snd st ++
         [StoreIndex
            (U32.add (U32.mul clusterIndex (maxLightsPerCluster U)) (fst st))
            lightIndex])
    else st
  else st.

Definition light_loop (U : ClusteringUniforms) (b : ClusterBounds)
  (L : Lights) (clusterIndex : Z) : Z * list Store :=
  for_loop (numLights L) (light_body U b L clusterIndex) 0 (0, []).

(** The entry point, for the invocation whose [global_id.x] is given. *)
Definition main (U : ClusteringUniforms) (L : Lights) (global_id_x : Z)
  : list Store :=
  let clusterIndex := global_id_x in
  if totalClusters U <=? clusterIndex then []
  else
    let st := light_loop U (cluster_bounds U clusterIndex) L clusterIndex in
    snd st ++ [StoreCount clusterIndex (fst st)].

End Clustering.

(** ** forward_plus.fs.wgsl *)

Module ForwardPlus.

Record FragmentInput := mkFragmentInput {
  worldPos : vec4;
  worldNormal : vec4;
  uv : vec2;
  fragCoord : vec4
}.

Definition clusterXIndex (U : ClusteringUniforms) (input : FragmentInput) : Z :=
  F32.to_u32
    (F32.clamp
       (F32.floor
          (wx (fragCoord input) / (screenWidth U / F32.of_u32 (clustersX U))))
       0 (F32.of_u32 (clustersX U) - 1)).

Definition clusterYIndex (U : ClusteringUniforms) (input : FragmentInput) : Z :=
  F32.to_u32
    (F32.clamp
       (F32.floor
          (wy (fragCoord input) / (screenHeight U / F32.of_u32 (clustersY U))))
       0 (F32.of_u32 (clustersY U) - 1)).

Definition ndcPos (U : ClusteringUniforms) (input : FragmentInput) : vec4 :=
  mkVec4
    (wx (fragCoord input) / screenWidth U * 2 - 1)
    (wy (fragCoord input) / screenHeight U * 2 - 1)
    (wz (fragCoord input) * 2 - 1)
    1.

Definition viewPos (U : ClusteringUniforms) (input : FragmentInput) : vec3 :=
  let viewPos4 := mat4_mul_vec4 (invProjMat U) (ndcPos U input) in
  vec3_div (xyz viewPos4) (ww viewPos4).

Definition viewDepth (U : ClusteringUniforms) (input : FragmentInput) : R :=
  (- vz (viewPos U input))%R.

Definition clusterZIndex (U : ClusteringUniforms) (input : FragmentInput) : Z :=
  F32.to_u32
    (F32.clamp
       (F32.floor
          ((viewDepth U input - near U) / (far U - near U)
           * F32.of_u32 (clustersZ U)))
       0 (F32.of_u32 (clustersZ U) - 1)).

Definition clusterIndex (U : ClusteringUniforms) (input : FragmentInput) : Z :=
  U32.add
    (U32.add (clusterXIndex U input)
             (U32.mul (clusterYIndex U input) (clustersX U)))
    (U32.mul (U32.mul (clusterZIndex U input) (clustersX U)) (clustersY U)).

(** One iteration of the shading loop on the accumulator [lighting]. *)
Definition shade_body (U : ClusteringUniforms) (L : Lights) (T : ClusterTable)
  (clusterIndex : Z) (fragPos normal : vec3) (i : Z) (lighting : vec3) : vec3 :=
  let lightIndex :=
    load_u32 (indices T)
      (U32.add (U32.mul clusterIndex (maxLightsPerCluster U)) i) in
  let light := load_light L lightIndex in
  let lightPos := position light in
  let lightColor := color light in
  let toLight := vec3_sub lightPos fragPos in
  let dist := length3 toLight in
  if F32.leb dist lightRadius then
    let atten := (1 - dist / lightRadius)%R in
    let Ldir := vec3_div toLight dist in
    let NdotL := F32.max (dot normal Ldir) 0 in
    vec3_add lighting (vec3_scale (vec3_scale lightColor NdotL) atten)
  else lighting.

(** The entry point.  [diffuse uv] is
    [textureSample(material.diffuseTexture, material.diffuseSampler, uv).rgb]. *)
Definition main (diffuse : vec2 -> vec3) (U : ClusteringUniforms)
  (L : Lights) (T : ClusterTable) (input : FragmentInput) : vec4 :=
  let fragPos := xyz (worldPos input) in
  let normal := normalize (xyz (worldNormal input)) in
  let albedo := diffuse (uv input) in
  let clusterIndex := clusterIndex U input in
  let numLightsInCluster := load_u32 (counts T) clusterIndex in
  let lighting :=
    for_loop numLightsInCluster
      (shade_body U L T clusterIndex fragPos normal) 0 vec3_zero in
  vec4_of (vec3_mul albedo lighting) 1.

End ForwardPlus.

(** ** clustered_deferred.fs.wgsl (G-buffer pass) *)

Module GBufferPass.

Record FragmentInput := mkFragmentInput {
  worldPos : vec4;
  worldNormal : vec4;
  uv : vec2
}.

Record GBufferOutput := mkGBufferOutput {
  out_position : vec4;
  out_normal : vec4;
  out_albedo : vec4
}.

Definition main (diffuse : vec2 -> vec3) (input : FragmentInput)
  : GBufferOutput :=
  let worldPos := worldPos input in
  let normal := normalize (xyz (worldNormal input)) in
  let albedoColor := diffuse (uv input) in
  mkGBufferOutput (vec4_of (xyz worldPos) 1) (vec4_of normal 0)
    (vec4_of albedoColor 1).

End GBufferPass.

(** ** clustered_deferred_fullscreen.fs.wgsl *)

Module ClusteredDeferred.

Record FragmentInput := mkFragmentInput { uv : vec2; fragCoord : vec4 }.

(** The three G-buffer textures, read with [textureLoad] at an integer
    pixel coordinate, level 0. *)
Record GBuffer := mkGBuffer {
  gPositionTex : Z -> Z -> vec4;
  gNormalTex : Z -> Z -> vec4;
  gAlbedoTex : Z -> Z -> vec4
}.

Definition clusterX (U : ClusteringUniforms) (input : FragmentInput) : Z :=
  F32.to_u32
    (F32.clamp
       (F32.floor
          (wx (fragCoord input) / (screenWidth U / F32.of_u32 (clustersX U))))
       0 (F32.of_u32 (clustersX U) - 1)).

Definition clusterY (U : ClusteringUniforms) (input : FragmentInput) : Z :=
  F32.to_u32
    (F32.clamp
       (F32.floor
          (wy (fragCoord input) / (screenHeight U / F32.of_u32 (clustersY U))))
       0 (F32.of_u32 (clustersY U) - 1)).

Definition viewDepth (U : ClusteringUniforms) (fragPos : vec3) : R :=
  let viewPos := xyz (mat4_mul_vec4 (viewMat U) (vec4_of fragPos 1)) in
  (- vz viewPos)%R.

Definition clusterZ (U : ClusteringUniforms) (fragPos : vec3) : Z :=
  F32.to_u32
    (F32.clamp
       (F32.floor
          ((viewDepth U fragPos - near U) / (far U - near U)
           * F32.of_u32 (clustersZ U)))
       0 (F32.of_u32 (clustersZ U) - 1)).

Definition clusterIndex (U : ClusteringUniforms) (input : FragmentInput)
  (fragPos : vec3) : Z :=
  U32.add
    (U32.add (clusterX U input) (U32.mul (clusterY U input) (clustersX U)))
    (U32.mul (U32.mul (clusterZ U fragPos) (clustersX U)) (clustersY U)).

Definition shade_body (U : ClusteringUniforms) (L : Lights) (T : ClusterTable)
  (clusterIndex : Z) (fragPos normal : vec3) (i : Z) (lightingAccum : vec3)
  : vec3 :=
  let lightIndex :=
    load_u32 (indices T)
      (U32.add (U32.mul clusterIndex (maxLightsPerCluster U)) i) in
  let light := load_light L lightIndex in
  let lightPos := position light in
  let lightColor := color light in
  let toLight := vec3_sub lightPos fragPos in
  let dist := length3 toLight in
  if F32.leb dist lightRadius then
    let Ldir := vec3_div toLight dist in
    let NdotL := F32.max (dot normal Ldir) 0 in
    let atten := (1 - dist / lightRadius)%R in
    vec3_add lightingAccum (vec3_scale (vec3_scale lightColor NdotL) atten)
  else lightingAccum.

Definition main (U : ClusteringUniforms) (L : Lights) (T : ClusterTable)
  (G : GBuffer) (input : FragmentInput) : vec4 :=
  let px := F32.to_i32 (wx (fragCoord input)) in
  let py := F32.to_i32 (wy (fragCoord input)) in
  let storedPos := gPositionTex G px py in
  let fragPos := xyz storedPos in
  let storedNorm := gNormalTex G px py in
  let normal := normalize (xyz storedNorm) in
  let albedoColor := xyz (gAlbedoTex G px py) in
  let clusterIndex := clusterIndex U input fragPos in
  let lightCount := load_u32 (counts T) clusterIndex in
  let lightingAccum :=
    for_loop lightCount
      (shade_body U L T clusterIndex fragPos normal) 0 vec3_zero in
  vec4_of (vec3_mul albedoColor lightingAccum) 1.

End ClusteredDeferred.

(** ** camera.ts: the static clustering parameters *)

Module Camera.
Definition nearPlane : R := (1 / 10)%R.
Definition farPlane : R := 1000%R.
Definition clustersX : Z := 10.
Definition clustersY : Z := 10.
Definition clustersZ : Z := 32.
Definition maxLightsPerCluster : Z := 512.

(** The uniform block [onFrame] uploads: [setMatrices] then [setParams];
    the four integers go through a [Uint32Array]. *)
Definition clusteringUniforms (viewMat projMat invProjMat : mat4)
  (screenW screenH : R) : ClusteringUniforms :=
  mkClusteringUniforms viewMat projMat invProjMat screenW screenH
    nearPlane farPlane
    (U32.wrap clustersX) (U32.wrap clustersY) (U32.wrap clustersZ)
    (U32.wrap maxLightsPerCluster).
End Camera.

(** ** lights.ts: class [Lights] *)

Module LightsTs.

Definition maxNumLights : Z := 5000.

(** The part of the object the claims are about: the field [numLights]
    (a JavaScript number holding an integer) and the first 32-bit word of
    [lightSetStorageBuffer], which the shaders read as
    [lightData.numLights]. *)
Record State := mkState { numLights : Z; lightSetHeader : Z }.

Definition initial_numLights : Z := 200.

(** [device.queue.writeBuffer(buffer, 0, new Uint32Array([this.numLights]))]:
    the element store converts with ToUint32. *)
Definition updateLightSetUniformNumLights (s : State) : State :=
  mkState (numLights s) (U32.wrap (numLights s)).

(** Assigning the public field and uploading it, as a caller does. *)
Definition set_numLights (n : Z) (s : State) : State :=
  updateLightSetUniformNumLights (mkState n (lightSetHeader s)).

(** The light buffer as the shaders see it. *)
Definition lightData (s : State) (arr : list Light) : Lights :=
  mkLights (lightSetHeader s) arr.

Definition workgroupSize : Z := 64.

(** [Camera.clustersX * Camera.clustersY * Camera.clustersZ]; the host
    reads the same constants that [Camera.onFrame] writes into the
    uniform block, so the model takes them from the block.  JavaScript
    numbers are exact on these integers. *)
Definition numClusters (U : ClusteringUniforms) : Z :=
  clustersX U * clustersY U * clustersZ U.

(** [Math.ceil(a / b)] on non-negative integers. *)
Definition ceil_div (a b : Z) : Z := - ((- a) / b).

Definition numWorkgroups (U : ClusteringUniforms) : Z :=
  ceil_div (numClusters U) workgroupSize.

(** The invocations of one dispatch, by [global_id.x]. *)
Definition invocations (U : ClusteringUniforms) : list Z :=
  map Z.of_nat (seq 0 (Z.to_nat (numWorkgroups U * workgroupSize))).

(** All stores of one dispatch.  Invocations are laid out in the order of
    their ids; they store to disjoint locations. *)
Definition dispatch_trace (U : ClusteringUniforms) (L : Lights) : list Store :=
  concat (map (Clustering.main U L) (invocations U)).

Definition doLightClustering (U : ClusteringUniforms) (L : Lights)
  (T : ClusterTable) : ClusterTable :=
  exec T (dispatch_trace U L).

(** The buffers the constructor creates: [numClusters * 4] bytes of counts
    and [numClusters * maxLightsPerCluster * 4] bytes of indices. *)
Definition table_allocated (U : ClusteringUniforms) (T : ClusterTable) : Prop :=
  length (counts T) = Z.to_nat (numClusters U) /\
  length (indices T) = Z.to_nat (numClusters U * maxLightsPerCluster U).

End LightsTs.

(** ** Vocabulary of the statements *)

(** The writes a trace makes to each of the two buffers, in order. *)
Definition count_writes (tr : list Store) : list (nat * Z) :=
  flat_map (fun s => match s with
                     | StoreCount p v => [(Z.to_nat p, v)]
                     | StoreIndex _ _ => []
                     end) tr.
Definition index_writes (tr : list Store) : list (nat * Z) :=
  flat_map (fun s => match s with
                     | StoreIndex p v => [(Z.to_nat p, v)]
                     | StoreCount _ _ => []
                     end) tr.

(** Replaying writes on one buffer. *)
Definition replay (buf : list Z) (ws : list (nat * Z)) : list Z :=
  fold_left (fun b w => <[fst w := snd w]> b) ws buf.

(** The value of the last write to position [p], if there is one. *)
Fixpoint last_write (ws : list (nat * Z)) (p : nat) : option Z :=
  match ws with
  | [] => None
  | w :: ws' =>
      match last_write ws' p with
      | Some v => Some v
      | None => if Nat.eqb (fst w) p then Some (snd w) else None
      end
  end.

(** How many times a trace stores the count of cluster [c]. *)
Fixpoint count_stores_at (c : Z) (tr : list Store) : nat :=
  match tr with
  | [] => 0
  | StoreCount p _ :: tr' =>
      (if p =? c then S (count_stores_at c tr') else count_stores_at c tr')
  | StoreIndex _ _ :: tr' => count_stores_at c tr'
  end.

(** A store lands inside the buffers the host allocated. *)
Definition store_in_table (U : ClusteringUniforms) (s : Store) : Prop :=
  match s with
  | StoreCount p _ => 0 <= p < LightsTs.numClusters U
  | StoreIndex p _ =>
      0 <= p < LightsTs.numClusters U * maxLightsPerCluster U
  end.

(** The lights among the first [n] that pass the intersection test of a
    cluster, in index order. *)
Definition hit_list (U : ClusteringUniforms) (b : Clustering.ClusterBounds)
  (L : Lights) (n : nat) : list Z :=
  List.filter (fun i => Clustering.intersects U b (load_light L i))
    (map Z.of_nat (seq 0 n)).

(** The lights a cluster keeps: the first [maxLightsPerCluster] hits. *)
Definition accepted (U : ClusteringUniforms) (b : Clustering.ClusterBounds)
  (L : Lights) : list Z :=
  take (Z.to_nat (maxLightsPerCluster U))
    (hit_list U b L (Z.to_nat (numLights L))).

(** The position of slot [k] of cluster [c] in the index buffer. *)
Definition slot (U : ClusteringUniforms) (c : Z) (k : nat) : Z :=
  U32.add (U32.mul c (maxLightsPerCluster U)) (Z.of_nat k).

Definition index_stores (U : ClusteringUniforms) (c : Z) (ls : list Z)
  : list Store :=
  imap (fun k l => StoreIndex (slot U c k) l) ls.

(** The product of the grid dimensions fits in a [u32]. *)
Definition grid_fits (U : ClusteringUniforms) : Prop :=
  LightsTs.numClusters U < U32.modulus.

(** The index buffer has room for every slot without wrap-around. *)
Definition slots_fit (U : ClusteringUniforms) : Prop :=
  LightsTs.numClusters U * maxLightsPerCluster U < U32.modulus.

(** Forward distance of a light (its depth along the view direction) and
    its distance from the camera, both in view space. *)
Definition forward_distance (U : ClusteringUniforms) (light : Light) : R :=
  (- vz (Clustering.lightPosView U light))%R.
Definition camera_distance (U : ClusteringUniforms) (light : Light) : R :=
  length3 (Clustering.lightPosView U light).

(** The angles the clustering shader assigns to a view-space point. *)
Definition horizAngle (p : vec3) : R := F32.atan2 (vx p) (vz p * -1).
Definition vertAngle (p : vec3) : R := F32.atan2 (vy p) (vz p * -1).

(** A view-space point lies in the cell the clustering shader builds for
    a flat index: inside its depth slice and between its two horizontal
    and its two vertical boundary angles.  ([angleUp] is the smaller of the
    two vertical boundaries.) *)
Definition in_cell (U : ClusteringUniforms) (c : Z) (p : vec3) : Prop :=
  let b := Clustering.cluster_bounds U c in
  (Clustering.zNear b <= - vz p < Clustering.zFar b)%R /\
  (Clustering.angleLeft b <= horizAngle p < Clustering.angleRight b)%R /\
  (Clustering.angleUp b <= vertAngle p < Clustering.angleDown b)%R.

(** The conservative test the comments of the shader describe: the
    light's depth range and its two angular ranges each overlap the
    corresponding range of the cell. *)
Definition sphere_overlaps (U : ClusteringUniforms)
  (b : Clustering.ClusterBounds) (light : Light) : Prop :=
  let pv := Clustering.lightPosView U light in
  let lz := (- vz pv)%R in
  let h := Clustering.halfAngle lz in
  (Clustering.zNear b - lightRadius <= lz <= Clustering.zFar b + lightRadius)%R /\
  (Clustering.angleLeft b <= horizAngle pv + h /\
   horizAngle pv - h <= Clustering.angleRight b)%R /\
  (Clustering.angleUp b <= vertAngle pv + h /\
   vertAngle pv - h <= Clustering.angleDown b)%R.

(** The flat index of a cell. *)
Definition flat_index (U : ClusteringUniforms) (x y z : Z) : Z :=
  x + y * clustersX U + z * clustersX U * clustersY U.

(** ** Vocabulary of the shading claims *)

(** What one light adds to a fragment at [fragPos] with unit normal
    [normal]: colour times the Lambert term times the linear attenuation
    inside the light's radius, nothing beyond it. *)
Definition contribution (fragPos normal : vec3) (light : Light) : vec3 :=
  let toLight := vec3_sub (position light) fragPos in
  let dist := length3 toLight in
  if Rle_dec dist lightRadius then
    vec3_scale
      (vec3_scale (color light)
         (Rmax (dot normal (vec3_div toLight dist)) 0))
      (1 - dist / lightRadius)
  else vec3_zero.

(** The first [counts[c]] entries of cluster [c] in the index buffer. *)
Definition cluster_entries (U : ClusteringUniforms) (T : ClusterTable)
  (c : Z) : list Z :=
  map (fun i => load_u32 (indices T)
                  (U32.add (U32.mul c (maxLightsPerCluster U)) (Z.of_nat i)))
      (seq 0 (Z.to_nat (load_u32 (counts T) c))).

(** The contributions of the lights named by a list of entries, summed in
    order. *)
Definition summed_lighting (fragPos normal : vec3) (L : Lights)
  (entries : list Z) : vec3 :=
  fold_left
    (fun acc e => vec3_add acc (contribution fragPos normal (load_light L e)))
    entries vec3_zero.

(** ** Concrete inputs used by the examples *)

(** Inverse of the perspective projection of a 45 degree vertical field
    of view at aspect ratio 1 with near plane 0.1 and far plane 1000
    (depth mapped to [0, 1]), and that projection itself; 0.41421357
    stands for the tangent of half the field of view. *)
Definition example_invProj : mat4 :=
  mkMat4 (mkVec4 (41421357 / 100000000) 0 0 0)
         (mkVec4 0 (41421357 / 100000000) 0 0)
         (mkVec4 0 0 0 (- 9999 / 1000))
         (mkVec4 0 0 (-1) 10).
Definition example_proj : mat4 :=
  mkMat4 (mkVec4 (100000000 / 41421357) 0 0 0)
         (mkVec4 0 (100000000 / 41421357) 0 0)
         (mkVec4 0 0 (- 10000 / 9999) (-1))
         (mkVec4 0 0 (- 1000 / 9999) 0).

(** The uniform block [Camera.onFrame] uploads for a camera at the origin
    looking down the negative z axis, on a 1000 x 1000 canvas: a grid of
    10 x 10 x 32 clusters with up to 512 lights each. *)
Definition example_uniforms : ClusteringUniforms :=
  Camera.clusteringUniforms mat4_identity example_proj example_invProj
    1000 1000.

(** The same camera with a grid of one single cluster that holds at most
    two lights. *)
Definition single_cluster_uniforms : ClusteringUniforms :=
  mkClusteringUniforms mat4_identity example_proj example_invProj
    1000 1000 Camera.nearPlane Camera.farPlane 1 1 1 2.

Definition white : vec3 := mkVec3 1 1 1.

(** A light two thousand units to the right of the camera, one unit in
    front of it. *)
Definition side_light : Light := mkLight (mkVec3 2000 0 (-1)) white.

(** A light on the view axis, 400 units in front of the camera. *)
Definition axis_light : Light := mkLight (mkVec3 0 0 (-400)) white.

(** A light on the view axis, one unit in front of the camera. *)
Definition near_light : Light := mkLight (mkVec3 0 0 (-1)) white.

(** A light on the view axis, 1500 units in front of the camera. *)
Definition beyond_light : Light := mkLight (mkVec3 0 0 (-1500)) white.

(** A fragment of the example camera at pixel (695.5, 550) with device
    depth 0.75, and the view-space position the Forward+ shader
    reconstructs for it (world space is view space under the identity view
    matrix). *)
Definition example_fragment : ForwardPlus.FragmentInput :=
  ForwardPlus.mkFragmentInput
    (mkVec4 (16195750587 / 500050000000) (41421357 / 5000500000)
            (- (10000 / 50005)) 1)
    (mkVec4 0 0 1 0)
    (mkVec2 0 0)
    (mkVec4 (6955 / 10) 550 (3 / 4) 1).

(** The [Lights] object as constructed: 200 active lights, uploaded. *)
Definition initial_lights_state : LightsTs.State :=
  LightsTs.updateLightSetUniformNumLights
    (LightsTs.mkState LightsTs.initial_numLights 0).

(** A table of the size the constructor allocates for the one-cluster
    grid, with arbitrary stale contents. *)
Definition stale_single_table : ClusterTable := mkClusterTable [7] [9; 9].

(** ** clustered_deferred_fullscreen.vs.wgsl *)

Module FullscreenVS.

Record VertexOutput := mkVertexOutput { clipPos : vec4; uv : vec2 }.

(** The local array [pos]; the draw call issues the indices 0, 1 and 2. *)
Definition pos (vertIndex : Z) : vec2 :=
  if vertIndex =? 0 then mkVec2 (-1) (-1)
  else if vertIndex =? 1 then mkVec2 3 (-1)
  else mkVec2 (-1) 3.

Definition main (vertIndex : Z) : VertexOutput :=
  let clipXY := pos vertIndex in
  mkVertexOutput
    (mkVec4 (v2x clipXY) (v2y clipXY) 0 1)
    (mkVec2 (v2x clipXY * (5 / 10) + 5 / 10) (v2y clipXY * (5 / 10) + 5 / 10)).

End FullscreenVS.

(** A point of the triangle drawn by the three invocations of a vertex
    shader, and a vertex output interpolated there, by its barycentric
    weights. *)
Definition interpolate (w0 w1 w2 : R) (a0 a1 a2 : R) : R :=
  (w0 * a0 + w1 * a1 + w2 * a2)%R.

(** ** camera.ts: class [ClusteringUniformsHost] *)

Module UniformsHost.

(** One 32-bit word of the [ArrayBuffer], as last written through the
    [Float32Array] view or through the [Uint32Array] view. *)
Inductive Word :=
  | WFloat (r : R)
  | WUint (z : Z).

(** [(16 * 3 + 4 + 4) * 4] bytes, zero-filled. *)
Definition bufferWords : nat := 16 * 3 + 4 + 4.
Definition new_buffer : list Word := replicate bufferWords (WUint 0).

Definition viewMatOff : nat := 0.
Definition projMatOff : nat := 16.
Definition invProjOff : nat := 32.
Definition params0Off : nat := 48.
Definition params1Off : nat := 52.

Fixpoint write_floats (buf : list Word) (src : list R) (off : nat)
  : list Word :=
  match src with
  | [] => buf
  | r :: rest => write_floats (<[off := WFloat r]> buf) rest (S off)
  end.

(** [floatView.set(src, off)]: a [RangeError] when the source does not fit
    behind the offset. *)
Definition float_set (buf : list Word) (src : list R) (off : nat)
  : option (list Word) :=
  if decide (off + length src <= length buf)%nat
  then Some (write_floats buf src off)
  else None.

Definition setMatrices (viewMat projMat invProjMat : list R)
  (buf : list Word) : option (list Word) :=
  match float_set buf viewMat viewMatOff with
  | None => None
  | Some b1 =>
      match float_set b1 projMat projMatOff with
      | None => None
      | Some b2 => float_set b2 invProjMat invProjOff
      end
  end.

(** Eight indexed stores; the four integers go through the [Uint32Array]
    view, which converts with ToUint32. *)
Definition setParams (screenW screenH near far : R)
  (clustersX clustersY clustersZ maxLightsPerCluster : Z)
  (buf : list Word) : list Word :=
  let b0 := <[(params0Off + 0)%nat := WFloat screenW]> buf in
  let b1 := <[(params0Off + 1)%nat := WFloat screenH]> b0 in
  let b2 := <[(params0Off + 2)%nat := WFloat near]> b1 in
  let b3 := <[(params0Off + 3)%nat := WFloat far]> b2 in
  let b4 := <[(params1Off + 0)%nat := WUint (U32.wrap clustersX)]> b3 in
  let b5 := <[(params1Off + 1)%nat := WUint (U32.wrap clustersY)]> b4 in
  let b6 := <[(params1Off + 2)%nat := WUint (U32.wrap clustersZ)]> b5 in
  <[(params1Off + 3)%nat := WUint (U32.wrap maxLightsPerCluster)]> b6.

(** The clustering part of [Camera.onFrame]: [setMatrices], then
    [setParams] with the static parameters of [Camera]. *)
Definition onFrame_upload (viewMat projMat invProjMat : list R)
  (screenW screenH : R) (buf : list Word) : option (list Word) :=
  match setMatrices viewMat projMat invProjMat buf with
  | None => None
  | Some b =>
      Some (setParams screenW screenH Camera.nearPlane Camera.farPlane
              Camera.clustersX Camera.clustersY Camera.clustersZ
              Camera.maxLightsPerCluster b)
  end.

End UniformsHost.

(** ** camera.ts: camera orientation and movement *)

Module CameraTs.

Record State := mkState {
  cameraPos : vec3;
  cameraFront : vec3;
  cameraUp : vec3;
  cameraRight : vec3;
  yaw : R;
  pitch : R
}.

Definition moveSpeed : R := (4 / 1000)%R.
Definition sensitivity : R := (15 / 100)%R.

(** [vec3.normalize] of wgpu-matrix: the zero vector for a vector
    shorter than [0.00001]. *)
Definition vec3_normalize (v : vec3) : vec3 :=
  let len := length3 v in
  if Rgt_dec len (1 / 100000) then vec3_div v len else vec3_zero.

(** [vec3.cross] of wgpu-matrix. *)
Definition vec3_cross (a b : vec3) : vec3 :=
  mkVec3 (vy a * vz b - vz a * vy b)
         (vz a * vx b - vx a * vz b)
         (vx a * vy b - vy a * vx b).

(** [rotateCamera(dx, dy)].  [toRadians] is the helper of [math_util]. *)
Definition rotateCamera (toRadians : R -> R) (dx dy : R) (s : State) : State :=
  let yaw1 := (yaw s + dx)%R in
  let pitch1 := (pitch s - dy)%R in
  let pitch2 := if Rgt_dec pitch1 89 then 89%R else pitch1 in
  let pitch3 := if Rlt_dec pitch2 (-89) then (-89)%R else pitch2 in
  let front :=
    mkVec3 (cos (toRadians yaw1) * cos (toRadians pitch3))
           (sin (toRadians pitch3))
           (sin (toRadians yaw1) * cos (toRadians pitch3)) in
  let front1 := vec3_normalize front in
  let right1 := vec3_normalize (vec3_cross front1 (mkVec3 0 1 0)) in
  let up1 := vec3_normalize (vec3_cross right1 front1) in
  mkState (cameraPos s) front1 up1 right1 yaw1 pitch3.

(** [onMouseMove]: the mouse turns the camera only while the pointer is
    locked to the canvas. *)
Definition onMouseMove (toRadians : R -> R) (pointerLocked : bool)
  (movementX movementY : R) (s : State) : State :=
  if pointerLocked
  then rotateCamera toRadians (movementX * sensitivity)
         (movementY * sensitivity) s
  else s.

(** The six movement keys of [this.keys]. *)
Record Keys := mkKeys {
  key_w : bool; key_s : bool; key_a : bool; key_d : bool;
  key_q : bool; key_e : bool
}.

Definition moveDir (keys : Keys) (s : State) : vec3 :=
  let m0 := mkVec3 0 0 0 in
  let m1 := if key_w keys then vec3_add m0 (cameraFront s) else m0 in
  let m2 := if key_s keys then vec3_sub m1 (cameraFront s) else m1 in
  let m3 := if key_a keys then vec3_sub m2 (cameraRight s) else m2 in
  let m4 := if key_d keys then vec3_add m3 (cameraRight s) else m3 in
  let m5 := if key_q keys then vec3_sub m4 (mkVec3 0 1 0) else m4 in
  let m6 := if key_e keys then vec3_add m5 (mkVec3 0 1 0) else m5 in
  vec3_normalize m6.

Definition processInput (keys : Keys) (deltaTime : R) (s : State) : State :=
  let velocity := (moveSpeed * deltaTime)%R in
  mkState (vec3_add (cameraPos s) (vec3_scale (moveDir keys s) velocity))
    (cameraFront s) (cameraUp s) (cameraRight s) (yaw s) (pitch s).

End CameraTs.

(** ** lights.ts: initial light colours *)

Module LightsInit.

Definition numFloatsPerLight : Z := 8.
Definition lightIntensity : R := (1 / 10)%R.

(** The remainder operator [%] of JavaScript on numbers. *)
Definition js_rem (x y : R) : R := (x - y * IZR (F32.trunc (x / y)))%R.

(** The inner function [f] of [hueToRgb], its default parameter [k]
    written out. *)
Definition hue_f (h n : R) : R :=
  let k := js_rem (n + h * 6) 6 in
  (1 - Rmax (Rmin (Rmin k (4 - k)) 1) 0)%R.

(** [vec3.lerp] of wgpu-matrix. *)
Definition vec3_lerp (a b : vec3) (t : R) : vec3 :=
  mkVec3 (vx a + t * (vx b - vx a)) (vy a + t * (vy b - vy a))
         (vz a + t * (vz b - vz a)).

Definition hueToRgb (h : R) : vec3 :=
  vec3_lerp (mkVec3 1 1 1)
    (mkVec3 (hue_f h 5) (hue_f h 3) (hue_f h 1)) (8 / 10).

(** [new Float32Array(maxNumLights * numFloatsPerLight)]. *)
Definition new_lightsArray : list R :=
  replicate (Z.to_nat (LightsTs.maxNumLights * numFloatsPerLight)) 0%R.

Fixpoint write_at (arr : list R) (src : list R) (off : nat) : list R :=
  match src with
  | [] => arr
  | r :: rest => write_at (<[off := r]> arr) rest (S off)
  end.

(** [lightsArray.set(src, off)]: a [RangeError] when the source does not
    fit behind the offset. *)
Definition array_set (arr : list R) (src : list R) (off : Z)
  : option (list R) :=
  if decide (0 <= off /\ off + Z.of_nat (length src) <= Z.of_nat (length arr))
  then Some (write_at arr src (Z.to_nat off))
  else None.

(** [vec3.scale(hueToRgb(h), Lights.lightIntensity)], for the value [h]
    of [Math.random()]. *)
Definition lightColor (h : R) : vec3 := vec3_scale (hueToRgb h) lightIntensity.

(** One iteration of the loop of [populateLightsBuffer]; [random lightIdx]
    is the value [Math.random()] returns in that iteration, and an
    exception of an earlier iteration ends the loop. *)
Definition populate_body (random : Z -> R) (lightIdx : Z)
  (arr : option (list R)) : option (list R) :=
  match arr with
  | None => None
  | Some a =>
      let lightColor := lightColor (random lightIdx) in
      array_set a [vx lightColor; vy lightColor; vz lightColor]
        (lightIdx * numFloatsPerLight + 4)
  end.

Definition populateLightsBuffer (random : Z -> R) (arr : list R)
  : option (list R) :=
  for_loop LightsTs.maxNumLights (populate_body random) 0 (Some arr).

End LightsInit.

(** ** Vocabulary of the further results *)

(** The active lights that pass the test of a cluster, in index order. *)
Definition hits (U : ClusteringUniforms) (c : Z) (L : Lights) : list Z :=
  hit_list U (Clustering.cluster_bounds U c) L (Z.to_nat (numLights L)).

(** A colour or a sum of colours with no negative component. *)
Definition vec3_nonneg (v : vec3) : Prop :=
  (0 <= vx v /\ 0 <= vy v /\ 0 <= vz v)%R.

(** The sixteen numbers of a matrix in column-major order, as a
    [Float32Array] holds them. *)
Definition vec4_floats (v : vec4) : list R := [wx v; wy v; wz v; ww v].
Definition mat4_floats (m : mat4) : list R :=
  vec4_floats (col0 m) ++ vec4_floats (col1 m) ++ vec4_floats (col2 m)
  ++ vec4_floats (col3 m).

(** The struct [ClusteringUniforms] of common.wgsl as a shader reads it
    from the words of the uniform buffer: its members lie one behind the
    other, a matrix as four columns of four floats.  A word last written
    through the other view is not given a value here. *)
Definition read_float (buf : list UniformsHost.Word) (i : nat) : option R :=
  match buf !! i with
  | Some (UniformsHost.WFloat r) => Some r
  | _ => None
  end.

Definition read_uint (buf : list UniformsHost.Word) (i : nat) : option Z :=
  match buf !! i with
  | Some (UniformsHost.WUint z) => Some z
  | _ => None
  end.

Definition read_vec4 (buf : list UniformsHost.Word) (off : nat) : option vec4 :=
  a ← read_float buf off;
  b ← read_float buf (off + 1)%nat;
  c ← read_float buf (off + 2)%nat;
  d ← read_float buf (off + 3)%nat;
  Some (mkVec4 a b c d).

Definition read_mat4 (buf : list UniformsHost.Word) (off : nat) : option mat4 :=
  c0 ← read_vec4 buf off;
  c1 ← read_vec4 buf (off + 4)%nat;
  c2 ← read_vec4 buf (off + 8)%nat;
  c3 ← read_vec4 buf (off + 12)%nat;
  Some (mkMat4 c0 c1 c2 c3).

Definition read_uniforms (buf : list UniformsHost.Word)
  : option ClusteringUniforms :=
  v ← read_mat4 buf 0%nat;
  p ← read_mat4 buf 16%nat;
  ip ← read_mat4 buf 32%nat;
  w ← read_float buf 48%nat;
  h ← read_float buf 49%nat;
  n ← read_float buf 50%nat;
  f ← read_float buf 51%nat;
  cx ← read_uint buf 52%nat;
  cy ← read_uint buf 53%nat;
  cz ← read_uint buf 54%nat;
  m ← read_uint buf 55%nat;
  Some (mkClusteringUniforms v p ip w h n f cx cy cz m).

(** The float of a colour that [lightsArray.set] puts at offset [k] of a
    light: the three components go to the offsets 4, 5 and 6. *)
Definition colour_component (c : vec3) (k : Z) : R :=
  if k =? 4 then vx c else if k =? 5 then vy c else vz c.

(** The state of the loop of [populateLightsBuffer] before iteration [i]. *)
Definition populated (random : Z -> R) (arr : list R) (i : Z)
  (st : option (list R)) : Prop :=
  exists a, st = Some a /\ length a = length arr /\
    forall j : nat,
      a !! j =
      if decide (Z.of_nat j / 8 < i /\ 4 <= Z.of_nat j mod 8 <= 6)
      then Some (colour_component (LightsInit.lightColor (random (Z.of_nat j / 8)))
                   (Z.of_nat j mod 8))
      else arr !! j.

(** Conversion from degrees, for the examples. *)
Definition degrees (x : R) : R := (x * PI / 180)%R.

(** The camera as constructed, before its first rotation. *)
Definition initial_camera : CameraTs.State :=
  CameraTs.mkState (mkVec3 (-7) 2 0) (mkVec3 0 0 (-1)) (mkVec3 0 1 0)
    (mkVec3 1 0 0) 0 0.

(** ** Further concrete inputs *)

(** The example camera with a grid that has no column. *)
Definition empty_grid_uniforms : ClusteringUniforms :=
  mkClusteringUniforms mat4_identity example_proj example_invProj
    1000 1000 Camera.nearPlane Camera.farPlane 0 1 1 2.

(** A light on the view axis, five units behind the camera. *)
Definition behind_light : Light := mkLight (mkVec3 0 0 5) white.

(** The input of the full-screen pass at the pixel of [example_fragment],
    and a G-buffer that holds at every pixel what the geometry pass writes
    for [example_fragment] with a white albedo. *)
Definition example_deferred_input : ClusteredDeferred.FragmentInput :=
  ClusteredDeferred.mkFragmentInput (mkVec2 0 0)
    (mkVec4 (6955 / 10) 550 (3 / 4) 1).

Definition example_gbuffer : ClusteredDeferred.GBuffer :=
  let g := GBufferPass.main (fun _ => white)
             (GBufferPass.mkFragmentInput
                (ForwardPlus.worldPos example_fragment)
                (ForwardPlus.worldNormal example_fragment)
                (ForwardPlus.uv example_fragment)) in
  ClusteredDeferred.mkGBuffer
    (fun _ _ => GBufferPass.out_position g)
    (fun _ _ => GBufferPass.out_normal g)
    (fun _ _ => GBufferPass.out_albedo g).

(** Forward and right held together. *)
Definition strafe_keys : CameraTs.Keys :=
  CameraTs.mkKeys true false false true false false.

(** Forward and back held together. *)
Definition opposed_keys : CameraTs.Keys :=
  CameraTs.mkKeys true true false false false false.

(** A one-cluster table whose cluster lists light 0, with a stale second
    slot. *)
Definition listing_single_table : ClusterTable := mkClusterTable [1] [0; 9].

(** ** Fragments of rasterised geometry *)

(** camera.ts: [viewProjMat = mat4.mul(projMat, viewMat)], applied to a
    world position. *)
Definition clip_position (U : ClusteringUniforms) (worldPos : vec4) : vec4 :=
  mat4_mul_vec4 (projMat U) (mat4_mul_vec4 (viewMat U) worldPos).

(** Modelled from the spec: the vertex stage (naive.vs.wgsl) and the
    rasteriser that hand the Forward+ shader its input are not among the
    sources.  The spec has every fragment "produced by ordinary
    rasterization of scene geometry" and carrying its "screen coordinates
    and device depth": the surface point [worldPos] goes to clip space by
    [viewProj]; after the perspective divide the viewport maps x and y to
    pixels (y pointing down) and keeps the depth, which runs from 0 on the
    near plane to 1 on the far plane. *)
Definition rasterised (U : ClusteringUniforms)
  (input : ForwardPlus.FragmentInput) : Prop :=
  let clip := clip_position U (ForwardPlus.worldPos input) in
  (0 < ww clip /\
   wx (ForwardPlus.fragCoord input)
   = (wx clip / ww clip + 1) / 2 * screenWidth U /\
   wy (ForwardPlus.fragCoord input)
   = (1 - wy clip / ww clip) / 2 * screenHeight U /\
   wz (ForwardPlus.fragCoord input) = wz clip / ww clip)%R.

(** The view-space position of a surface point. *)
Definition view_position (U : ClusteringUniforms) (worldPos : vec4) : vec3 :=
  xyz (mat4_mul_vec4 (viewMat U) worldPos).

(** The fragment of an upward-facing surface point on the view axis of the
    example camera, [d] units in front of it: the centre of the 1000 x 1000
    canvas, with the device depth [example_proj] gives the point. *)
Definition axis_fragment (d : R) : ForwardPlus.FragmentInput :=
  ForwardPlus.mkFragmentInput
    (mkVec4 0 0 (- d) 1)
    (mkVec4 0 1 0 0)
    (mkVec2 0 0)
    (mkVec4 500 500 ((10000 * d - 1000) / (9999 * d)) 1).

(** The fragment of the full-screen triangle at the same pixel. *)
Definition axis_deferred_input : ClusteredDeferred.FragmentInput :=
  ClusteredDeferred.mkFragmentInput (mkVec2 (1 / 2) (1 / 2))
    (mkVec4 500 500 0 1).

(** A G-buffer that holds what the geometry pass writes for a fragment. *)
Definition gbuffer_of (diffuse : vec2 -> vec3)
  (input : ForwardPlus.FragmentInput) : ClusteredDeferred.GBuffer :=
  let g := GBufferPass.main diffuse
             (GBufferPass.mkFragmentInput
                (ForwardPlus.worldPos input)
                (ForwardPlus.worldNormal input)
                (ForwardPlus.uv input)) in
  ClusteredDeferred.mkGBuffer
    (fun _ _ => GBufferPass.out_position g)
    (fun _ _ => GBufferPass.out_normal g)
    (fun _ _ => GBufferPass.out_albedo g).

(** A white light one unit above the point of the view axis at depth [d]. *)
Definition light_above (d : R) : Light := mkLight (mkVec3 0 1 (- d)) white.

(** The cluster buffers as the constructor of [Lights] creates them:
    [numClusters] counts and [numClusters * maxLightsPerCluster] indices,
    zero-filled. *)
Definition zero_table (U : ClusteringUniforms) : ClusterTable :=
  mkClusterTable
    (replicate (Z.to_nat (LightsTs.numClusters U)) 0)
    (replicate (Z.to_nat (LightsTs.numClusters U * maxLightsPerCluster U)) 0).

(** Three lights on the view axis, 400 units in front of the camera. *)
Definition three_axis_lights : Lights :=
  mkLights 3 [axis_light; axis_light; axis_light].

(** The table one frame's dispatch leaves in the buffers of the
    constructor. *)
Definition frame_table (U : ClusteringUniforms) (L : Lights) : ClusterTable :=
  LightsTs.doLightClustering U L (zero_table U).

(** * Proofs *)

(** ** The loop combinator *)

Lemma for_loop_step {A} (bound : Z) (body : Z -> A -> A) (i : Z) (a : A) :
  i < bound ->
  for_loop bound body i a = for_loop bound body (i + 1) (body i a).
Proof.
  intros Hlt. rewrite for_loop_equation_1. unfold for_loop_unfold_clause_1.
  destruct (Z_lt_dec i bound); [reflexivity | lia].
Qed.

Lemma for_loop_done {A} (bound : Z) (body : Z -> A -> A) (i : Z) (a : A) :
  bound <= i -> for_loop bound body i a = a.
Proof.
  intros Hge. rewrite for_loop_equation_1. unfold for_loop_unfold_clause_1.
  destruct (Z_lt_dec i bound); [lia | reflexivity].
Qed.

(** The iterations a run from [i] performs, as a list of counter values. *)
Lemma for_loop_fold_from {A} (body : Z -> A -> A) (n : nat) :
  forall (i : Z) (a : A),
    for_loop (i + Z.of_nat n) body i a =
    fold_left (fun acc k => body k acc)
      (map (fun k => i + Z.of_nat k) (seq 0 n)) a.
Proof.
  induction n as [|n IH]; intros i a.
  - rewrite for_loop_done by lia. reflexivity.
  - rewrite for_loop_step by lia.
    replace (i + Z.of_nat (S n)) with ((i + 1) + Z.of_nat n) by lia.
    rewrite IH. cbn [seq map fold_left].
    replace (i + Z.of_nat 0) with i by lia.
    rewrite <- seq_shift, map_map. f_equal.
    apply map_ext. intros k. lia.
Qed.

Lemma for_loop_fold {A} (bound : Z) (body : Z -> A -> A) (a : A) :
  for_loop bound body 0 a =
  fold_left (fun acc k => body k acc)
    (map Z.of_nat (seq 0 (Z.to_nat bound))) a.
Proof.
  destruct (Z_lt_dec 0 bound) as [Hpos|Hneg].
  - replace bound with (0 + Z.of_nat (Z.to_nat bound)) at 1 by lia.
    rewrite for_loop_fold_from. f_equal.
  - rewrite for_loop_done by lia.
    replace (Z.to_nat bound) with 0%nat by lia. reflexivity.
Qed.

(** An invariant that every iteration preserves holds when the loop ends. *)
Lemma for_loop_invariant {A} (P : Z -> A -> Prop) (bound : Z)
  (body : Z -> A -> A) (a : A) :
  0 <= bound ->
  P 0 a ->
  (forall i s, 0 <= i < bound -> P i s -> P (i + 1) (body i s)) ->
  P bound (for_loop bound body 0 a).
Proof.
  intros Hb H0 Hstep.
  assert (Hgen : forall n i s, 0 <= i -> i + Z.of_nat n = bound -> P i s ->
                   P bound (for_loop bound body i s)).
  { induction n as [|n IH]; intros i s Hi Hn Hs.
    - rewrite for_loop_done by lia. replace bound with i by lia. exact Hs.
    - rewrite for_loop_step by lia. apply IH; [lia | lia |].
      apply Hstep; [lia | exact Hs]. }
  apply (Hgen (Z.to_nat bound) 0); [lia | lia | exact H0].
Qed.

(** ** Replaying a trace *)

Lemma length_replay (ws : list (nat * Z)) :
  forall buf, length (replay buf ws) = length buf.
Proof.
  induction ws as [|w ws IH]; intros buf; [reflexivity|].
  cbn [replay fold_left]. fold (replay (<[fst w := snd w]> buf) ws).
  rewrite IH. apply length_insert.
Qed.

Lemma lookup_replay (ws : list (nat * Z)) :
  forall (buf : list Z) (p : nat),
    replay buf ws !! p =
    match last_write ws p with
    | Some v => if decide (p < length buf)%nat then Some v else None
    | None => buf !! p
    end.
Proof.
  induction ws as [|w ws IH]; intros buf p; [reflexivity|].
  cbn [replay fold_left last_write].
  fold (replay (<[fst w := snd w]> buf) ws).
  rewrite IH, length_insert.
  destruct (last_write ws p) as [v|]; [reflexivity|].
  destruct (Nat.eqb_spec (fst w) p) as [->|Hne].
  - destruct (decide (p < length buf)%nat) as [Hlt|Hge].
    + by rewrite list_lookup_insert_eq.
    + apply lookup_ge_None_2. rewrite length_insert. lia.
  - by rewrite list_lookup_insert_ne.
Qed.

Lemma replay_idempotent (ws : list (nat * Z)) (buf : list Z) :
  replay (replay buf ws) ws = replay buf ws.
Proof.
  apply list_eq. intros p.
  rewrite (lookup_replay ws (replay buf ws)), length_replay.
  rewrite (lookup_replay ws buf).
  destruct (last_write ws p); reflexivity.
Qed.

Lemma last_write_In (ws : list (nat * Z)) (p : nat) (v : Z) :
  last_write ws p = Some v -> In (p, v) ws.
Proof.
  induction ws as [|[q u] ws IH]; cbn [last_write fst snd]; [discriminate|].
  destruct (last_write ws p) as [v'|].
  - intros [= ->]. right. by apply IH.
  - destruct (Nat.eqb_spec q p) as [->|]; [|discriminate].
    intros [= ->]. by left.
Qed.

Lemma last_write_determined (ws : list (nat * Z)) (p : nat) (v : Z) :
  In (p, v) ws ->
  (forall v', In (p, v') ws -> v' = v) ->
  last_write ws p = Some v.
Proof.
  intros Hin Huniq.
  destruct (last_write ws p) as [v'|] eqn:Hlw.
  - f_equal. apply Huniq. by apply last_write_In.
  - exfalso. induction ws as [|[q u] ws IH]; [done|].
    cbn [last_write fst snd] in Hlw.
    destruct (last_write ws p); [discriminate|].
    destruct (Nat.eqb_spec q p) as [->|Hne]; [discriminate|].
    destruct Hin as [[= -> ->]|Hin]; [done|].
    apply IH; [done | | done]. intros v' Hv'. apply Huniq. by right.
Qed.

Lemma exec_replay (tr : list Store) :
  forall T, exec T tr =
            mkClusterTable (replay (counts T) (count_writes tr))
                           (replay (indices T) (index_writes tr)).
Proof.
  induction tr as [|s tr IH]; intros [cs ids]; [reflexivity|].
  cbn [exec fold_left]. fold (exec (apply_store (mkClusterTable cs ids) s) tr).
  rewrite IH. destruct s; reflexivity.
Qed.

Lemma In_count_writes (tr : list Store) (p : nat) (v : Z) :
  In (p, v) (count_writes tr) <->
  exists q, In (StoreCount q v) tr /\ Z.to_nat q = p.
Proof.
  unfold count_writes. rewrite in_flat_map. split.
  - intros [[q u|q u] [Hin Hs]]; cbn in Hs; [done|].
    destruct Hs as [[= <- <-]|[]]. by exists q.
  - intros (q & Hin & <-). exists (StoreCount q v). split; [done | by left].
Qed.

Lemma In_index_writes (tr : list Store) (p : nat) (v : Z) :
  In (p, v) (index_writes tr) <->
  exists q, In (StoreIndex q v) tr /\ Z.to_nat q = p.
Proof.
  unfold index_writes. rewrite in_flat_map. split.
  - intros [[q u|q u] [Hin Hs]]; cbn in Hs; [|done].
    destruct Hs as [[= <- <-]|[]]. by exists q.
  - intros (q & Hin & <-). exists (StoreIndex q v). split; [done | by left].
Qed.

(** ** The light loop of the clustering shader *)

Lemma hit_list_S (U : ClusteringUniforms) (b : Clustering.ClusterBounds)
  (L : Lights) (n : nat) :
  hit_list U b L (S n) =
  hit_list U b L n ++
    (if Clustering.intersects U b (load_light L (Z.of_nat n))
     then [Z.of_nat n] else []).
Proof.
  unfold hit_list. rewrite seq_S, map_app, List.filter_app. reflexivity.
Qed.

Lemma in_hit_list (U : ClusteringUniforms) (b : Clustering.ClusterBounds)
  (L : Lights) (n : nat) (l : Z) :
  In l (hit_list U b L n) <->
  0 <= l < Z.of_nat n /\ Clustering.intersects U b (load_light L l) = true.
Proof.
  unfold hit_list. rewrite List.filter_In, in_map_iff. split.
  - intros [(k & <- & Hk) Hhit]. apply in_seq in Hk. split; [lia | done].
  - intros [Hl Hhit]. split; [|done].
    exists (Z.to_nat l). split; [lia | apply in_seq; lia].
Qed.

Lemma in_accepted (U : ClusteringUniforms) (b : Clustering.ClusterBounds)
  (L : Lights) (l : Z) :
  In l (accepted U b L) ->
  0 <= l < numLights L /\ Clustering.intersects U b (load_light L l) = true.
Proof.
  unfold accepted. intros Hin.
  apply list_elem_of_In, elem_of_take in Hin as (k & Hk & _).
  apply list_elem_of_lookup_2, list_elem_of_In, in_hit_list in Hk.
  destruct Hk as [Hrange Hhit]. split; [lia | exact Hhit].
Qed.

Lemma length_accepted (U : ClusteringUniforms) (b : Clustering.ClusterBounds)
  (L : Lights) :
  U32.in_range (maxLightsPerCluster U) ->
  0 <= Z.of_nat (length (accepted U b L)) <= maxLightsPerCluster U.
Proof.
  intros [Hlo Hhi]. unfold accepted. rewrite length_take. lia.
Qed.

Lemma light_loop_spec (U : ClusteringUniforms) (b : Clustering.ClusterBounds)
  (L : Lights) (c : Z) :
  U32.in_range (maxLightsPerCluster U) ->
  Clustering.light_loop U b L c =
  (Z.of_nat (length (accepted U b L)), index_stores U c (accepted U b L)).
Proof.
  intros [Hlo Hhi]. unfold U32.modulus in Hhi.
  unfold Clustering.light_loop, accepted.
  set (m := Z.to_nat (maxLightsPerCluster U)).
  destruct (Z_lt_dec (numLights L) 0) as [Hneg|Hnn].
  { rewrite for_loop_done by lia.
    replace (Z.to_nat (numLights L)) with 0%nat by lia. by destruct m. }
  apply (for_loop_invariant
    (fun i st => st = (Z.of_nat (length (take m (hit_list U b L (Z.to_nat i)))),
                       index_stores U c (take m (hit_list U b L (Z.to_nat i)))))).
  - lia.
  - by destruct m.
  - intros i st Hi ->.
    replace (Z.to_nat (i + 1)) with (S (Z.to_nat i)) by lia.
    rewrite hit_list_S, Z2Nat.id by lia.
    set (h := hit_list U b L (Z.to_nat i)).
    unfold Clustering.light_body. cbn [fst snd].
    destruct (Clustering.intersects U b (load_light L i));
      [|by rewrite app_nil_r].
    rewrite length_take.
    destruct (Z.ltb_spec (Z.of_nat (m `min` length h)) (maxLightsPerCluster U))
      as [Hroom|Hfull].
    + assert (Hlen : (length h < m)%nat) by lia.
      rewrite (take_ge h) by lia.
      rewrite (take_ge (h ++ [i])) by (rewrite length_app; cbn; lia).
      rewrite length_app. cbn [length].
      unfold index_stores. rewrite imap_app. cbn [imap].
      rewrite Nat.add_0_r, Nat.min_r by lia.
      f_equal. unfold U32.add at 1, U32.wrap, U32.modulus.
      rewrite Z.mod_small by lia. lia.
    + rewrite take_app_le by lia. by rewrite length_take.
Qed.

(** What an in-range invocation stores: the kept lights in slots
    [0, 1, ...] of its cluster, then the count. *)
Lemma main_spec (U : ClusteringUniforms) (L : Lights) (c : Z) :
  U32.in_range (maxLightsPerCluster U) ->
  c < Clustering.totalClusters U ->
  Clustering.main U L c =
  index_stores U c (accepted U (Clustering.cluster_bounds U c) L) ++
  [StoreCount c
     (Z.of_nat (length (accepted U (Clustering.cluster_bounds U c) L)))].
Proof.
  intros Hm Hc. unfold Clustering.main.
  destruct (Z.leb_spec (Clustering.totalClusters U) c); [lia|].
  by rewrite light_loop_spec.
Qed.

Lemma main_out_of_range (U : ClusteringUniforms) (L : Lights) (tid : Z) :
  Clustering.totalClusters U <= tid -> Clustering.main U L tid = [].
Proof.
  intros Hge. unfold Clustering.main.
  destruct (Z.leb_spec (Clustering.totalClusters U) tid); [done | lia].
Qed.

(** ** One dispatch *)

Lemma totalClusters_exact (U : ClusteringUniforms) :
  Clustering.totalClusters U = LightsTs.numClusters U mod U32.modulus.
Proof.
  unfold Clustering.totalClusters, LightsTs.numClusters, U32.mul, U32.wrap.
  by rewrite Zmult_mod_idemp_l.
Qed.

Lemma numClusters_nonneg (U : ClusteringUniforms) :
  uniforms_wf U -> 0 <= LightsTs.numClusters U.
Proof.
  intros ([? ?] & [? ?] & [? ?] & _). unfold LightsTs.numClusters.
  apply Z.mul_nonneg_nonneg; [apply Z.mul_nonneg_nonneg|]; lia.
Qed.

Lemma totalClusters_bounds (U : ClusteringUniforms) :
  uniforms_wf U ->
  0 <= Clustering.totalClusters U <= LightsTs.numClusters U.
Proof.
  intros Hwf. pose proof (numClusters_nonneg U Hwf) as Hnn.
  rewrite totalClusters_exact. unfold U32.modulus. split.
  - apply Z.mod_pos_bound. lia.
  - apply Z.mod_le; lia.
Qed.

Lemma dispatch_covers (U : ClusteringUniforms) :
  LightsTs.numClusters U <= LightsTs.numWorkgroups U * LightsTs.workgroupSize.
Proof.
  unfold LightsTs.numWorkgroups, LightsTs.ceil_div, LightsTs.workgroupSize.
  pose proof (Z.mul_div_le (- LightsTs.numClusters U) 64). lia.
Qed.

Lemma in_invocations (U : ClusteringUniforms) (t : Z) :
  In t (LightsTs.invocations U) <->
  0 <= t < LightsTs.numWorkgroups U * LightsTs.workgroupSize.
Proof.
  unfold LightsTs.invocations. rewrite in_map_iff. split.
  - intros (k & <- & Hk). apply in_seq in Hk. lia.
  - intros Ht. exists (Z.to_nat t). split; [lia | apply in_seq; lia].
Qed.

Lemma in_dispatch_trace (U : ClusteringUniforms) (L : Lights) (s : Store) :
  In s (LightsTs.dispatch_trace U L) <->
  exists t, In t (LightsTs.invocations U) /\ In s (Clustering.main U L t).
Proof.
  unfold LightsTs.dispatch_trace. rewrite in_concat. split.
  - intros (tr & Htr & Hs). apply in_map_iff in Htr as (t & <- & Ht). eauto.
  - intros (t & Ht & Hs). exists (Clustering.main U L t).
    split; [by apply in_map | done].
Qed.

Lemma in_index_stores (U : ClusteringUniforms) (c : Z) (ls : list Z) (s : Store) :
  In s (index_stores U c ls) <->
  exists k l, ls !! k = Some l /\ s = StoreIndex (slot U c k) l.
Proof.
  unfold index_stores. rewrite <- list_elem_of_In, elem_of_lookup_imap.
  split; intros (k & l & H1 & H2); eauto.
Qed.

(** The stores of an invocation, case by case. *)
Lemma in_main (U : ClusteringUniforms) (L : Lights) (t : Z) (s : Store) :
  U32.in_range (maxLightsPerCluster U) ->
  In s (Clustering.main U L t) ->
  t < Clustering.totalClusters U /\
  ((exists k l, accepted U (Clustering.cluster_bounds U t) L !! k = Some l /\
                s = StoreIndex (slot U t k) l) \/
   s = StoreCount t
         (Z.of_nat (length (accepted U (Clustering.cluster_bounds U t) L)))).
Proof.
  intros Hm Hin.
  destruct (Z_lt_dec t (Clustering.totalClusters U)) as [Hlt|Hge].
  - split; [done|]. rewrite main_spec in Hin by done.
    apply in_app_or in Hin as [Hin|[<-|[]]]; [left | by right].
    by apply in_index_stores.
  - rewrite main_out_of_range in Hin by lia. destruct Hin.
Qed.

Lemma slot_in_table (U : ClusteringUniforms) (c : Z) (k : nat) :
  uniforms_wf U ->
  0 <= c < Clustering.totalClusters U ->
  Z.of_nat k < maxLightsPerCluster U ->
  0 <= slot U c k < LightsTs.numClusters U * maxLightsPerCluster U.
Proof.
  intros Hwf Hc Hk.
  pose proof (totalClusters_bounds U Hwf) as Htot.
  destruct Hwf as (_ & _ & _ & [Hm0 Hm1]).
  unfold slot, U32.add, U32.mul, U32.wrap. rewrite Zplus_mod_idemp_l.
  unfold U32.modulus in *.
  pose proof (Z.mod_pos_bound (c * maxLightsPerCluster U + Z.of_nat k) (2 ^ 32)
                ltac:(lia)) as Hmod.
  split; [lia|].
  destruct (Z_lt_dec (c * maxLightsPerCluster U + Z.of_nat k) (2 ^ 32))
    as [Hsmall|Hbig].
  - rewrite Z.mod_small by nia. nia.
  - nia.
Qed.

Lemma count_stores_at_app (c : Z) (tr1 tr2 : list Store) :
  count_stores_at c (tr1 ++ tr2) =
  (count_stores_at c tr1 + count_stores_at c tr2)%nat.
Proof.
  induction tr1 as [|[p v|p v] tr1 IH]; cbn [count_stores_at app];
    [done | done |].
  destruct (p =? c); lia.
Qed.

Lemma count_stores_at_index_stores (U : ClusteringUniforms) (c c' : Z)
  (ls : list Z) :
  count_stores_at c (index_stores U c' ls) = 0%nat.
Proof.
  unfold index_stores.
  assert (H : forall (ls : list Z) (f : nat -> Z -> Store),
             (forall k l, exists p v, f k l = StoreIndex p v) ->
             count_stores_at c (imap f ls) = 0%nat).
  { clear ls. induction ls as [|l ls IH]; intros f Hf; [done|].
    cbn [imap]. destruct (Hf 0%nat l) as (p & v & ->). cbn [count_stores_at].
    apply IH. intros k l'. apply Hf. }
  apply H. eauto.
Qed.

Lemma count_stores_at_main (U : ClusteringUniforms) (L : Lights) (c t : Z) :
  U32.in_range (maxLightsPerCluster U) ->
  count_stores_at c (Clustering.main U L t) =
  if (t <? Clustering.totalClusters U) && (t =? c) then 1%nat else 0%nat.
Proof.
  intros Hm. destruct (Z.ltb_spec t (Clustering.totalClusters U)) as [Hlt|Hge].
  - rewrite main_spec, count_stores_at_app, count_stores_at_index_stores by done.
    cbn. by destruct (t =? c).
  - by rewrite main_out_of_range.
Qed.

Lemma count_stores_at_threads (U : ClusteringUniforms) (L : Lights) (c : Z)
  (n : nat) :
  U32.in_range (maxLightsPerCluster U) ->
  0 <= c < Clustering.totalClusters U ->
  forall start : nat,
    count_stores_at c
      (concat (map (Clustering.main U L) (map Z.of_nat (seq start n)))) =
    if (Z.of_nat start <=? c) && (c <? Z.of_nat (start + n))
    then 1%nat else 0%nat.
Proof.
  intros Hm Hc. induction n as [|n IH]; intros start.
  - cbn. destruct (Z.leb_spec (Z.of_nat start) c),
      (Z.ltb_spec c (Z.of_nat (start + 0))); cbn; lia.
  - cbn [seq map concat]. rewrite count_stores_at_app, IH.
    rewrite count_stores_at_main by done.
    destruct (Z.ltb_spec (Z.of_nat start) (Clustering.totalClusters U)),
      (Z.eqb_spec (Z.of_nat start) c),
      (Z.leb_spec (Z.of_nat (S start)) c),
      (Z.ltb_spec c (Z.of_nat (S start + n))),
      (Z.leb_spec (Z.of_nat start) c),
      (Z.ltb_spec c (Z.of_nat (start + S n))); cbn; lia.
Qed.

(** ** Claims about the assignment engine *)

(** C10.  An invocation whose id is at or beyond
    [clustersX * clustersY * clustersZ] issues no store at all; every store
    of a dispatch of [ceil(numClusters / 64)] workgroups lands inside the
    counts and indices buffers the host allocated; and the count of each
    in-range cluster is stored exactly once per dispatch. *)
Theorem out_of_range_invocations_store_nothing
  (U : ClusteringUniforms) (L : Lights) :
  uniforms_wf U ->
  (forall tid, Clustering.totalClusters U <= tid ->
               Clustering.main U L tid = []) /\
  (forall s, In s (LightsTs.dispatch_trace U L) -> store_in_table U s) /\
  (forall c, 0 <= c < Clustering.totalClusters U ->
             count_stores_at c (LightsTs.dispatch_trace U L) = 1%nat).
Proof.
  intros Hwf. pose proof (totalClusters_bounds U Hwf) as Htot.
  pose proof Hwf as (_ & _ & _ & Hm).
  split; [|split].
  - intros tid Htid. by apply main_out_of_range.
  - intros s Hs. apply in_dispatch_trace in Hs as (t & Ht & Hs).
    apply in_invocations in Ht.
    apply in_main in Hs as [Hlt [(k & l & Hk & ->)| ->]]; [| |done];
      cbn [store_in_table].
    + apply slot_in_table; [done | lia |].
      apply lookup_lt_Some in Hk.
      pose proof (length_accepted U (Clustering.cluster_bounds U t) L Hm). lia.
    + lia.
  - intros c Hc. unfold LightsTs.dispatch_trace, LightsTs.invocations.
    rewrite count_stores_at_threads by done.
    pose proof (dispatch_covers U) as Hcov.
    destruct (Z.leb_spec (Z.of_nat 0) c); [|lia].
    destruct (Z.ltb_spec c
      (Z.of_nat (0 + Z.to_nat (LightsTs.numWorkgroups U * LightsTs.workgroupSize))));
      [done | lia].
Qed.

Lemma out_of_range_invocations_store_nothing_witness :
  uniforms_wf example_uniforms /\
  ((forall tid, Clustering.totalClusters example_uniforms <= tid ->
                Clustering.main example_uniforms (mkLights 0 []) tid = []) /\
   (forall s, In s (LightsTs.dispatch_trace example_uniforms (mkLights 0 [])) ->
              store_in_table example_uniforms s) /\
   (forall c, 0 <= c < Clustering.totalClusters example_uniforms ->
              count_stores_at c
                (LightsTs.dispatch_trace example_uniforms (mkLights 0 []))
              = 1%nat)).
Proof.
  assert (Hwf : uniforms_wf example_uniforms).
  { unfold uniforms_wf, U32.in_range. vm_compute. intuition discriminate. }
  split; [exact Hwf|].
  exact (out_of_range_invocations_store_nothing example_uniforms
           (mkLights 0 []) Hwf).
Defined.

(** The count a dispatch leaves for an in-range cluster is the number of
    lights its invocation kept. *)
Lemma counts_after_dispatch (U : ClusteringUniforms) (L : Lights)
  (T : ClusterTable) (c : Z) :
  uniforms_wf U ->
  LightsTs.table_allocated U T ->
  0 <= c < Clustering.totalClusters U ->
  counts (LightsTs.doLightClustering U L T) !! Z.to_nat c =
  Some (Z.of_nat (length (accepted U (Clustering.cluster_bounds U c) L))).
Proof.
  intros Hwf [Hlen _] Hc. pose proof (totalClusters_bounds U Hwf) as Htot.
  pose proof Hwf as (_ & _ & _ & Hm).
  unfold LightsTs.doLightClustering. rewrite exec_replay. cbn [counts].
  rewrite lookup_replay.
  rewrite (last_write_determined _ _
             (Z.of_nat (length (accepted U (Clustering.cluster_bounds U c) L)))).
  - destruct (decide (Z.to_nat c < length (counts T))%nat); [done | lia].
  - apply In_count_writes. exists c. split; [|done].
    apply in_dispatch_trace. exists c. split.
    + apply in_invocations. pose proof (dispatch_covers U). lia.
    + rewrite main_spec by (done || lia). apply in_or_app. right. by left.
  - intros v' Hv'. apply In_count_writes in Hv' as (q & Hq & Heq).
    apply in_dispatch_trace in Hq as (t & Ht & Hq).
    apply in_invocations in Ht.
    apply in_main in Hq as [Hlt [(k & l & _ & [=])|[= -> ->]]]; [|done].
    by replace t with c by lia.
Qed.

(** C2.  After the dispatch, the count of every cluster lies between zero
    and [maxLightsPerCluster], whatever the lights are. *)
Theorem counts_bounded (U : ClusteringUniforms) (L : Lights)
  (T : ClusterTable) (c : Z) :
  uniforms_wf U ->
  LightsTs.table_allocated U T ->
  0 <= c < Clustering.totalClusters U ->
  exists v, counts (LightsTs.doLightClustering U L T) !! Z.to_nat c = Some v /\
            0 <= v <= maxLightsPerCluster U.
Proof.
  intros Hwf Halloc Hc. eexists. split.
  - by apply counts_after_dispatch.
  - apply length_accepted. apply Hwf.
Qed.

Lemma counts_bounded_witness :
  exists v,
    counts (LightsTs.doLightClustering single_cluster_uniforms
              (mkLights 0 []) stale_single_table) !! Z.to_nat 0 = Some v /\
    0 <= v <= maxLightsPerCluster single_cluster_uniforms.
Proof.
  apply (counts_bounded single_cluster_uniforms (mkLights 0 [])
           stale_single_table 0).
  - unfold uniforms_wf, U32.in_range. vm_compute. intuition discriminate.
  - split; reflexivity.
  - vm_compute. split; [discriminate | reflexivity].
Defined.

(** C7.  Running the assignment on the table it has just produced, with
    the same uniforms and lights, leaves both buffers as they are.  (That
    equal inputs give equal outputs is built in: [doLightClustering] is a
    function.) *)
Theorem assignment_idempotent (U : ClusteringUniforms) (L : Lights)
  (T : ClusterTable) :
  LightsTs.doLightClustering U L (LightsTs.doLightClustering U L T) =
  LightsTs.doLightClustering U L T.
Proof.
  unfold LightsTs.doLightClustering. rewrite !exec_replay. cbn [counts indices].
  by rewrite !replay_idempotent.
Qed.

(** ** Real-number toolkit *)

Section RealToolkit.
Local Open Scope R_scope.

(** A function whose derivative is nowhere negative is monotone. *)
Lemma increasing_of_derivative (f f' : R -> R) :
  (forall x, derivable_pt_lim f x (f' x)) ->
  (forall x, 0 <= f' x) ->
  forall x y, x <= y -> f x <= f y.
Proof.
  intros Hd Hpos.
  apply (nonneg_derivative_1 f (fun x => exist _ (f' x) (Hd x))).
  intros x. cbn. apply Hpos.
Qed.

Lemma atan_le_id (x : R) : 0 <= x -> atan x <= x.
Proof.
  intros Hx.
  assert (H : (id - atan)%F 0 <= (id - atan)%F x).
  { apply (increasing_of_derivative (id - atan)%F
             (fun t => 1 - / (1 + t ^ 2))); [| |done].
    - intros t. apply derivable_pt_lim_minus;
        [apply derivable_pt_lim_id | apply derivable_pt_lim_atan].
    - intros t. assert (0 <= t ^ 2) by apply pow2_ge_0.
      assert (/ (1 + t ^ 2) <= / 1) by (apply Rinv_le_contravar; lra).
      rewrite Rinv_1 in *. lra. }
  unfold minus_fct, id in H. rewrite atan_0 in H. lra.
Qed.

Lemma atan_nonneg (x : R) : 0 <= x -> 0 <= atan x.
Proof.
  intros [Hx| <-]; [|rewrite atan_0; lra].
  left. rewrite <- atan_0. by apply atan_increasing.
Qed.

(** The first two terms of the series bound [atan] from below. *)
Lemma atan_lower (x : R) : 0 <= x -> x - x ^ 3 / 3 <= atan x.
Proof.
  intros Hx.
  pose (p := fun t : R => t - t ^ 3 * / 3).
  assert (H : (atan - p)%F 0 <= (atan - p)%F x).
  { apply (increasing_of_derivative (atan - p)%F
             (fun t => / (1 + t ^ 2) - (1 - INR 3 * t ^ 2 * / 3)));
      [| |done].
    - intros t. apply derivable_pt_lim_minus;
        [apply derivable_pt_lim_atan|].
      unfold p.
      apply (derivable_pt_lim_minus id (fun t => t ^ 3 * / 3));
        [apply derivable_pt_lim_id|].
      apply (derivable_pt_lim_scal_right (fun t => t ^ 3)).
      apply (derivable_pt_lim_pow t 3).
    - intros t. cbn [INR]. assert (0 <= t ^ 2) by apply pow2_ge_0.
      assert (Hinv : 0 < / (1 + t ^ 2)) by (apply Rinv_0_lt_compat; lra).
      assert (Heq : (1 + t ^ 2) * / (1 + t ^ 2) = 1) by (apply Rinv_r; lra).
      nra. }
  unfold minus_fct, p in H. rewrite atan_0 in H. lra.
Qed.

Lemma atan2_front (y x : R) : 0 < x -> F32.atan2 y x = atan (y / x).
Proof. intros Hx. unfold F32.atan2. destruct (Rlt_dec 0 x); [done | lra]. Qed.

Lemma PI2_gt_1 : 1 < PI / 2.
Proof. exact PI2_1. Qed.

(** Within its radius of the camera plane a light subtends a right
    angle. *)
Lemma halfAngle_close (lz : R) :
  lz <= lightRadius -> Clustering.halfAngle lz = PI / 2.
Proof.
  unfold Clustering.halfAngle, lightRadius, F32.min, F32.max. intros Hlz.
  assert (Hmax : 0 < Rmax lz (1 / 1000) <= 2).
  { unfold Rmax. destruct (Rle_dec lz (1 / 1000)); lra. }
  assert (Hq : 1 <= 2 / Rmax lz (1 / 1000)).
  { apply (Rmult_le_reg_r (Rmax lz (1 / 1000))); [lra|].
    unfold Rdiv. rewrite Rmult_assoc, Rinv_l by lra. lra. }
  rewrite Rmin_left by lra. apply asin_1.
Qed.

(** Farther away the half angle is below the tangent bound. *)
Lemma halfAngle_far (lz : R) :
  4 <= lz -> 0 <= Clustering.halfAngle lz <= 4 / lz.
Proof.
  unfold Clustering.halfAngle, lightRadius, F32.min, F32.max. intros Hlz.
  rewrite Rmax_left by lra.
  assert (Hq : 0 < 2 / lz <= 1 / 2).
  { split; [apply Rdiv_lt_0_compat; lra|].
    apply (Rmult_le_reg_r lz); [lra|].
    unfold Rdiv. rewrite Rmult_assoc, Rinv_l by lra. lra. }
  rewrite Rmin_right by lra.
  rewrite asin_atan by lra.
  set (q := 2 / lz) in *.
  assert (Hs : 1 / 2 <= sqrt (1 - q²)).
  { rewrite <- (sqrt_Rsqr (1 / 2)) by lra.
    apply sqrt_le_1_alt. unfold Rsqr. nra. }
  assert (Hd : 0 <= q / sqrt (1 - q²) <= 2 * q).
  { split; [apply Rlt_le, Rdiv_lt_0_compat; lra|].
    apply (Rmult_le_reg_r (sqrt (1 - q²))); [lra|].
    unfold Rdiv at 1. rewrite Rmult_assoc, Rinv_l by lra. nra. }
  split; [apply atan_nonneg; lra|].
  eapply Rle_trans; [apply atan_le_id; lra|].
  unfold q in *. lra.
Qed.

Lemma Int_part_between (r : R) (z : Z) :
  IZR z <= r < IZR z + 1 -> Int_part r = z.
Proof. intros H. symmetry. apply Int_part_spec. lra. Qed.

End RealToolkit.

(** ** The cell of a flat index *)

Lemma cluster_coords (U : ClusteringUniforms) (c : Z) :
  uniforms_wf U -> grid_fits U ->
  0 <= c < Clustering.totalClusters U ->
  0 <= Clustering.clusterX U c < clustersX U /\
  0 <= Clustering.clusterY U c < clustersY U /\
  0 <= Clustering.clusterZ U c < clustersZ U /\
  flat_index U (Clustering.clusterX U c) (Clustering.clusterY U c)
    (Clustering.clusterZ U c) = c.
Proof.
  intros Hwf Hfit Hc. pose proof (numClusters_nonneg U Hwf) as Hnn.
  rewrite totalClusters_exact in Hc.
  unfold grid_fits in Hfit. rewrite Z.mod_small in Hc by lia.
  destruct Hwf as ([Hx0 Hx1] & [Hy0 Hy1] & [Hz0 Hz1] & _).
  unfold LightsTs.numClusters, U32.modulus in *.
  assert (Hz : 0 < clustersZ U) by nia.
  assert (Hxy : 0 < clustersX U * clustersY U) by nia.
  assert (Hx : 0 < clustersX U) by nia.
  assert (Hy : 0 < clustersY U) by nia.
  assert (Hxyfit : clustersX U * clustersY U < 2 ^ 32) by nia.
  unfold flat_index, Clustering.clusterX, Clustering.clusterY,
    Clustering.clusterZ, Clustering.clusterXY, U32.div, U32.rem, U32.mul,
    U32.wrap, U32.modulus.
  rewrite (Z.mod_small (clustersX U * clustersY U)) by lia.
  destruct (Z.eqb_spec (clustersX U * clustersY U) 0); [lia|].
  destruct (Z.eqb_spec (clustersX U) 0); [lia|].
  set (xy := clustersX U * clustersY U) in *.
  pose proof (Z.mod_pos_bound c xy Hxy) as Hr.
  pose proof (Z.div_mod c xy ltac:(lia)) as Hdm.
  pose proof (Z.mod_pos_bound (c mod xy) (clustersX U) Hx) as Hr2.
  pose proof (Z.div_mod (c mod xy) (clustersX U) ltac:(lia)) as Hdm2.
  assert (0 <= c / xy) by (apply Z.div_pos; lia).
  assert (0 <= c mod xy / clustersX U) by (apply Z.div_pos; lia).
  assert (c / xy < clustersZ U).
  { apply Z.div_lt_upper_bound; [lia|]. unfold xy. nia. }
  assert (c mod xy / clustersX U < clustersY U).
  { apply Z.div_lt_upper_bound; [lia|]. apply Hr. }
  repeat split; lia.
Qed.

(** Decomposing the flat index of a cell gives the cell back. *)
Lemma decompose_flat_index (U : ClusteringUniforms) (x y z : Z) :
  uniforms_wf U -> grid_fits U ->
  0 <= x < clustersX U -> 0 <= y < clustersY U -> 0 <= z < clustersZ U ->
  0 <= flat_index U x y z < Clustering.totalClusters U /\
  Clustering.clusterX U (flat_index U x y z) = x /\
  Clustering.clusterY U (flat_index U x y z) = y /\
  Clustering.clusterZ U (flat_index U x y z) = z.
Proof.
  intros Hwf Hfit Hx Hy Hz. pose proof (numClusters_nonneg U Hwf) as Hnn.
  rewrite totalClusters_exact.
  unfold grid_fits in Hfit. rewrite Z.mod_small by lia.
  unfold LightsTs.numClusters, U32.modulus in *.
  assert (Hxyfit : clustersX U * clustersY U < 2 ^ 32) by nia.
  unfold flat_index, Clustering.clusterX, Clustering.clusterY,
    Clustering.clusterZ, Clustering.clusterXY, U32.div, U32.rem, U32.mul,
    U32.wrap, U32.modulus.
  rewrite (Z.mod_small (clustersX U * clustersY U)) by nia.
  destruct (Z.eqb_spec (clustersX U * clustersY U) 0); [nia|].
  destruct (Z.eqb_spec (clustersX U) 0); [lia|].
  set (cx := clustersX U) in *. set (cy := clustersY U) in *.
  assert (Hxy : 0 <= x + y * cx < cx * cy) by nia.
  assert (Hq : (x + y * cx + z * cx * cy) / (cx * cy) = z).
  { replace (x + y * cx + z * cx * cy) with ((x + y * cx) + z * (cx * cy)) by ring.
    rewrite Z.div_add by lia. rewrite Z.div_small by lia. lia. }
  assert (Hm : (x + y * cx + z * cx * cy) mod (cx * cy) = x + y * cx).
  { replace (x + y * cx + z * cx * cy) with ((x + y * cx) + z * (cx * cy)) by ring.
    rewrite Z.mod_add by lia. apply Z.mod_small. lia. }
  rewrite Hq, Hm.
  rewrite Z.div_add by lia. rewrite Z.mod_add by lia.
  rewrite Z.div_small, Z.mod_small by lia.
  repeat split; nia.
Qed.

Section IntersectionTest.
Local Open Scope R_scope.

(** The shader's test, as the inequalities it checks. *)
Lemma intersects_true_iff (U : ClusteringUniforms)
  (b : Clustering.ClusterBounds) (light : Light) :
  Clustering.intersects U b light = true <->
  let pv := Clustering.lightPosView U light in
  let lz := - vz pv in
  let h := Clustering.halfAngle lz in
  (Clustering.zNear b - lightRadius <= lz <= Clustering.zFar b + lightRadius) /\
  (Clustering.angleLeft b <= horizAngle pv + h /\
   horizAngle pv - h <= Clustering.angleRight b) /\
  (Clustering.angleDown b <= vertAngle pv + h /\
   vertAngle pv - h <= Clustering.angleUp b).
Proof.
  unfold Clustering.intersects, horizAngle, vertAngle. cbv zeta.
  set (pv := Clustering.lightPosView U light).
  set (h := Clustering.halfAngle (- vz pv)).
  set (ha := F32.atan2 (vx pv) (vz pv * -1)).
  set (va := F32.atan2 (vy pv) (vz pv * -1)).
  unfold F32.ltb, F32.gtb.
  destruct (Rlt_dec (- vz pv) (Clustering.zNear b - lightRadius)),
    (Rgt_dec (- vz pv) (Clustering.zFar b + lightRadius)),
    (Rlt_dec (ha + h) (Clustering.angleLeft b)),
    (Rgt_dec (ha - h) (Clustering.angleRight b)),
    (Rlt_dec (va + h) (Clustering.angleDown b)),
    (Rgt_dec (va - h) (Clustering.angleUp b));
    cbv beta iota delta [orb];
    (split; [intros H; try discriminate H; lra
            | intros H; try reflexivity; exfalso; lra]).
Qed.

Lemma intersects_false_depth (U : ClusteringUniforms)
  (b : Clustering.ClusterBounds) (light : Light) :
  forward_distance U light > Clustering.zFar b + lightRadius ->
  Clustering.intersects U b light = false.
Proof.
  intros Hfar. apply not_true_is_false. intros Hhit.
  apply intersects_true_iff in Hhit. unfold forward_distance in Hfar.
  cbv zeta in Hhit. lra.
Qed.

(** The test accepts a light only if its vertical range covers the
    whole vertical range of the cell. *)
Lemma intersects_needs_cover (U : ClusteringUniforms)
  (b : Clustering.ClusterBounds) (light : Light) :
  Clustering.intersects U b light = true ->
  Clustering.angleDown b - Clustering.angleUp b <=
  2 * Clustering.halfAngle (forward_distance U light).
Proof.
  intros Hhit. apply intersects_true_iff in Hhit. cbv zeta in Hhit.
  unfold forward_distance. lra.
Qed.

End IntersectionTest.

(** ** Depth pre-filter *)

Section DepthFilter.
Local Open Scope R_scope.

Lemma zFar_le_far (U : ClusteringUniforms) (c : Z) :
  uniforms_wf U -> grid_fits U -> near U <= far U ->
  (0 <= c < Clustering.totalClusters U)%Z ->
  Clustering.zFar (Clustering.cluster_bounds U c) <= far U.
Proof.
  intros Hwf Hfit Hnf Hc.
  destruct (cluster_coords U c Hwf Hfit Hc) as (_ & _ & [Hz0 Hz1] & _).
  destruct Hwf as (_ & _ & [_ Hcz] & _). unfold U32.modulus in Hcz.
  unfold Clustering.cluster_bounds. cbn [Clustering.zFar].
  unfold Clustering.zSliceDepth, F32.of_u32, U32.add, U32.wrap, U32.modulus.
  rewrite Z.mod_small by lia.
  set (z := Clustering.clusterZ U c) in *.
  assert (Hk : IZR (z + 1) <= IZR (clustersZ U)) by (apply IZR_le; lia).
  assert (Hk0 : 0 <= IZR (z + 1)) by (apply IZR_le; lia).
  assert (Hcz0 : 0 < IZR (clustersZ U)) by (apply IZR_lt; lia).
  assert (Hfrac : IZR (z + 1) * / IZR (clustersZ U) <= 1).
  { apply (Rmult_le_reg_r (IZR (clustersZ U))); [done|].
    rewrite Rmult_assoc, Rinv_l by lra. lra. }
  assert (Hfrac0 : 0 <= IZR (z + 1) * / IZR (clustersZ U)).
  { apply Rmult_le_pos; [done|]. left. by apply Rinv_0_lt_compat. }
  unfold Rdiv.
  replace ((far U - near U) * / IZR (clustersZ U) * IZR (z + 1))
    with ((far U - near U) * (IZR (z + 1) * / IZR (clustersZ U))) by ring.
  nra.
Qed.

End DepthFilter.

(** C5 (amended).  A light whose forward distance, its depth along the
    view direction, exceeds [far + lightRadius] is kept by no cluster: it is
    in no cluster's list and no invocation stores its index. *)
Theorem lights_beyond_far_unassigned (U : ClusteringUniforms) (L : Lights)
  (i : Z) :
  uniforms_wf U -> grid_fits U -> (near U <= far U)%R ->
  (forward_distance U (load_light L i) > far U + lightRadius)%R ->
  (forall c, 0 <= c < Clustering.totalClusters U ->
             ~ In i (accepted U (Clustering.cluster_bounds U c) L)) /\
  (forall p, ~ In (StoreIndex p i) (LightsTs.dispatch_trace U L)).
Proof.
  intros Hwf Hfit Hnf Hfar.
  assert (Hno : forall c, 0 <= c < Clustering.totalClusters U ->
                  ~ In i (accepted U (Clustering.cluster_bounds U c) L)).
  { intros c Hc Hin. apply in_accepted in Hin as [_ Hhit].
    pose proof (zFar_le_far U c Hwf Hfit Hnf Hc) as Hz.
    rewrite intersects_false_depth in Hhit; [discriminate | lra]. }
  split; [exact Hno|].
  intros p Hin. apply in_dispatch_trace in Hin as (t & Ht & Hin).
  apply in_invocations in Ht.
  apply in_main in Hin as [Hlt [(k & l & Hk & [= _ ->])|[=]]]; [|apply Hwf].
  apply (Hno t); [lia|]. by apply list_elem_of_In, list_elem_of_lookup_2 with k.
Qed.

(** ** Evaluation at the example inputs *)

Lemma example_uniforms_wf : uniforms_wf example_uniforms.
Proof. unfold uniforms_wf, U32.in_range. vm_compute. intuition discriminate. Qed.

Lemma example_grid_fits : grid_fits example_uniforms.
Proof. reflexivity. Qed.

Lemma single_cluster_uniforms_wf : uniforms_wf single_cluster_uniforms.
Proof. unfold uniforms_wf, U32.in_range. vm_compute. intuition discriminate. Qed.

Section Evaluation.
Local Open Scope R_scope.

Lemma example_near_far : near example_uniforms <= far example_uniforms.
Proof. cbn. unfold Camera.nearPlane, Camera.farPlane. lra. Qed.

(** Under the identity view matrix view space is world space. *)
Lemma lightPosView_identity (U : ClusteringUniforms) (light : Light) :
  viewMat U = mat4_identity ->
  Clustering.lightPosView U light = position light.
Proof.
  intros HV. unfold Clustering.lightPosView. rewrite HV.
  destruct light as [[px py pz] col]. unfold mat4_mul_vec4, xyz, vec4_of.
  cbn. f_equal; lra.
Qed.

Lemma atan2_axis (d : R) : 0 < d -> F32.atan2 0 d = 0.
Proof.
  intros Hd. rewrite atan2_front by done.
  unfold Rdiv. rewrite Rmult_0_l. apply atan_0.
Qed.

End Evaluation.

(** The bounds of a cluster of [example_uniforms] whose coordinates are
    known. *)
Ltac example_bounds x y z :=
  unfold Clustering.cluster_bounds;
  cbn [Clustering.angleLeft Clustering.angleRight Clustering.angleDown
       Clustering.angleUp Clustering.zNear Clustering.zFar];
  repeat match goal with
  | |- context [Clustering.clusterX ?U ?c] =>
      change (Clustering.clusterX U c) with x
  | |- context [Clustering.clusterY ?U ?c] =>
      change (Clustering.clusterY U c) with y
  | |- context [Clustering.clusterZ ?U ?c] =>
      change (Clustering.clusterZ U c) with z
  end;
  unfold Clustering.fovX, Clustering.fovY, Clustering.aspect,
    Clustering.zSliceDepth, F32.of_u32;
  repeat match goal with
  | |- context [U32.add ?a ?b] =>
      let v := eval vm_compute in (U32.add a b) in
      change (U32.add a b) with v
  end;
  cbn [example_uniforms single_cluster_uniforms Camera.clusteringUniforms
       screenWidth screenHeight near far clustersX clustersY clustersZ];
  repeat match goal with
  | |- context [U32.wrap ?a] =>
      let v := eval vm_compute in (U32.wrap a) in
      change (U32.wrap a) with v
  end;
  unfold Camera.nearPlane, Camera.farPlane, lightRadius.

Section FarSideways.
Local Open Scope R_scope.

Lemma side_light_hits_cluster_5 :
  Clustering.intersects example_uniforms
    (Clustering.cluster_bounds example_uniforms 5) side_light = true.
Proof.
  apply intersects_true_iff. cbv zeta.
  rewrite lightPosView_identity by reflexivity.
  unfold horizAngle, vertAngle. cbn [position side_light vx vy vz].
  replace (-1 * -1) with 1 by lra. replace (- -1) with 1 by lra.
  rewrite halfAngle_close by (unfold lightRadius; lra).
  rewrite atan2_axis by lra. rewrite atan2_front by lra.
  pose proof (atan_bound (2000 / 1)) as Hb.
  pose proof (atan_nonneg (2000 / 1) ltac:(lra)) as Hn.
  pose proof PI2_gt_1 as Hpi.
  example_bounds 5%Z 0%Z 0%Z.
  lra.
Qed.

Lemma side_light_is_far :
  camera_distance example_uniforms side_light >
  far example_uniforms + lightRadius.
Proof.
  unfold camera_distance. rewrite lightPosView_identity by reflexivity.
  unfold length3, dot. cbn [position side_light vx vy vz].
  cbn [example_uniforms Camera.clusteringUniforms far].
  unfold Camera.farPlane, lightRadius.
  rewrite <- (sqrt_Rsqr (1000 + 2)) by lra.
  apply sqrt_lt_1_alt. unfold Rsqr. lra.
Qed.

End FarSideways.

(** A scene with one single light keeps it in a cluster exactly when the
    test of that cluster passes. *)
Lemma accepted_single_hit (U : ClusteringUniforms)
  (b : Clustering.ClusterBounds) (light : Light) :
  0 < maxLightsPerCluster U ->
  Clustering.intersects U b light = true ->
  accepted U b (mkLights 1 [light]) = [0].
Proof.
  intros Hm Hhit. unfold accepted, hit_list. cbn [numLights].
  change (Z.to_nat 1) with 1%nat. cbn [seq map List.filter].
  change (load_light (mkLights 1 [light]) (Z.of_nat 0)) with light.
  rewrite Hhit.
  destruct (Z.to_nat (maxLightsPerCluster U)) as [|[|n]] eqn:Heq;
    [lia | reflexivity | reflexivity].
Qed.

Lemma accepted_single_miss (U : ClusteringUniforms)
  (b : Clustering.ClusterBounds) (light : Light) :
  Clustering.intersects U b light = false ->
  accepted U b (mkLights 1 [light]) = [].
Proof.
  intros Hmiss. unfold accepted, hit_list. cbn [numLights].
  change (Z.to_nat 1) with 1%nat. cbn [seq map List.filter].
  change (load_light (mkLights 1 [light]) (Z.of_nat 0)) with light.
  rewrite Hmiss. apply take_nil.
Qed.

(** C5, counterexample.  A light farther than [far + lightRadius] from
    the camera, but off to the side and one unit in front of it, is kept by
    cluster 5: its index is stored and the cluster's count is one. *)
Lemma distant_light_is_assigned :
  (camera_distance example_uniforms side_light >
   far example_uniforms + lightRadius)%R /\
  Clustering.main example_uniforms (mkLights 1 [side_light]) 5 =
  [StoreIndex 2560 0; StoreCount 5 1].
Proof.
  split; [exact side_light_is_far|].
  rewrite main_spec; [| apply example_uniforms_wf | reflexivity].
  rewrite accepted_single_hit;
    [reflexivity | reflexivity | exact side_light_hits_cluster_5].
Qed.

Lemma lights_beyond_far_unassigned_witness :
  (uniforms_wf example_uniforms /\ grid_fits example_uniforms /\
   (near example_uniforms <= far example_uniforms)%R /\
   (forward_distance example_uniforms
      (load_light (mkLights 1 [beyond_light]) 0) >
    far example_uniforms + lightRadius)%R) /\
  (forall c, 0 <= c < Clustering.totalClusters example_uniforms ->
     ~ In 0 (accepted example_uniforms
               (Clustering.cluster_bounds example_uniforms c)
               (mkLights 1 [beyond_light]))) /\
  (forall p, ~ In (StoreIndex p 0)
               (LightsTs.dispatch_trace example_uniforms
                  (mkLights 1 [beyond_light]))).
Proof.
  assert (Hfar : (forward_distance example_uniforms
                    (load_light (mkLights 1 [beyond_light]) 0) >
                  far example_uniforms + lightRadius)%R).
  { unfold forward_distance.
    rewrite lightPosView_identity by reflexivity.
    change (load_light (mkLights 1 [beyond_light]) 0) with beyond_light.
    cbn. unfold Camera.farPlane, lightRadius. lra. }
  split.
  - repeat split; try apply example_uniforms_wf; try exact Hfar;
      try exact example_near_far; reflexivity.
  - apply (lights_beyond_far_unassigned example_uniforms
             (mkLights 1 [beyond_light]) 0);
      [exact example_uniforms_wf | exact example_grid_fits
      | exact example_near_far | exact Hfar].
Defined.

(** ** The vertical test *)

Section VerticalTest.
Local Open Scope R_scope.

(** The two vertical boundaries of a cell are one grid step apart,
    [angleDown] above [angleUp]. *)
Lemma vertical_extent (U : ClusteringUniforms) (c : Z) :
  uniforms_wf U -> grid_fits U ->
  (0 <= c < Clustering.totalClusters U)%Z ->
  Clustering.angleDown (Clustering.cluster_bounds U c) -
  Clustering.angleUp (Clustering.cluster_bounds U c) =
  Clustering.fovY / IZR (clustersY U).
Proof.
  intros Hwf Hfit Hc.
  destruct (cluster_coords U c Hwf Hfit Hc) as (_ & [Hy0 Hy1] & _ & _).
  destruct Hwf as (_ & [_ Hcy] & _ & _). unfold U32.modulus in Hcy.
  unfold Clustering.cluster_bounds.
  cbn [Clustering.angleDown Clustering.angleUp].
  unfold F32.of_u32, U32.add, U32.wrap, U32.modulus.
  rewrite Z.mod_small by lia. rewrite plus_IZR.
  assert (0 < IZR (clustersY U)) by (apply IZR_lt; lia).
  field. lra.
Qed.

Lemma fovY_value : Clustering.fovY = 78539815 / 100000000.
Proof. unfold Clustering.fovY. lra. Qed.

(** No cluster of the example grid accepts the light on the view axis at
    depth 400. *)
Lemma axis_light_rejected_everywhere (c : Z) :
  (0 <= c < Clustering.totalClusters example_uniforms)%Z ->
  Clustering.intersects example_uniforms
    (Clustering.cluster_bounds example_uniforms c) axis_light = false.
Proof.
  intros Hc. apply not_true_is_false. intros Hhit.
  apply intersects_needs_cover in Hhit.
  rewrite (vertical_extent _ _ example_uniforms_wf example_grid_fits Hc)
    in Hhit.
  unfold forward_distance in Hhit.
  rewrite lightPosView_identity in Hhit by reflexivity.
  cbn [position axis_light vz] in Hhit.
  replace (- -400) with 400 in Hhit by lra.
  pose proof (halfAngle_far 400 ltac:(lra)) as Hh.
  rewrite fovY_value in Hhit.
  change (clustersY example_uniforms) with 10%Z in Hhit. lra.
Qed.

Lemma axis_light_overlaps_cluster_1255 :
  sphere_overlaps example_uniforms
    (Clustering.cluster_bounds example_uniforms 1255) axis_light.
Proof.
  unfold sphere_overlaps. cbv zeta.
  rewrite lightPosView_identity by reflexivity.
  unfold horizAngle, vertAngle. cbn [position axis_light vx vy vz].
  replace (-400 * -1) with 400 by lra. replace (- -400) with 400 by lra.
  rewrite atan2_axis by lra.
  pose proof (halfAngle_far 400 ltac:(lra)) as Hh.
  example_bounds 5%Z 5%Z 12%Z.
  lra.
Qed.

End VerticalTest.

(** C3, the code at the failing input.  The light on the view axis at
    depth 400 overlaps cluster 1255 of the example grid in depth and in
    both angular ranges (its centre lies in the cell), the cluster's list is
    empty and far from full, yet the invocation of that cluster stores no
    index and a count of zero. *)
Theorem overlapping_light_not_listed :
  sphere_overlaps example_uniforms
    (Clustering.cluster_bounds example_uniforms 1255) axis_light /\
  Clustering.main example_uniforms (mkLights 1 [axis_light]) 1255 =
  [StoreCount 1255 0] /\
  maxLightsPerCluster example_uniforms = 512.
Proof.
  split; [exact axis_light_overlaps_cluster_1255|].
  split; [|reflexivity].
  rewrite main_spec; [| apply example_uniforms_wf | reflexivity].
  rewrite accepted_single_miss; [reflexivity|].
  by apply axis_light_rejected_everywhere.
Qed.

(** ** Capacity overflow *)

Lemma concat_map_nil {A B} (f : A -> list B) (l : list A) :
  (forall x, In x l -> f x = []) -> concat (map f l) = [].
Proof.
  induction l as [|a l IH]; intros H; [reflexivity|].
  cbn [map concat]. rewrite (H a) by (by left).
  apply IH. intros x Hx. apply H. by right.
Qed.

(** The invocations beyond the grid add nothing to the trace. *)
Lemma dispatch_trace_in_range (U : ClusteringUniforms) (L : Lights) :
  uniforms_wf U ->
  LightsTs.dispatch_trace U L =
  concat (map (Clustering.main U L)
            (map Z.of_nat (seq 0 (Z.to_nat (Clustering.totalClusters U))))).
Proof.
  intros Hwf. pose proof (totalClusters_bounds U Hwf) as Htot.
  pose proof (dispatch_covers U) as Hcov.
  unfold LightsTs.dispatch_trace, LightsTs.invocations.
  set (t := Z.to_nat (Clustering.totalClusters U)).
  set (n := Z.to_nat (LightsTs.numWorkgroups U * LightsTs.workgroupSize)).
  replace n with (t + (n - t))%nat by lia.
  rewrite seq_app, !map_app, concat_app.
  rewrite (concat_map_nil _ (map Z.of_nat (seq (0 + t) (n - t)))).
  - apply app_nil_r.
  - intros x Hx. apply in_map_iff in Hx as (k & <- & Hk).
    apply in_seq in Hk. apply main_out_of_range. lia.
Qed.

Section NearLight.
Local Open Scope R_scope.

Lemma near_light_hits_single_cluster :
  Clustering.intersects single_cluster_uniforms
    (Clustering.cluster_bounds single_cluster_uniforms 0) near_light = true.
Proof.
  apply intersects_true_iff. cbv zeta.
  rewrite lightPosView_identity by reflexivity.
  unfold horizAngle, vertAngle. cbn [position near_light vx vy vz].
  replace (-1 * -1) with 1 by lra. replace (- -1) with 1 by lra.
  rewrite halfAngle_close by (unfold lightRadius; lra).
  rewrite atan2_axis by lra.
  pose proof PI2_gt_1 as Hpi.
  example_bounds 0%Z 0%Z 0%Z.
  lra.
Qed.

End NearLight.

(** Capacity, for lights that pass the test of the code.  With room for
    two lights in the one cluster of a 1 x 1 x 1 grid and three lights
    that all pass its test, the dispatch stores lights 0
    and 1 in slots 0 and 1, then the count 2, and nothing else: light 2 is
    dropped without any further store.  The table ends as count [2] and
    list [0; 1]. *)
Theorem third_light_dropped (U : ClusteringUniforms) (L : Lights)
  (T : ClusterTable) :
  uniforms_wf U ->
  clustersX U = 1 -> clustersY U = 1 -> clustersZ U = 1 ->
  maxLightsPerCluster U = 2 ->
  numLights L = 3 ->
  (forall i, 0 <= i < 3 ->
     Clustering.intersects U (Clustering.cluster_bounds U 0) (load_light L i)
     = true) ->
  LightsTs.table_allocated U T ->
  LightsTs.dispatch_trace U L =
    [StoreIndex 0 0; StoreIndex 1 1; StoreCount 0 2] /\
  LightsTs.doLightClustering U L T = mkClusterTable [2] [0; 1].
Proof.
  intros Hwf Hx Hy Hz Hmax Hn Hhit [Hlc Hli].
  assert (Htot : Clustering.totalClusters U = 1).
  { unfold Clustering.totalClusters. by rewrite Hx, Hy, Hz. }
  assert (Htrace : LightsTs.dispatch_trace U L =
                   [StoreIndex 0 0; StoreIndex 1 1; StoreCount 0 2]).
  { rewrite dispatch_trace_in_range by done. rewrite Htot.
    change (Z.to_nat 1) with 1%nat. cbn [seq map concat].
    change (Z.of_nat 0) with 0. rewrite app_nil_r.
    rewrite main_spec by (apply Hwf || lia).
    assert (Hacc : accepted U (Clustering.cluster_bounds U 0) L = [0; 1]).
    { unfold accepted, hit_list. rewrite Hmax, Hn.
      change (Z.to_nat 3) with 3%nat. change (Z.to_nat 2) with 2%nat.
      cbn [seq map List.filter].
      rewrite (Hhit (Z.of_nat 0)), (Hhit (Z.of_nat 1)), (Hhit (Z.of_nat 2))
        by lia.
      reflexivity. }
    rewrite Hacc. unfold index_stores, slot. rewrite Hmax. reflexivity. }
  split; [exact Htrace|].
  unfold LightsTs.doLightClustering. rewrite Htrace.
  unfold LightsTs.numClusters in Hlc, Hli.
  rewrite Hx, Hy, Hz in Hlc, Hli. rewrite Hmax in Hli.
  destruct T as [cs ids]. cbn [counts indices] in Hlc, Hli.
  destruct cs as [|c0 [|? ?]]; try discriminate Hlc.
  destruct ids as [|i0 [|i1 [|? ?]]]; try discriminate Hli.
  reflexivity.
Qed.

Lemma third_light_dropped_witness :
  LightsTs.dispatch_trace single_cluster_uniforms
    (mkLights 3 [near_light; near_light; near_light]) =
    [StoreIndex 0 0; StoreIndex 1 1; StoreCount 0 2] /\
  LightsTs.doLightClustering single_cluster_uniforms
    (mkLights 3 [near_light; near_light; near_light])
    stale_single_table = mkClusterTable [2] [0; 1].
Proof.
  apply (third_light_dropped single_cluster_uniforms
           (mkLights 3 [near_light; near_light; near_light])
           stale_single_table);
    try reflexivity.
  - exact single_cluster_uniforms_wf.
  - intros i Hi.
    assert (Hcases : i = 0 \/ i = 1 \/ i = 2) by lia.
    destruct Hcases as [->|[->| ->]]; exact near_light_hits_single_cluster.
  - split; reflexivity.
Defined.

(** ** The shading loops *)

Section Shading.
Local Open Scope R_scope.

Lemma vec3_add_zero_r (a : vec3) : vec3_add a vec3_zero = a.
Proof.
  destruct a as [x y z]. unfold vec3_add, vec3_zero. cbn.
  f_equal; lra.
Qed.

Lemma contribution_inside (fragPos normal : vec3) (light : Light) :
  length3 (vec3_sub (position light) fragPos) <= lightRadius ->
  contribution fragPos normal light =
  vec3_scale
    (vec3_scale (color light)
       (Rmax (dot normal
                (vec3_div (vec3_sub (position light) fragPos)
                   (length3 (vec3_sub (position light) fragPos)))) 0))
    (1 - length3 (vec3_sub (position light) fragPos) / lightRadius).
Proof.
  intros Hin. unfold contribution. cbv zeta.
  destruct (Rle_dec _ lightRadius); [reflexivity | contradiction].
Qed.

Lemma contribution_outside (fragPos normal : vec3) (light : Light) :
  length3 (vec3_sub (position light) fragPos) > lightRadius ->
  contribution fragPos normal light = vec3_zero.
Proof.
  intros Hout. unfold contribution. cbv zeta.
  destruct (Rle_dec _ lightRadius); [lra | reflexivity].
Qed.

Lemma forward_plus_body (U : ClusteringUniforms) (L : Lights)
  (T : ClusterTable) (c : Z) (fragPos normal : vec3) (i : Z) (acc : vec3) :
  ForwardPlus.shade_body U L T c fragPos normal i acc =
  vec3_add acc
    (contribution fragPos normal
       (load_light L
          (load_u32 (indices T)
             (U32.add (U32.mul c (maxLightsPerCluster U)) i)))).
Proof.
  unfold ForwardPlus.shade_body, contribution, F32.leb, F32.max. cbv zeta.
  destruct (Rle_dec _ lightRadius); [reflexivity|].
  symmetry. apply vec3_add_zero_r.
Qed.

Lemma deferred_body (U : ClusteringUniforms) (L : Lights)
  (T : ClusterTable) (c : Z) (fragPos normal : vec3) (i : Z) (acc : vec3) :
  ClusteredDeferred.shade_body U L T c fragPos normal i acc =
  vec3_add acc
    (contribution fragPos normal
       (load_light L
          (load_u32 (indices T)
             (U32.add (U32.mul c (maxLightsPerCluster U)) i)))).
Proof.
  unfold ClusteredDeferred.shade_body, contribution, F32.leb, F32.max.
  cbv zeta.
  destruct (Rle_dec _ lightRadius); [reflexivity|].
  symmetry. apply vec3_add_zero_r.
Qed.

(** A loop whose body adds the contribution of entry [i] computes the
    sum over the cluster's entries. *)
Lemma shading_loop_sum (U : ClusteringUniforms) (L : Lights)
  (T : ClusterTable) (c : Z) (fragPos normal : vec3)
  (body : Z -> vec3 -> vec3) :
  (forall i acc,
     body i acc =
     vec3_add acc
       (contribution fragPos normal
          (load_light L
             (load_u32 (indices T)
                (U32.add (U32.mul c (maxLightsPerCluster U)) i))))) ->
  for_loop (load_u32 (counts T) c) body 0 vec3_zero =
  summed_lighting fragPos normal L (cluster_entries U T c).
Proof.
  intros Hbody. rewrite for_loop_fold.
  unfold summed_lighting, cluster_entries.
  generalize vec3_zero.
  induction (seq 0 (Z.to_nat (load_u32 (counts T) c))) as [|k ks IH];
    intros acc; [reflexivity|].
  cbn [map fold_left]. rewrite Hbody. apply IH.
Qed.

Lemma forward_plus_main_sum (diffuse : vec2 -> vec3)
  (U : ClusteringUniforms) (L : Lights) (T : ClusterTable)
  (input : ForwardPlus.FragmentInput) :
  ForwardPlus.main diffuse U L T input =
  vec4_of
    (vec3_mul (diffuse (ForwardPlus.uv input))
       (summed_lighting (xyz (ForwardPlus.worldPos input))
          (normalize (xyz (ForwardPlus.worldNormal input))) L
          (cluster_entries U T (ForwardPlus.clusterIndex U input)))) 1.
Proof.
  unfold ForwardPlus.main. cbv zeta. f_equal. f_equal.
  apply shading_loop_sum. intros i acc. apply forward_plus_body.
Qed.

Lemma deferred_main_sum (U : ClusteringUniforms) (L : Lights)
  (T : ClusterTable) (G : ClusteredDeferred.GBuffer)
  (dinput : ClusteredDeferred.FragmentInput) :
  let px := F32.to_i32 (wx (ClusteredDeferred.fragCoord dinput)) in
  let py := F32.to_i32 (wy (ClusteredDeferred.fragCoord dinput)) in
  let dpos := xyz (ClusteredDeferred.gPositionTex G px py) in
  let dnormal := normalize (xyz (ClusteredDeferred.gNormalTex G px py)) in
  ClusteredDeferred.main U L T G dinput =
  vec4_of
    (vec3_mul (xyz (ClusteredDeferred.gAlbedoTex G px py))
       (summed_lighting dpos dnormal L
          (cluster_entries U T (ClusteredDeferred.clusterIndex U dinput dpos))))
    1.
Proof.
  cbv zeta. unfold ClusteredDeferred.main. cbv zeta. f_equal. f_equal.
  apply shading_loop_sum. intros i acc. apply deferred_body.
Qed.

End Shading.

(** C8.  Both shading entry points read [counts] at the fragment's
    cluster index, visit exactly that many entries of [indices], add for
    each the contribution of the light it names ([contribution]: colour
    times Lambert term times [1 - dist / lightRadius] within the radius,
    zero beyond it), and output the albedo times that sum. *)
Theorem shading_sums_cluster_lights (diffuse : vec2 -> vec3)
  (U : ClusteringUniforms) (L : Lights) (T : ClusterTable)
  (G : ClusteredDeferred.GBuffer)
  (input : ForwardPlus.FragmentInput)
  (dinput : ClusteredDeferred.FragmentInput) :
  let c := ForwardPlus.clusterIndex U input in
  let fragPos := xyz (ForwardPlus.worldPos input) in
  let normal := normalize (xyz (ForwardPlus.worldNormal input)) in
  let px := F32.to_i32 (wx (ClusteredDeferred.fragCoord dinput)) in
  let py := F32.to_i32 (wy (ClusteredDeferred.fragCoord dinput)) in
  let dpos := xyz (ClusteredDeferred.gPositionTex G px py) in
  let dnormal := normalize (xyz (ClusteredDeferred.gNormalTex G px py)) in
  let dc := ClusteredDeferred.clusterIndex U dinput dpos in
  length (cluster_entries U T c) = Z.to_nat (load_u32 (counts T) c) /\
  ForwardPlus.main diffuse U L T input =
    vec4_of
      (vec3_mul (diffuse (ForwardPlus.uv input))
         (summed_lighting fragPos normal L (cluster_entries U T c))) 1 /\
  length (cluster_entries U T dc) = Z.to_nat (load_u32 (counts T) dc) /\
  ClusteredDeferred.main U L T G dinput =
    vec4_of
      (vec3_mul (xyz (ClusteredDeferred.gAlbedoTex G px py))
         (summed_lighting dpos dnormal L (cluster_entries U T dc))) 1.
Proof.
  cbv zeta. repeat split.
  - unfold cluster_entries. by rewrite length_map, length_seq.
  - apply forward_plus_main_sum.
  - unfold cluster_entries. by rewrite length_map, length_seq.
  - apply deferred_main_sum.
Qed.

(** ** Grid self-consistency *)

Section GridConsistency.
Local Open Scope R_scope.

(** [u32(clamp(floor(r), 0.0, f32(n) - 1.0))] for [r] in the unit
    interval starting at [z < n]. *)
Lemma clamped_floor_index (r : R) (n z : Z) :
  U32.in_range n -> (0 <= z < n)%Z ->
  IZR z <= r < IZR z + 1 ->
  F32.to_u32 (F32.clamp (F32.floor r) 0 (F32.of_u32 n - 1)) = z.
Proof.
  intros [Hn0 Hn1] Hz Hr. unfold U32.modulus in Hn1.
  unfold F32.floor. rewrite (Int_part_between r z Hr).
  assert (H0 : 0 <= IZR z) by (apply IZR_le; lia).
  assert (H1 : IZR z <= IZR n - 1).
  { rewrite <- minus_IZR. apply IZR_le. lia. }
  unfold F32.clamp, F32.min, F32.max, F32.of_u32.
  rewrite Rmax_left, Rmin_left by lra.
  unfold F32.to_u32, F32.trunc.
  destruct (Rlt_dec (IZR z) 0) as [Hneg|_]; [lra|].
  rewrite (Int_part_between (IZR z) z) by lra.
  unfold U32.modulus. lia.
Qed.

(** A coordinate inside pixel tile [k] of [n] equal tiles over an extent
    [w] divides to a number in [[k, k + 1)]. *)
Lemma tile_quotient (coord w : R) (n k : Z) :
  0 < w -> (0 < n)%Z ->
  IZR k * (w / IZR n) <= coord < (IZR k + 1) * (w / IZR n) ->
  IZR k <= coord / (w / IZR n) < IZR k + 1.
Proof.
  intros Hw Hn Hc.
  assert (Hn' : 0 < IZR n) by (apply IZR_lt; lia).
  assert (Ht : 0 < w / IZR n) by (apply Rdiv_lt_0_compat; lra).
  split.
  - apply (Rmult_le_reg_r (w / IZR n)); [done|].
    unfold Rdiv at 2. rewrite Rmult_assoc, Rinv_l by lra. lra.
  - apply (Rmult_lt_reg_r (w / IZR n)); [done|].
    unfold Rdiv at 1. rewrite Rmult_assoc, Rinv_l by lra. lra.
Qed.

(** A depth inside slice [k] of the assignment side scales to a number
    in [[k, k + 1)]. *)
Lemma slice_quotient (U : ClusteringUniforms) (d : R) (k : Z) :
  near U < far U -> (0 < clustersZ U)%Z ->
  near U + Clustering.zSliceDepth U * IZR k <= d
    < near U + Clustering.zSliceDepth U * IZR (k + 1) ->
  IZR k <= (d - near U) / (far U - near U) * IZR (clustersZ U) < IZR k + 1.
Proof.
  intros Hnf Hcz. rewrite plus_IZR. unfold Clustering.zSliceDepth, F32.of_u32.
  set (n := IZR (clustersZ U)). set (s := far U - near U).
  assert (Hn : 0 < n) by (apply IZR_lt; lia).
  assert (Hs : 0 < s) by (unfold s; lra).
  intros [Hlo Hhi].
  assert (Heq : forall q, s / n * q / s * n = q) by (intros q; field; lra).
  replace ((d - near U) / s * n) with ((d - near U) * (n / s))
    by (field; lra).
  assert (Hr : 0 < n / s) by (apply Rdiv_lt_0_compat; lra).
  assert (Hq : forall q, s / n * q * (n / s) = q) by (intros q; field; lra).
  split.
  - rewrite <- (Hq (IZR k)). apply Rmult_le_compat_r; lra.
  - rewrite <- (Hq (IZR k + 1)). apply Rmult_lt_compat_r; lra.
Qed.

Lemma flat_index_no_wrap (U : ClusteringUniforms) (x y z : Z) :
  uniforms_wf U -> grid_fits U ->
  (0 <= x < clustersX U)%Z -> (0 <= y < clustersY U)%Z ->
  (0 <= z < clustersZ U)%Z ->
  U32.add (U32.add x (U32.mul y (clustersX U)))
    (U32.mul (U32.mul z (clustersX U)) (clustersY U)) = flat_index U x y z.
Proof.
  intros Hwf Hfit Hx Hy Hz. unfold grid_fits, LightsTs.numClusters in Hfit.
  unfold flat_index, U32.add, U32.mul, U32.wrap, U32.modulus in *.
  set (cx := clustersX U) in *. set (cy := clustersY U) in *.
  set (cz := clustersZ U) in *.
  assert (Hxy : (0 <= x + y * cx < cx * cy)%Z) by nia.
  assert (Hxyz : (cx * cy * (z + 1) <= cx * cy * cz)%Z)
    by (apply Z.mul_le_mono_nonneg_l; nia).
  assert (Hzx0 : (0 <= z * cx)%Z) by nia.
  assert (Hzx : (z * cx * 1 <= z * cx * cy)%Z)
    by (apply Z.mul_le_mono_nonneg_l; lia).
  assert (0 <= y * cx < 2 ^ 32)%Z by nia.
  assert (0 <= z * cx * cy < 2 ^ 32)%Z by nia.
  assert (0 <= z * cx < 2 ^ 32)%Z by lia.
  assert (0 <= x + y * cx < 2 ^ 32)%Z by nia.
  assert (0 <= x + y * cx + z * cx * cy < 2 ^ 32)%Z by nia.
  rewrite (Z.mod_small (y * cx)) by lia.
  rewrite (Z.mod_small (z * cx)) by lia.
  rewrite (Z.mod_small (z * cx * cy)) by lia.
  rewrite (Z.mod_small (x + y * cx)) by lia.
  apply Z.mod_small. lia.
Qed.

End GridConsistency.

(** The index arithmetic of the Forward+ shader.  For every cell
    [(x, y, z)] of the grid: a fragment whose pixel lies in pixel tile
    [(x, y)] and whose depth, as the shader resolves it from
    [fragCoord.z], lies in the depth slice the assignment side builds for
    the cell's flat index is
    sent by the shading side to that flat index
    [x + y * clustersX + z * clustersX * clustersY], and the assignment
    side's div/mod decomposition of that index gives [(x, y, z)] back. *)
Theorem grid_self_consistent (U : ClusteringUniforms)
  (input : ForwardPlus.FragmentInput) (x y z : Z) :
  uniforms_wf U -> grid_fits U ->
  (0 < screenWidth U)%R -> (0 < screenHeight U)%R -> (near U < far U)%R ->
  0 <= x < clustersX U -> 0 <= y < clustersY U -> 0 <= z < clustersZ U ->
  (IZR x * (screenWidth U / IZR (clustersX U))
   <= wx (ForwardPlus.fragCoord input)
   < (IZR x + 1) * (screenWidth U / IZR (clustersX U)))%R ->
  (IZR y * (screenHeight U / IZR (clustersY U))
   <= wy (ForwardPlus.fragCoord input)
   < (IZR y + 1) * (screenHeight U / IZR (clustersY U)))%R ->
  (Clustering.zNear (Clustering.cluster_bounds U (flat_index U x y z))
   <= ForwardPlus.viewDepth U input
   < Clustering.zFar (Clustering.cluster_bounds U (flat_index U x y z)))%R ->
  ForwardPlus.clusterIndex U input = flat_index U x y z /\
  0 <= flat_index U x y z < Clustering.totalClusters U /\
  Clustering.clusterX U (flat_index U x y z) = x /\
  Clustering.clusterY U (flat_index U x y z) = y /\
  Clustering.clusterZ U (flat_index U x y z) = z.
Proof.
  intros Hwf Hfit HW HH Hnf Hx Hy Hz Hpx Hpy Hd.
  destruct (decompose_flat_index U x y z Hwf Hfit Hx Hy Hz)
    as (Hrange & HX & HY & HZ).
  split; [|by repeat split; try apply Hrange].
  pose proof Hwf as (Hcx & Hcy & Hcz & _).
  unfold ForwardPlus.clusterIndex.
  assert (Hxi : ForwardPlus.clusterXIndex U input = x).
  { unfold ForwardPlus.clusterXIndex. apply clamped_floor_index; [done..|].
    apply tile_quotient; [done | lia | done]. }
  assert (Hyi : ForwardPlus.clusterYIndex U input = y).
  { unfold ForwardPlus.clusterYIndex. apply clamped_floor_index; [done..|].
    apply tile_quotient; [done | lia | done]. }
  assert (Hzi : ForwardPlus.clusterZIndex U input = z).
  { unfold ForwardPlus.clusterZIndex. apply clamped_floor_index; [done..|].
    apply slice_quotient; [done | lia |].
    unfold Clustering.cluster_bounds in Hd.
    cbn [Clustering.zNear Clustering.zFar] in Hd.
    rewrite HZ in Hd. unfold F32.of_u32, U32.add, U32.wrap in Hd.
    destruct Hcz as [_ Hcz]. rewrite Z.mod_small in Hd by lia. exact Hd. }
  rewrite Hxi, Hyi, Hzi. by apply flat_index_no_wrap.
Qed.

Section TileVersusWedge.
Local Open Scope R_scope.

Lemma example_fragment_viewPos :
  ForwardPlus.viewPos example_uniforms example_fragment =
  mkVec3 (16195750587 / 500050000000) (41421357 / 5000500000)
         (- (10000 / 50005)).
Proof.
  unfold ForwardPlus.viewPos, ForwardPlus.ndcPos, mat4_mul_vec4, vec3_div,
    xyz.
  cbn. f_equal; field.
Qed.

Lemma example_fragment_viewDepth :
  ForwardPlus.viewDepth example_uniforms example_fragment = 10000 / 50005.
Proof.
  unfold ForwardPlus.viewDepth. rewrite example_fragment_viewPos. cbn. lra.
Qed.

Lemma example_fragment_in_cell_57 :
  in_cell example_uniforms 57
    (ForwardPlus.viewPos example_uniforms example_fragment).
Proof.
  rewrite example_fragment_viewPos.
  unfold in_cell, horizAngle, vertAngle. cbv zeta. cbn [vx vy vz].
  rewrite !atan2_front by lra.
  replace (16195750587 / 500050000000 / (- (10000 / 50005) * -1))
    with (16195750587 / 100000000000) by field.
  replace (41421357 / 5000500000 / (- (10000 / 50005) * -1))
    with (41421357 / 1000000000) by field.
  pose proof (atan_lower (16195750587 / 100000000000) ltac:(lra)) as Hlo.
  pose proof (atan_le_id (16195750587 / 100000000000) ltac:(lra)) as Hhi.
  pose proof (atan_nonneg (41421357 / 1000000000) ltac:(lra)) as Hvlo.
  pose proof (atan_le_id (41421357 / 1000000000) ltac:(lra)) as Hvhi.
  example_bounds 7%Z 5%Z 0%Z.
  repeat split; lra.
Qed.

Lemma example_fragment_cluster_56 :
  ForwardPlus.clusterIndex example_uniforms example_fragment = 56%Z.
Proof.
  assert (Hwf := example_uniforms_wf).
  destruct Hwf as (Hcx & Hcy & Hcz & _).
  unfold ForwardPlus.clusterIndex.
  assert (Hx : ForwardPlus.clusterXIndex example_uniforms example_fragment
               = 6%Z).
  { unfold ForwardPlus.clusterXIndex.
    apply clamped_floor_index; [done | done |].
    change (clustersX example_uniforms) with 10%Z.
    apply tile_quotient; [cbn; lra | done | cbn; lra]. }
  assert (Hy : ForwardPlus.clusterYIndex example_uniforms example_fragment
               = 5%Z).
  { unfold ForwardPlus.clusterYIndex.
    apply clamped_floor_index; [done | done |].
    change (clustersY example_uniforms) with 10%Z.
    apply tile_quotient; [cbn; lra | done | cbn; lra]. }
  assert (Hz : ForwardPlus.clusterZIndex example_uniforms example_fragment
               = 0%Z).
  { unfold ForwardPlus.clusterZIndex.
    apply clamped_floor_index; [done | done |].
    rewrite example_fragment_viewDepth.
    apply slice_quotient;
      [cbn; unfold Camera.nearPlane, Camera.farPlane; lra | done |].
    unfold Clustering.zSliceDepth, F32.of_u32.
    change (clustersZ example_uniforms) with 32%Z. cbn.
    change (IZR (0 + 1)) with 1.
    unfold Camera.nearPlane, Camera.farPlane. lra. }
  rewrite Hx, Hy, Hz. reflexivity.
Qed.

End TileVersusWedge.

(** Tiles against wedges.  The view-space point the Forward+ shader
    reconstructs for a fragment lies inside
    the cell the assignment side builds for flat index 57 (between its
    boundary angles and inside its depth slice), while the shading side
    sends the fragment to flat index 56. *)
Lemma cell_point_in_neighbouring_tile :
  in_cell example_uniforms 57
    (ForwardPlus.viewPos example_uniforms example_fragment) /\
  ForwardPlus.clusterIndex example_uniforms example_fragment = 56.
Proof.
  split; [exact example_fragment_in_cell_57 | exact example_fragment_cluster_56].
Qed.

Lemma grid_self_consistent_witness :
  ForwardPlus.clusterIndex example_uniforms example_fragment =
    flat_index example_uniforms 6 5 0 /\
  0 <= flat_index example_uniforms 6 5 0
    < Clustering.totalClusters example_uniforms /\
  Clustering.clusterX example_uniforms (flat_index example_uniforms 6 5 0) = 6 /\
  Clustering.clusterY example_uniforms (flat_index example_uniforms 6 5 0) = 5 /\
  Clustering.clusterZ example_uniforms (flat_index example_uniforms 6 5 0) = 0.
Proof.
  apply (grid_self_consistent example_uniforms example_fragment 6 5 0).
  - exact example_uniforms_wf.
  - exact example_grid_fits.
  - cbn. lra.
  - cbn. lra.
  - cbn. unfold Camera.nearPlane, Camera.farPlane. lra.
  - split; [discriminate | reflexivity].
  - split; [discriminate | reflexivity].
  - split; [discriminate | reflexivity].
  - change (clustersX example_uniforms) with 10. cbn. lra.
  - change (clustersY example_uniforms) with 10. cbn. lra.
  - rewrite example_fragment_viewDepth.
    change (flat_index example_uniforms 6 5 0) with 56.
    example_bounds 6 5 0. lra.
Defined.

(** X28.  The deferred resolve derives the same flat index from the pixel tile
    and the depth slice of the stored position. *)
Lemma grid_self_consistent_deferred (U : ClusteringUniforms)
  (dinput : ClusteredDeferred.FragmentInput) (fragPos : vec3) (x y z : Z) :
  uniforms_wf U -> grid_fits U ->
  (0 < screenWidth U)%R -> (0 < screenHeight U)%R -> (near U < far U)%R ->
  0 <= x < clustersX U -> 0 <= y < clustersY U -> 0 <= z < clustersZ U ->
  (IZR x * (screenWidth U / IZR (clustersX U))
   <= wx (ClusteredDeferred.fragCoord dinput)
   < (IZR x + 1) * (screenWidth U / IZR (clustersX U)))%R ->
  (IZR y * (screenHeight U / IZR (clustersY U))
   <= wy (ClusteredDeferred.fragCoord dinput)
   < (IZR y + 1) * (screenHeight U / IZR (clustersY U)))%R ->
  (Clustering.zNear (Clustering.cluster_bounds U (flat_index U x y z))
   <= ClusteredDeferred.viewDepth U fragPos
   < Clustering.zFar (Clustering.cluster_bounds U (flat_index U x y z)))%R ->
  ClusteredDeferred.clusterIndex U dinput fragPos = flat_index U x y z.
Proof.
  intros Hwf Hfit HW HH Hnf Hx Hy Hz Hpx Hpy Hd.
  destruct (decompose_flat_index U x y z Hwf Hfit Hx Hy Hz)
    as (_ & _ & _ & HZ).
  pose proof Hwf as (Hcx & Hcy & Hcz & _).
  unfold ClusteredDeferred.clusterIndex.
  assert (Hxi : ClusteredDeferred.clusterX U dinput = x).
  { unfold ClusteredDeferred.clusterX. apply clamped_floor_index; [done..|].
    apply tile_quotient; [done | lia | done]. }
  assert (Hyi : ClusteredDeferred.clusterY U dinput = y).
  { unfold ClusteredDeferred.clusterY. apply clamped_floor_index; [done..|].
    apply tile_quotient; [done | lia | done]. }
  assert (Hzi : ClusteredDeferred.clusterZ U fragPos = z).
  { unfold ClusteredDeferred.clusterZ. apply clamped_floor_index; [done..|].
    apply slice_quotient; [done | lia |].
    unfold Clustering.cluster_bounds in Hd.
    cbn [Clustering.zNear Clustering.zFar] in Hd.
    rewrite HZ in Hd. unfold F32.of_u32, U32.add, U32.wrap in Hd.
    destruct Hcz as [_ Hcz]. rewrite Z.mod_small in Hd by lia. exact Hd. }
  rewrite Hxi, Hyi, Hzi. by apply flat_index_no_wrap.
Qed.

(** ** The light count *)

(** C9, counterexample.  Setting the active light count to 6000, above the
    capacity of 5000, and uploading it puts 6000 into the light buffer:
    that is the [numLights] the shaders then read. *)
Lemma oversized_count_is_uploaded :
  LightsTs.maxNumLights <
  numLights (LightsTs.lightData
               (LightsTs.set_numLights 6000 initial_lights_state) []).
Proof. reflexivity. Qed.

(** C9 (amended).  [updateLightSetUniformNumLights] uploads the value of
    the field [numLights] as it is, converted to [u32], without comparing
    it with [maxNumLights]; when the caller assigns a count between zero
    and the capacity, that count is what the shaders read, and it is within
    the capacity. *)
Theorem count_uploaded_as_set (n : Z) (s : LightsTs.State) (arr : list Light) :
  0 <= n <= LightsTs.maxNumLights ->
  numLights (LightsTs.lightData (LightsTs.set_numLights n s) arr) = n /\
  numLights (LightsTs.lightData (LightsTs.set_numLights n s) arr)
    <= LightsTs.maxNumLights.
Proof.
  intros Hn. unfold LightsTs.maxNumLights in *.
  assert (Heq : numLights (LightsTs.lightData (LightsTs.set_numLights n s) arr)
                = n).
  { cbn. unfold U32.wrap, U32.modulus. apply Z.mod_small. lia. }
  rewrite Heq. split; [reflexivity | lia].
Qed.

Lemma count_uploaded_as_set_witness :
  0 <= 300 <= LightsTs.maxNumLights /\
  numLights (LightsTs.lightData
               (LightsTs.set_numLights 300 initial_lights_state) []) = 300 /\
  numLights (LightsTs.lightData
               (LightsTs.set_numLights 300 initial_lights_state) [])
    <= LightsTs.maxNumLights.
Proof.
  assert (H : 0 <= 300 <= LightsTs.maxNumLights)
    by (unfold LightsTs.maxNumLights; lia).
  split; [exact H|].
  exact (count_uploaded_as_set 300 initial_lights_state [] H).
Defined.

(** ** The lists a dispatch leaves in the table *)

Lemma slot_exact (U : ClusteringUniforms) (c : Z) (k : nat) :
  uniforms_wf U -> slots_fit U ->
  0 <= c < Clustering.totalClusters U ->
  Z.of_nat k < maxLightsPerCluster U ->
  slot U c k = c * maxLightsPerCluster U + Z.of_nat k.
Proof.
  intros Hwf Hfit Hc Hk.
  pose proof (totalClusters_bounds U Hwf) as Htot.
  destruct Hwf as (_ & _ & _ & [Hm0 Hm1]).
  unfold slots_fit in Hfit.
  unfold slot, U32.add, U32.mul, U32.wrap. rewrite Zplus_mod_idemp_l.
  unfold U32.modulus in *. apply Z.mod_small.
  assert ((c + 1) * maxLightsPerCluster U
          <= LightsTs.numClusters U * maxLightsPerCluster U)
    by (apply Z.mul_le_mono_nonneg_r; lia).
  assert (0 <= c * maxLightsPerCluster U) by (apply Z.mul_nonneg_nonneg; lia).
  lia.
Qed.

(** Slot [k] of cluster [c] holds, after the dispatch, the [k]-th light
    the cluster kept. *)
Lemma indices_after_dispatch (U : ClusteringUniforms) (L : Lights)
  (T : ClusterTable) (c : Z) (k : nat) (l : Z) :
  uniforms_wf U -> slots_fit U ->
  LightsTs.table_allocated U T ->
  0 <= c < Clustering.totalClusters U ->
  accepted U (Clustering.cluster_bounds U c) L !! k = Some l ->
  indices (LightsTs.doLightClustering U L T)
    !! Z.to_nat (c * maxLightsPerCluster U + Z.of_nat k) = Some l.
Proof.
  intros Hwf Hfit [_ Hlen] Hc Hk.
  pose proof (totalClusters_bounds U Hwf) as Htot.
  pose proof Hwf as (_ & _ & _ & Hm).
  assert (Hkm : Z.of_nat k < maxLightsPerCluster U).
  { apply lookup_lt_Some in Hk.
    pose proof (length_accepted U (Clustering.cluster_bounds U c) L Hm). lia. }
  pose proof (slot_exact U c k Hwf Hfit Hc Hkm) as Hslot.
  pose proof (slot_in_table U c k Hwf Hc Hkm) as Hin.
  rewrite <- Hslot.
  unfold LightsTs.doLightClustering. rewrite exec_replay. cbn [indices].
  rewrite lookup_replay. rewrite (last_write_determined _ _ l).
  - destruct (decide (Z.to_nat (slot U c k) < length (indices T))%nat);
      [done | lia].
  - apply In_index_writes. exists (slot U c k). split; [|done].
    apply in_dispatch_trace. exists c. split.
    + apply in_invocations. pose proof (dispatch_covers U). lia.
    + rewrite main_spec by (done || lia). apply in_or_app. left.
      apply in_index_stores. eauto.
  - intros v' Hv'. apply In_index_writes in Hv' as (q & Hq & Heq).
    apply in_dispatch_trace in Hq as (t & Ht & Hq).
    apply in_invocations in Ht.
    apply in_main in Hq as [Hlt [(k' & l' & Hk' & [= -> ->])|[=]]]; [|done].
    assert (Hk'm : Z.of_nat k' < maxLightsPerCluster U).
    { apply lookup_lt_Some in Hk'.
      pose proof (length_accepted U (Clustering.cluster_bounds U t) L Hm). lia. }
    rewrite (slot_exact U t k'), Hslot in Heq by (done || lia).
    assert (0 <= t * maxLightsPerCluster U) by (apply Z.mul_nonneg_nonneg; lia).
    assert (0 <= c * maxLightsPerCluster U) by (apply Z.mul_nonneg_nonneg; lia).
    assert (Hsame : t * maxLightsPerCluster U + Z.of_nat k'
                    = c * maxLightsPerCluster U + Z.of_nat k) by lia.
    assert (Htc : t = c).
    { apply (f_equal (fun z => z / maxLightsPerCluster U)) in Hsame.
      rewrite !Z.div_add_l, !Z.div_small in Hsame by lia. lia. }
    subst t. assert (k' = k) by lia. congruence.
Qed.

Section Soundness.
Local Open Scope R_scope.

(** A light the shader's test accepts overlaps the cell in depth and in
    both angular ranges. *)
Lemma intersects_sound (U : ClusteringUniforms) (c : Z) (light : Light) :
  uniforms_wf U -> grid_fits U ->
  (0 <= c < Clustering.totalClusters U)%Z ->
  Clustering.intersects U (Clustering.cluster_bounds U c) light = true ->
  sphere_overlaps U (Clustering.cluster_bounds U c) light.
Proof.
  intros Hwf Hfit Hc Hhit.
  pose proof (vertical_extent U c Hwf Hfit Hc) as Hext.
  destruct (cluster_coords U c Hwf Hfit Hc) as (_ & [Hy0 Hy1] & _ & _).
  assert (Hcy : 0 < IZR (clustersY U)) by (apply IZR_lt; lia).
  assert (Hstep : 0 < Clustering.fovY / IZR (clustersY U)).
  { apply Rdiv_lt_0_compat; [rewrite fovY_value; lra | done]. }
  apply intersects_true_iff in Hhit. unfold sphere_overlaps.
  cbv zeta in *. lra.
Qed.

End Soundness.

(** X25.  Every valid entry of the table names an active light that passed the
    test of its cluster: for [k < counts[c]], the entry
    [indices[c * maxLightsPerCluster + k]] is a light index below
    [numLights] whose sphere overlaps the cluster's depth and angular
    ranges. *)
Lemma listed_lights_valid (U : ClusteringUniforms) (L : Lights)
  (T : ClusterTable) (c : Z) (k : nat) :
  uniforms_wf U -> grid_fits U -> slots_fit U ->
  LightsTs.table_allocated U T ->
  0 <= c < Clustering.totalClusters U ->
  Z.of_nat k < load_u32 (counts (LightsTs.doLightClustering U L T)) c ->
  exists l,
    indices (LightsTs.doLightClustering U L T)
      !! Z.to_nat (c * maxLightsPerCluster U + Z.of_nat k) = Some l /\
    0 <= l < numLights L /\
    sphere_overlaps U (Clustering.cluster_bounds U c) (load_light L l).
Proof.
  intros Hwf Hgrid Hfit Halloc Hc Hk.
  unfold load_u32 in Hk. rewrite counts_after_dispatch in Hk by done.
  cbn in Hk.
  destruct (accepted U (Clustering.cluster_bounds U c) L !! k) as [l|] eqn:Hl.
  - exists l. split; [by apply indices_after_dispatch|].
    apply list_elem_of_lookup_2, list_elem_of_In, in_accepted in Hl
      as [Hrange Hhit].
    split; [done|]. by apply intersects_sound.
  - apply lookup_ge_None in Hl. exfalso. lia.
Qed.

(** ** The order of the invocations does not matter *)

Lemma last_write_functional (ws : list (nat * Z)) (p : nat) (v : Z) :
  (forall q u u', In (q, u) ws -> In (q, u') ws -> u = u') ->
  last_write ws p = Some v <-> In (p, v) ws.
Proof.
  intros Hfun. split; [apply last_write_In|].
  intros Hin. apply last_write_determined; [done|].
  intros v' Hv'. by apply (Hfun p).
Qed.

Lemma last_write_none (ws : list (nat * Z)) (p : nat) :
  last_write ws p = None -> forall v, ~ In (p, v) ws.
Proof.
  induction ws as [|[q u] ws IH]; cbn [last_write fst snd].
  { intros _ v []. }
  destruct (last_write ws p); [discriminate|].
  destruct (Nat.eqb_spec q p) as [->|Hne]; [discriminate|].
  intros _ v [[= Hq _]|Hin]; [done | by apply (IH eq_refl v)].
Qed.

(** Two lists of writes that make the same writes, each position written
    with one value only, leave the same buffer. *)
Lemma replay_same_writes (buf : list Z) (ws ws' : list (nat * Z)) :
  (forall q u u', In (q, u) ws -> In (q, u') ws -> u = u') ->
  (forall w, In w ws <-> In w ws') ->
  replay buf ws = replay buf ws'.
Proof.
  intros Hfun Hsame.
  assert (Hfun' : forall q u u', In (q, u) ws' -> In (q, u') ws' -> u = u').
  { intros q u u' H1 H2. apply (Hfun q); by apply Hsame. }
  apply list_eq. intros p. rewrite !lookup_replay.
  destruct (last_write ws p) as [v|] eqn:H1.
  - apply (last_write_functional ws p v Hfun), Hsame in H1.
    apply (last_write_functional ws' p v Hfun') in H1. by rewrite H1.
  - destruct (last_write ws' p) as [v'|] eqn:H2; [|done].
    apply last_write_In, Hsame in H2.
    by apply (last_write_none ws p H1) in H2.
Qed.

Lemma in_trace_of (U : ClusteringUniforms) (L : Lights) (ids : list Z)
  (s : Store) :
  In s (concat (map (Clustering.main U L) ids)) <->
  exists t, In t ids /\ In s (Clustering.main U L t).
Proof.
  rewrite in_concat. split.
  - intros (tr & Htr & Hs). apply in_map_iff in Htr as (t & <- & Ht). eauto.
  - intros (t & Ht & Hs). exists (Clustering.main U L t).
    split; [by apply in_map | done].
Qed.

Lemma count_writes_functional (U : ClusteringUniforms) (L : Lights)
  (ids : list Z) :
  uniforms_wf U -> (forall t, In t ids -> 0 <= t) ->
  forall q u u',
    In (q, u) (count_writes (concat (map (Clustering.main U L) ids))) ->
    In (q, u') (count_writes (concat (map (Clustering.main U L) ids))) ->
    u = u'.
Proof.
  intros Hwf Hnn q u u' H1 H2. pose proof Hwf as (_ & _ & _ & Hm).
  apply In_count_writes in H1 as (p1 & H1 & E1).
  apply In_count_writes in H2 as (p2 & H2 & E2).
  apply in_trace_of in H1 as (t1 & Ht1 & H1).
  apply in_trace_of in H2 as (t2 & Ht2 & H2).
  apply Hnn in Ht1, Ht2.
  apply in_main in H1 as [_ [(? & ? & _ & [=])|[= -> ->]]]; [|done].
  apply in_main in H2 as [_ [(? & ? & _ & [=])|[= -> ->]]]; [|done].
  by replace t2 with t1 by lia.
Qed.

Lemma index_writes_functional (U : ClusteringUniforms) (L : Lights)
  (ids : list Z) :
  uniforms_wf U -> slots_fit U -> (forall t, In t ids -> 0 <= t) ->
  forall q u u',
    In (q, u) (index_writes (concat (map (Clustering.main U L) ids))) ->
    In (q, u') (index_writes (concat (map (Clustering.main U L) ids))) ->
    u = u'.
Proof.
  intros Hwf Hfit Hnn q u u' H1 H2. pose proof Hwf as (_ & _ & _ & Hm).
  apply In_index_writes in H1 as (p1 & H1 & E1).
  apply In_index_writes in H2 as (p2 & H2 & E2).
  apply in_trace_of in H1 as (t1 & Ht1 & H1).
  apply in_trace_of in H2 as (t2 & Ht2 & H2).
  apply Hnn in Ht1, Ht2.
  apply in_main in H1 as [Hlt1 [(k1 & l1 & Hk1 & [= -> ->])|[=]]]; [|done].
  apply in_main in H2 as [Hlt2 [(k2 & l2 & Hk2 & [= -> ->])|[=]]]; [|done].
  assert (Hb1 : Z.of_nat k1 < maxLightsPerCluster U).
  { apply lookup_lt_Some in Hk1.
    pose proof (length_accepted U (Clustering.cluster_bounds U t1) L Hm). lia. }
  assert (Hb2 : Z.of_nat k2 < maxLightsPerCluster U).
  { apply lookup_lt_Some in Hk2.
    pose proof (length_accepted U (Clustering.cluster_bounds U t2) L Hm). lia. }
  rewrite (slot_exact U t1 k1) in E1 by (done || lia).
  rewrite (slot_exact U t2 k2) in E2 by (done || lia).
  assert (0 <= t1 * maxLightsPerCluster U) by (apply Z.mul_nonneg_nonneg; lia).
  assert (0 <= t2 * maxLightsPerCluster U) by (apply Z.mul_nonneg_nonneg; lia).
  assert (Hsame : t1 * maxLightsPerCluster U + Z.of_nat k1
                  = t2 * maxLightsPerCluster U + Z.of_nat k2) by lia.
  assert (Ht : t1 = t2).
  { apply (f_equal (fun z => z / maxLightsPerCluster U)) in Hsame.
    rewrite !Z.div_add_l, !Z.div_small in Hsame by lia. lia. }
  subst t2. assert (k1 = k2) by lia. congruence.
Qed.

(** X26.  Running the invocations of a dispatch in any order leaves the table
    the dispatch in id order leaves: the cluster-parallel execution has one
    outcome. *)
Theorem dispatch_order_irrelevant (U : ClusteringUniforms) (L : Lights)
  (T : ClusterTable) (order : list Z) :
  uniforms_wf U -> slots_fit U ->
  Permutation order (LightsTs.invocations U) ->
  exec T (concat (map (Clustering.main U L) order)) =
  LightsTs.doLightClustering U L T.
Proof.
  intros Hwf Hfit Hperm.
  assert (Hnn : forall t, In t order -> 0 <= t).
  { intros t Ht. apply (Permutation_in _ Hperm), in_invocations in Ht. lia. }
  assert (Hsame : forall s,
            In s (concat (map (Clustering.main U L) order)) <->
            In s (LightsTs.dispatch_trace U L)).
  { intros s. unfold LightsTs.dispatch_trace. rewrite !in_trace_of.
    split; intros (t & Ht & Hs); exists t; (split; [|done]).
    - by apply (Permutation_in _ Hperm).
    - by apply (Permutation_in _ (Permutation_sym Hperm)). }
  unfold LightsTs.doLightClustering. rewrite !exec_replay. f_equal.
  - apply replay_same_writes; [by apply count_writes_functional|].
    intros [p v]. rewrite !In_count_writes.
    split; intros (q & Hq & Heq); exists q; (split; [|done]); by apply Hsame.
  - apply replay_same_writes; [by apply index_writes_functional|].
    intros [p v]. rewrite !In_index_writes.
    split; intros (q & Hq & Heq); exists q; (split; [|done]); by apply Hsame.
Qed.

(** ** The two shading pipelines on one fragment *)

Section Pipelines.
Local Open Scope R_scope.

Lemma xyz_vec4_of (v : vec3) (w : R) : xyz (vec4_of v w) = v.
Proof. by destruct v. Qed.

Lemma normalize_idempotent (v : vec3) : normalize (normalize v) = normalize v.
Proof.
  destruct v as [x y z]. unfold normalize, length3, vec3_div, dot.
  cbn [vx vy vz].
  set (d := x * x + y * y + z * z).
  assert (Hd : 0 <= d) by (unfold d; nra).
  pose proof (sqrt_sqrt d Hd) as Hsq.
  pose proof (sqrt_pos d) as Hpos.
  set (l := sqrt d) in *.
  destruct (Req_dec l 0) as [Hz|Hnz].
  - rewrite Hz. unfold Rdiv. rewrite Rinv_0, !Rmult_0_r.
    rewrite !Rmult_0_l. reflexivity.
  - assert (Hone : x / l * (x / l) + y / l * (y / l) + z / l * (z / l) = 1).
    { transitivity (d / (l * l)); [unfold d; field; done|].
      rewrite Hsq. field. rewrite <- Hsq. nra. }
    rewrite Hone, sqrt_1. f_equal; field; done.
Qed.

(** X27.  With the G-buffer holding what the geometry pass writes for the
    fragment, the deferred resolve and Forward+ output the same colour
    whenever the two shaders derive the same cluster index for it. *)
Lemma pipelines_agree_on_shared_cluster (diffuse : vec2 -> vec3)
  (U : ClusteringUniforms) (L : Lights) (T : ClusterTable)
  (G : ClusteredDeferred.GBuffer)
  (input : ForwardPlus.FragmentInput)
  (dinput : ClusteredDeferred.FragmentInput) :
  let px := F32.to_i32 (wx (ClusteredDeferred.fragCoord dinput)) in
  let py := F32.to_i32 (wy (ClusteredDeferred.fragCoord dinput)) in
  let g := GBufferPass.main diffuse
             (GBufferPass.mkFragmentInput (ForwardPlus.worldPos input)
                (ForwardPlus.worldNormal input) (ForwardPlus.uv input)) in
  ClusteredDeferred.gPositionTex G px py = GBufferPass.out_position g ->
  ClusteredDeferred.gNormalTex G px py = GBufferPass.out_normal g ->
  ClusteredDeferred.gAlbedoTex G px py = GBufferPass.out_albedo g ->
  ClusteredDeferred.clusterIndex U dinput (xyz (ForwardPlus.worldPos input))
  = ForwardPlus.clusterIndex U input ->
  ForwardPlus.main diffuse U L T input =
  ClusteredDeferred.main U L T G dinput.
Proof.
  cbv zeta. intros Hpos Hnorm Halb Hc.
  rewrite forward_plus_main_sum, deferred_main_sum.
  rewrite Hpos, Hnorm, Halb. unfold GBufferPass.main. cbv zeta.
  cbn [GBufferPass.out_position GBufferPass.out_normal GBufferPass.out_albedo
       GBufferPass.worldPos GBufferPass.worldNormal GBufferPass.uv].
  rewrite !xyz_vec4_of, normalize_idempotent.
  by rewrite Hc.
Qed.

End Pipelines.

(** * Further results *)

(** ** What the table holds after a dispatch *)

Lemma hit_list_increasing (U : ClusteringUniforms)
  (b : Clustering.ClusterBounds) (L : Lights) (n : nat) :
  forall (k k' : nat) (a a' : Z),
    (k < k')%nat ->
    hit_list U b L n !! k = Some a ->
    hit_list U b L n !! k' = Some a' ->
    a < a'.
Proof.
  induction n as [|n IH]; intros k k' a a' Hlt Hk Hk'.
  - discriminate Hk.
  - rewrite hit_list_S in Hk, Hk'.
    destruct (decide (k' < length (hit_list U b L n))%nat) as [Hin|Hout].
    + rewrite lookup_app_l in Hk, Hk' by lia. by apply (IH k k').
    + rewrite lookup_app_r in Hk' by lia.
      destruct (Clustering.intersects U b (load_light L (Z.of_nat n)));
        [|by rewrite lookup_nil in Hk'].
      apply list_lookup_singleton_Some in Hk' as [Hpos <-].
      rewrite lookup_app_l in Hk by lia.
      apply list_elem_of_lookup_2, list_elem_of_In, in_hit_list in Hk. lia.
Qed.

Lemma accepted_lookup (U : ClusteringUniforms) (c : Z) (L : Lights)
  (k : nat) (l : Z) :
  accepted U (Clustering.cluster_bounds U c) L !! k = Some l ->
  hits U c L !! k = Some l.
Proof.
  unfold accepted, hits. intros Hk.
  apply lookup_take_Some in Hk. apply Hk.
Qed.

Lemma length_accepted_min (U : ClusteringUniforms) (c : Z) (L : Lights) :
  U32.in_range (maxLightsPerCluster U) ->
  Z.of_nat (length (accepted U (Clustering.cluster_bounds U c) L)) =
  Z.min (maxLightsPerCluster U) (Z.of_nat (length (hits U c L))).
Proof.
  intros [Hm _]. unfold accepted, hits. rewrite length_take. lia.
Qed.

(** X1.  After the dispatch the count of a cluster is the number of active
    lights that pass its test, capped at [maxLightsPerCluster]. *)
Theorem count_is_capped_hit_count (U : ClusteringUniforms) (L : Lights)
  (T : ClusterTable) (c : Z) :
  uniforms_wf U ->
  LightsTs.table_allocated U T ->
  0 <= c < Clustering.totalClusters U ->
  load_u32 (counts (LightsTs.doLightClustering U L T)) c =
  Z.min (maxLightsPerCluster U) (Z.of_nat (length (hits U c L))).
Proof.
  intros Hwf Halloc Hc. unfold load_u32.
  rewrite counts_after_dispatch by done. cbn.
  apply length_accepted_min. apply Hwf.
Qed.

(** X2.  The valid entries of a cluster are strictly increasing light
    indices: no light is listed twice in one cluster. *)
Theorem listed_lights_increasing (U : ClusteringUniforms) (L : Lights)
  (T : ClusterTable) (c : Z) (k k' : nat) :
  uniforms_wf U -> slots_fit U ->
  LightsTs.table_allocated U T ->
  0 <= c < Clustering.totalClusters U ->
  (k < k')%nat ->
  Z.of_nat k' < load_u32 (counts (LightsTs.doLightClustering U L T)) c ->
  load_u32 (indices (LightsTs.doLightClustering U L T))
    (c * maxLightsPerCluster U + Z.of_nat k)
  < load_u32 (indices (LightsTs.doLightClustering U L T))
      (c * maxLightsPerCluster U + Z.of_nat k').
Proof.
  intros Hwf Hfit Halloc Hc Hlt Hk'.
  unfold load_u32 in Hk'. rewrite counts_after_dispatch in Hk' by done.
  cbn in Hk'.
  destruct (lookup_lt_is_Some_2
              (accepted U (Clustering.cluster_bounds U c) L) k ltac:(lia))
    as [a Ha].
  destruct (lookup_lt_is_Some_2
              (accepted U (Clustering.cluster_bounds U c) L) k' ltac:(lia))
    as [a' Ha'].
  unfold load_u32.
  rewrite (indices_after_dispatch U L T c k a) by done.
  rewrite (indices_after_dispatch U L T c k' a') by done.
  cbn. apply accepted_lookup in Ha, Ha'. unfold hits in Ha, Ha'.
  exact (hit_list_increasing U _ L _ k k' a a' Hlt Ha Ha').
Qed.

(** X3.  A cluster whose count stays below the capacity lists every active
    light that passes its test: lights are dropped only when the list is
    full. *)
Theorem nothing_dropped_below_capacity (U : ClusteringUniforms) (L : Lights)
  (T : ClusterTable) (c l : Z) :
  uniforms_wf U -> slots_fit U ->
  LightsTs.table_allocated U T ->
  0 <= c < Clustering.totalClusters U ->
  load_u32 (counts (LightsTs.doLightClustering U L T)) c
    < maxLightsPerCluster U ->
  0 <= l < numLights L ->
  Clustering.intersects U (Clustering.cluster_bounds U c) (load_light L l)
    = true ->
  exists k : nat,
    Z.of_nat k < load_u32 (counts (LightsTs.doLightClustering U L T)) c /\
    indices (LightsTs.doLightClustering U L T)
      !! Z.to_nat (c * maxLightsPerCluster U + Z.of_nat k) = Some l.
Proof.
  intros Hwf Hfit Halloc Hc Hroom Hl Hhit.
  pose proof Hwf as (_ & _ & _ & Hm).
  unfold load_u32 in *. rewrite counts_after_dispatch in * by done.
  cbn in *.
  assert (Hall : accepted U (Clustering.cluster_bounds U c) L = hits U c L).
  { unfold accepted, hits in *. rewrite length_take in Hroom.
    apply take_ge. lia. }
  assert (Hin : In l (hits U c L)).
  { unfold hits. apply in_hit_list. split; [lia | done]. }
  apply list_elem_of_In, list_elem_of_lookup_1 in Hin as [k Hk].
  exists k. split.
  - rewrite Hall. apply lookup_lt_Some in Hk. lia.
  - apply indices_after_dispatch; try done. by rewrite Hall.
Qed.

(** X4.  The dispatch does not clear the index buffer: the slots of a
    cluster at and beyond its count keep what the buffer held before. *)
Theorem slots_beyond_count_keep_old_content (U : ClusteringUniforms)
  (L : Lights) (T : ClusterTable) (c : Z) (k : nat) :
  uniforms_wf U -> slots_fit U ->
  0 <= c < Clustering.totalClusters U ->
  load_u32 (counts (LightsTs.doLightClustering U L T)) c <= Z.of_nat k
    < maxLightsPerCluster U ->
  LightsTs.table_allocated U T ->
  indices (LightsTs.doLightClustering U L T)
    !! Z.to_nat (c * maxLightsPerCluster U + Z.of_nat k)
  = indices T !! Z.to_nat (c * maxLightsPerCluster U + Z.of_nat k).
Proof.
  intros Hwf Hfit Hc Hk Halloc.
  pose proof Hwf as (_ & _ & _ & Hm).
  unfold load_u32 in Hk. rewrite counts_after_dispatch in Hk by done.
  cbn in Hk.
  unfold LightsTs.doLightClustering. rewrite exec_replay. cbn [indices].
  rewrite lookup_replay.
  destruct (last_write (index_writes (LightsTs.dispatch_trace U L))
              (Z.to_nat (c * maxLightsPerCluster U + Z.of_nat k)))
    as [v|] eqn:Hlw; [|done].
  exfalso. apply last_write_In, In_index_writes in Hlw as (q & Hq & Heq).
  apply in_dispatch_trace in Hq as (t & Ht & Hq).
  apply in_invocations in Ht.
  apply in_main in Hq as [Hlt [(k' & l' & Hk' & [= -> ->])|[=]]]; [|done].
  assert (Hk'm : Z.of_nat k' < maxLightsPerCluster U).
  { apply lookup_lt_Some in Hk'.
    pose proof (length_accepted U (Clustering.cluster_bounds U t) L Hm). lia. }
  rewrite (slot_exact U t k') in Heq by (done || lia).
  assert (0 <= t * maxLightsPerCluster U) by (apply Z.mul_nonneg_nonneg; lia).
  assert (0 <= c * maxLightsPerCluster U) by (apply Z.mul_nonneg_nonneg; lia).
  assert (Hsame : t * maxLightsPerCluster U + Z.of_nat k'
                  = c * maxLightsPerCluster U + Z.of_nat k) by lia.
  assert (Htc : t = c).
  { apply (f_equal (fun z => z / maxLightsPerCluster U)) in Hsame.
    rewrite !Z.div_add_l, !Z.div_small in Hsame by lia. lia. }
  subst t. assert (k' = k) by lia. subst k'.
  apply lookup_lt_Some in Hk'. lia.
Qed.

(** X5.  With no active light, the dispatch sets the count of every
    cluster to zero and leaves the index buffer as it was. *)
Theorem no_active_lights (U : ClusteringUniforms) (L : Lights)
  (T : ClusterTable) :
  uniforms_wf U ->
  LightsTs.table_allocated U T ->
  numLights L = 0 ->
  indices (LightsTs.doLightClustering U L T) = indices T /\
  forall c, 0 <= c < Clustering.totalClusters U ->
            counts (LightsTs.doLightClustering U L T) !! Z.to_nat c = Some 0.
Proof.
  intros Hwf Halloc Hn. pose proof Hwf as (_ & _ & _ & Hm).
  assert (Hacc : forall b, accepted U b L = []).
  { intros b. unfold accepted, hit_list. rewrite Hn. apply take_nil. }
  split.
  - unfold LightsTs.doLightClustering. rewrite exec_replay. cbn [indices].
    assert (Hnil : index_writes (LightsTs.dispatch_trace U L) = []).
    { destruct (index_writes (LightsTs.dispatch_trace U L)) as [|[p v] ws]
        eqn:Hws; [done|].
      assert (Hin : In (p, v) (index_writes (LightsTs.dispatch_trace U L)))
        by (rewrite Hws; by left).
      apply In_index_writes in Hin as (q & Hq & _).
      apply in_dispatch_trace in Hq as (t & _ & Hq).
      apply in_main in Hq as [_ [(k & l & Hk & _)|[=]]]; [|done].
      by rewrite Hacc, lookup_nil in Hk. }
    by rewrite Hnil.
  - intros c Hc. rewrite counts_after_dispatch by done. by rewrite Hacc.
Qed.

(** X6.  When the product of the grid dimensions is zero as a [u32], by a
    zero dimension or by wrap-around, no invocation stores anything and the
    table is left as it was. *)
Theorem empty_grid_leaves_table (U : ClusteringUniforms) (L : Lights)
  (T : ClusterTable) :
  uniforms_wf U ->
  Clustering.totalClusters U = 0 ->
  LightsTs.doLightClustering U L T = T.
Proof.
  intros Hwf Htot. unfold LightsTs.doLightClustering.
  rewrite dispatch_trace_in_range by done. by rewrite Htot.
Qed.

(** ** Lights no cluster lists *)

Lemma no_store_of_rejected (U : ClusteringUniforms) (L : Lights) (i : Z) :
  uniforms_wf U ->
  (forall c, 0 <= c < Clustering.totalClusters U ->
     Clustering.intersects U (Clustering.cluster_bounds U c) (load_light L i)
     = false) ->
  forall p, ~ In (StoreIndex p i) (LightsTs.dispatch_trace U L).
Proof.
  intros Hwf Hrej p Hin.
  apply in_dispatch_trace in Hin as (t & Ht & Hin).
  apply in_invocations in Ht.
  apply in_main in Hin as [Hlt [(k & l & Hk & [= _ ->])|[=]]]; [|apply Hwf].
  apply list_elem_of_lookup_2, list_elem_of_In, in_accepted in Hk as [_ Hhit].
  rewrite Hrej in Hhit by lia. discriminate.
Qed.

Section RejectedLights.
Local Open Scope R_scope.

Lemma near_le_zNear (U : ClusteringUniforms) (c : Z) :
  uniforms_wf U -> grid_fits U -> near U <= far U ->
  (0 <= c < Clustering.totalClusters U)%Z ->
  near U <= Clustering.zNear (Clustering.cluster_bounds U c).
Proof.
  intros Hwf Hfit Hnf Hc.
  destruct (cluster_coords U c Hwf Hfit Hc) as (_ & _ & [Hz0 Hz1] & _).
  unfold Clustering.cluster_bounds. cbn [Clustering.zNear].
  unfold Clustering.zSliceDepth, F32.of_u32.
  assert (Hk0 : 0 <= IZR (Clustering.clusterZ U c)) by (apply IZR_le; lia).
  assert (Hcz0 : 0 < IZR (clustersZ U)) by (apply IZR_lt; lia).
  assert (Hs : 0 <= (far U - near U) / IZR (clustersZ U)).
  { apply Rmult_le_pos; [lra|]. left. by apply Rinv_0_lt_compat. }
  nra.
Qed.

Lemma intersects_false_near (U : ClusteringUniforms)
  (b : Clustering.ClusterBounds) (light : Light) :
  forward_distance U light < Clustering.zNear b - lightRadius ->
  Clustering.intersects U b light = false.
Proof.
  intros Hnear. apply not_true_is_false. intros Hhit.
  apply intersects_true_iff in Hhit. unfold forward_distance in Hnear.
  cbv zeta in Hhit. lra.
Qed.

Lemma intersects_false_small (U : ClusteringUniforms) (c : Z) (light : Light) :
  uniforms_wf U -> grid_fits U ->
  (0 <= c < Clustering.totalClusters U)%Z ->
  4 <= forward_distance U light ->
  8 * IZR (clustersY U) < Clustering.fovY * forward_distance U light ->
  Clustering.intersects U (Clustering.cluster_bounds U c) light = false.
Proof.
  intros Hwf Hfit Hc Hlz Hsmall. apply not_true_is_false. intros Hhit.
  apply intersects_needs_cover in Hhit.
  rewrite (vertical_extent U c Hwf Hfit Hc) in Hhit.
  destruct (cluster_coords U c Hwf Hfit Hc) as (_ & [Hy0 Hy1] & _ & _).
  pose proof (halfAngle_far _ Hlz) as [_ Hh].
  set (lz := forward_distance U light) in *.
  set (cy := IZR (clustersY U)) in *.
  assert (Hcy : 0 < cy) by (apply IZR_lt; lia).
  assert (Hstep : 8 / lz < Clustering.fovY / cy).
  { apply (Rmult_lt_reg_r (lz * cy)); [nra|].
    replace (8 / lz * (lz * cy)) with (8 * cy) by (field; lra).
    replace (Clustering.fovY / cy * (lz * cy)) with (Clustering.fovY * lz)
      by (field; lra).
    done. }
  assert (H8 : 2 * (4 / lz) = 8 / lz) by (field; lra).
  lra.
Qed.

End RejectedLights.

(** X7.  A light whose forward distance is below [near - lightRadius], in
    particular any light more than [lightRadius] behind the camera plane,
    is listed by no cluster. *)
Theorem lights_before_near_unassigned (U : ClusteringUniforms) (L : Lights)
  (i : Z) :
  uniforms_wf U -> grid_fits U -> (near U <= far U)%R ->
  (forward_distance U (load_light L i) < near U - lightRadius)%R ->
  forall p, ~ In (StoreIndex p i) (LightsTs.dispatch_trace U L).
Proof.
  intros Hwf Hfit Hnf Hnear. apply no_store_of_rejected; [done|].
  intros c Hc. apply intersects_false_near.
  pose proof (near_le_zNear U c Hwf Hfit Hnf Hc). lra.
Qed.

(** X8.  The vertical test accepts a light only when the light's angular
    range covers the whole height of the cell, so a light that is too far
    away to do so is listed by no cluster at all: this holds for every
    light at forward distance [lz >= 4] with [8 * clustersY < fovY * lz]. *)
Theorem lights_too_far_to_cover_unassigned (U : ClusteringUniforms)
  (L : Lights) (i : Z) :
  uniforms_wf U -> grid_fits U ->
  (4 <= forward_distance U (load_light L i))%R ->
  (8 * IZR (clustersY U)
   < Clustering.fovY * forward_distance U (load_light L i))%R ->
  forall p, ~ In (StoreIndex p i) (LightsTs.dispatch_trace U L).
Proof.
  intros Hwf Hfit Hlz Hsmall. apply no_store_of_rejected; [done|].
  intros c Hc. by apply intersects_false_small.
Qed.

(** ** The cells of the grid *)

Section Cells.
Local Open Scope R_scope.

Lemma bounds_at_cell (U : ClusteringUniforms) (x y z : Z) :
  uniforms_wf U -> grid_fits U ->
  (0 <= x < clustersX U)%Z -> (0 <= y < clustersY U)%Z ->
  (0 <= z < clustersZ U)%Z ->
  Clustering.cluster_bounds U (flat_index U x y z) =
  Clustering.mkClusterBounds
    (- Clustering.fovX U * (5 / 10) + Clustering.fovX U * IZR x / IZR (clustersX U))
    (- Clustering.fovX U * (5 / 10)
     + Clustering.fovX U * IZR (x + 1) / IZR (clustersX U))
    (- Clustering.fovY * (5 / 10)
     + Clustering.fovY * IZR (y + 1) / IZR (clustersY U))
    (- Clustering.fovY * (5 / 10) + Clustering.fovY * IZR y / IZR (clustersY U))
    (near U + Clustering.zSliceDepth U * IZR z)
    (near U + Clustering.zSliceDepth U * IZR (z + 1)).
Proof.
  intros Hwf Hfit Hx Hy Hz.
  destruct (decompose_flat_index U x y z Hwf Hfit Hx Hy Hz)
    as (_ & HX & HY & HZ).
  destruct Hwf as ([_ Hcx] & [_ Hcy] & [_ Hcz] & _).
  unfold U32.modulus in *.
  unfold Clustering.cluster_bounds. rewrite HX, HY, HZ.
  unfold F32.of_u32, U32.add, U32.wrap, U32.modulus.
  rewrite !Z.mod_small by lia. reflexivity.
Qed.

End Cells.

(** X9.  The depth slices of the assignment side are contiguous and span
    the range from [near] to [far]: slice 0 starts at [near], the last
    slice ends at [far], each slice ends where the next one starts, and
    every slice has positive depth. *)
Theorem depth_slices_tile (U : ClusteringUniforms) (x y z : Z) :
  uniforms_wf U -> grid_fits U -> (near U < far U)%R ->
  0 <= x < clustersX U -> 0 <= y < clustersY U -> 0 <= z < clustersZ U ->
  (z = 0 ->
   Clustering.zNear (Clustering.cluster_bounds U (flat_index U x y z))
   = near U) /\
  (z = clustersZ U - 1 ->
   Clustering.zFar (Clustering.cluster_bounds U (flat_index U x y z))
   = far U) /\
  (z + 1 < clustersZ U ->
   Clustering.zFar (Clustering.cluster_bounds U (flat_index U x y z)) =
   Clustering.zNear (Clustering.cluster_bounds U (flat_index U x y (z + 1)))) /\
  (Clustering.zNear (Clustering.cluster_bounds U (flat_index U x y z))
   < Clustering.zFar (Clustering.cluster_bounds U (flat_index U x y z)))%R.
Proof.
  intros Hwf Hfit Hnf Hx Hy Hz.
  rewrite (bounds_at_cell U x y z) by done.
  cbn [Clustering.zNear Clustering.zFar].
  assert (Hcz : (0 < IZR (clustersZ U))%R) by (apply IZR_lt; lia).
  assert (Hs : (0 < Clustering.zSliceDepth U)%R).
  { unfold Clustering.zSliceDepth, F32.of_u32.
    apply Rdiv_lt_0_compat; lra. }
  repeat split.
  - intros ->. lra.
  - intros ->. replace (clustersZ U - 1 + 1) with (clustersZ U) by lia.
    unfold Clustering.zSliceDepth, F32.of_u32. field. lra.
  - intros Hnext. rewrite (bounds_at_cell U x y (z + 1)) by (done || lia).
    reflexivity.
  - rewrite plus_IZR. nra.
Qed.

(** X10.  The angular wedges of the assignment side are contiguous too:
    horizontally they run from [-fovX/2] to [fovX/2] and vertically from
    [-fovY/2] to [fovY/2], each wedge ending where the next one starts;
    [angleUp] is the lower and [angleDown] the upper boundary. *)
Theorem angular_wedges_tile (U : ClusteringUniforms) (x y z : Z) :
  uniforms_wf U -> grid_fits U ->
  0 <= x < clustersX U -> 0 <= y < clustersY U -> 0 <= z < clustersZ U ->
  (x = 0 ->
   (Clustering.angleLeft (Clustering.cluster_bounds U (flat_index U x y z))
    = - Clustering.fovX U / 2)%R) /\
  (x = clustersX U - 1 ->
   (Clustering.angleRight (Clustering.cluster_bounds U (flat_index U x y z))
    = Clustering.fovX U / 2)%R) /\
  (x + 1 < clustersX U ->
   Clustering.angleRight (Clustering.cluster_bounds U (flat_index U x y z)) =
   Clustering.angleLeft (Clustering.cluster_bounds U (flat_index U (x + 1) y z))) /\
  (y = 0 ->
   (Clustering.angleUp (Clustering.cluster_bounds U (flat_index U x y z))
    = - Clustering.fovY / 2)%R) /\
  (y = clustersY U - 1 ->
   (Clustering.angleDown (Clustering.cluster_bounds U (flat_index U x y z))
    = Clustering.fovY / 2)%R) /\
  (y + 1 < clustersY U ->
   Clustering.angleDown (Clustering.cluster_bounds U (flat_index U x y z)) =
   Clustering.angleUp (Clustering.cluster_bounds U (flat_index U x (y + 1) z))).
Proof.
  intros Hwf Hfit Hx Hy Hz.
  rewrite (bounds_at_cell U x y z) by done.
  cbn [Clustering.angleLeft Clustering.angleRight Clustering.angleUp
       Clustering.angleDown].
  assert (Hcx : (0 < IZR (clustersX U))%R) by (apply IZR_lt; lia).
  assert (Hcy : (0 < IZR (clustersY U))%R) by (apply IZR_lt; lia).
  repeat split.
  - intros ->. lra.
  - intros ->. replace (clustersX U - 1 + 1) with (clustersX U) by lia.
    field. lra.
  - intros Hnext. rewrite (bounds_at_cell U (x + 1) y z) by (done || lia).
    reflexivity.
  - intros ->. lra.
  - intros ->. replace (clustersY U - 1 + 1) with (clustersY U) by lia.
    field. lra.
  - intros Hnext. rewrite (bounds_at_cell U x (y + 1) z) by (done || lia).
    reflexivity.
Qed.

(** ** The cluster a fragment is shaded with *)

Section ShadingIndex.
Local Open Scope R_scope.

Lemma Int_part_nonpos (r : R) : r <= 0 -> (Int_part r <= 0)%Z.
Proof.
  intros Hr. destruct (base_Int_part r) as [Hlo _].
  apply le_IZR. lra.
Qed.

Lemma Int_part_at_least (r : R) (n : Z) : IZR n <= r -> (n <= Int_part r)%Z.
Proof.
  intros Hr. destruct (base_Int_part r) as [_ Hhi].
  assert (H : IZR (n - 1) < IZR (Int_part r)) by (rewrite minus_IZR; lra).
  apply lt_IZR in H. lia.
Qed.

(** [u32(clamp(floor(r), 0.0, f32(n) - 1.0))] is the floor of [r], brought
    into [0 .. n - 1]. *)
Lemma clamped_floor_exact (r : R) (n : Z) :
  U32.in_range n -> (1 <= n)%Z ->
  F32.to_u32 (F32.clamp (F32.floor r) 0 (F32.of_u32 n - 1)) =
  Z.min (Z.max (Int_part r) 0) (n - 1).
Proof.
  intros [_ Hn] Hn1. unfold U32.modulus in Hn.
  unfold F32.clamp, F32.floor, F32.min, F32.max, F32.of_u32.
  set (k := Int_part r).
  assert (Hmax : Rmax (IZR k) 0 = IZR (Z.max k 0)).
  { destruct (Z_le_dec k 0) as [Hle|Hgt].
    - rewrite Z.max_r by lia. apply Rmax_right. by apply IZR_le.
    - rewrite Z.max_l by lia. apply Rmax_left. apply IZR_le. lia. }
  rewrite Hmax. set (a := Z.max k 0).
  assert (Hmin : Rmin (IZR a) (IZR n - 1) = IZR (Z.min a (n - 1))).
  { rewrite <- minus_IZR. destruct (Z_le_dec a (n - 1)) as [Hle|Hgt].
    - rewrite Z.min_l by lia. apply Rmin_left. by apply IZR_le.
    - rewrite Z.min_r by lia. apply Rmin_right. apply IZR_le. lia. }
  rewrite Hmin. set (j := Z.min a (n - 1)).
  assert (Hj : (0 <= j <= n - 1)%Z) by (unfold j, a; lia).
  unfold F32.to_u32, F32.trunc.
  destruct (Rlt_dec (IZR j) 0) as [Hneg|_].
  - apply lt_IZR in Hneg. lia.
  - rewrite (Int_part_between (IZR j) j) by lra. unfold U32.modulus. lia.
Qed.

End ShadingIndex.

Lemma flat_index_in_table (U : ClusteringUniforms) (x y z : Z) :
  uniforms_wf U -> grid_fits U ->
  0 <= x < clustersX U -> 0 <= y < clustersY U -> 0 <= z < clustersZ U ->
  0 <= U32.add (U32.add x (U32.mul y (clustersX U)))
         (U32.mul (U32.mul z (clustersX U)) (clustersY U))
    < Clustering.totalClusters U.
Proof.
  intros Hwf Hfit Hx Hy Hz. rewrite flat_index_no_wrap by done.
  by apply decompose_flat_index.
Qed.

(** X11.  Whatever the coordinates and depth of a fragment, both shading
    entry points look up a cluster index inside the table: it is at least
    zero and below [clustersX * clustersY * clustersZ]. *)
Theorem shading_index_in_table (U : ClusteringUniforms)
  (input : ForwardPlus.FragmentInput)
  (dinput : ClusteredDeferred.FragmentInput) (fragPos : vec3) :
  uniforms_wf U -> grid_fits U ->
  1 <= clustersX U -> 1 <= clustersY U -> 1 <= clustersZ U ->
  (0 < screenWidth U)%R -> (0 < screenHeight U)%R -> (near U < far U)%R ->
  0 <= ForwardPlus.clusterIndex U input < Clustering.totalClusters U /\
  0 <= ClusteredDeferred.clusterIndex U dinput fragPos
    < Clustering.totalClusters U.
Proof.
  intros Hwf Hfit Hx Hy Hz _ _ _. pose proof Hwf as (Hcx & Hcy & Hcz & _).
  split.
  - unfold ForwardPlus.clusterIndex, ForwardPlus.clusterXIndex,
      ForwardPlus.clusterYIndex, ForwardPlus.clusterZIndex.
    rewrite !clamped_floor_exact by done.
    apply flat_index_in_table; (done || lia).
  - unfold ClusteredDeferred.clusterIndex, ClusteredDeferred.clusterX,
      ClusteredDeferred.clusterY, ClusteredDeferred.clusterZ.
    rewrite !clamped_floor_exact by done.
    apply flat_index_in_table; (done || lia).
Qed.

(** X12.  Fragments outside the grid are shaded with the border cells: a
    view depth at or before [near] gives slice 0, a view depth at or beyond
    [far] gives the last slice, and a pixel coordinate left of or beyond the
    screen gives the first or the last tile column. *)
Theorem out_of_range_fragments_clamp (U : ClusteringUniforms)
  (input : ForwardPlus.FragmentInput) :
  uniforms_wf U ->
  1 <= clustersX U -> 1 <= clustersZ U ->
  (0 < screenWidth U)%R -> (near U < far U)%R ->
  ((ForwardPlus.viewDepth U input <= near U)%R ->
   ForwardPlus.clusterZIndex U input = 0) /\
  ((far U <= ForwardPlus.viewDepth U input)%R ->
   ForwardPlus.clusterZIndex U input = clustersZ U - 1) /\
  ((wx (ForwardPlus.fragCoord input) <= 0)%R ->
   ForwardPlus.clusterXIndex U input = 0) /\
  ((screenWidth U <= wx (ForwardPlus.fragCoord input))%R ->
   ForwardPlus.clusterXIndex U input = clustersX U - 1).
Proof.
  intros Hwf Hx Hz HW Hnf. pose proof Hwf as (Hcx & _ & Hcz & _).
  assert (Hcx' : (0 < IZR (clustersX U))%R) by (apply IZR_lt; lia).
  assert (Hcz' : (0 < IZR (clustersZ U))%R) by (apply IZR_lt; lia).
  assert (Htile : (0 < screenWidth U / IZR (clustersX U))%R)
    by (apply Rdiv_lt_0_compat; lra).
  unfold ForwardPlus.clusterZIndex, ForwardPlus.clusterXIndex.
  rewrite !clamped_floor_exact by done. unfold F32.of_u32.
  repeat split.
  - intros Hd.
    assert (Hq : ((ForwardPlus.viewDepth U input - near U) / (far U - near U)
                  * IZR (clustersZ U) <= 0)%R).
    { assert (Hinv : (0 < / (far U - near U))%R)
        by (apply Rinv_0_lt_compat; lra).
      assert (H1 : ((ForwardPlus.viewDepth U input - near U)
                    * / (far U - near U) <= 0)%R) by nra.
      unfold Rdiv. nra. }
    apply Int_part_nonpos in Hq. lia.
  - intros Hd.
    assert (Hq : (IZR (clustersZ U)
                  <= (ForwardPlus.viewDepth U input - near U) / (far U - near U)
                     * IZR (clustersZ U))%R).
    { assert (H1 : (1 <= (ForwardPlus.viewDepth U input - near U)
                         / (far U - near U))%R).
      { apply (Rmult_le_reg_r (far U - near U)); [lra|].
        unfold Rdiv. rewrite Rmult_assoc, Rinv_l by lra. lra. }
      nra. }
    apply Int_part_at_least in Hq. lia.
  - intros Hp.
    assert (Hq : (wx (ForwardPlus.fragCoord input)
                  / (screenWidth U / IZR (clustersX U)) <= 0)%R).
    { assert (Hinv : (0 < / (screenWidth U / IZR (clustersX U)))%R)
        by (by apply Rinv_0_lt_compat).
      unfold Rdiv at 1. nra. }
    apply Int_part_nonpos in Hq. lia.
  - intros Hp.
    assert (Hq : (IZR (clustersX U)
                  <= wx (ForwardPlus.fragCoord input)
                     / (screenWidth U / IZR (clustersX U)))%R).
    { apply (Rmult_le_reg_r (screenWidth U / IZR (clustersX U))); [done|].
      replace (IZR (clustersX U) * (screenWidth U / IZR (clustersX U)))%R
        with (screenWidth U) by (field; lra).
      replace (wx (ForwardPlus.fragCoord input)
               / (screenWidth U / IZR (clustersX U))
               * (screenWidth U / IZR (clustersX U)))%R
        with (wx (ForwardPlus.fragCoord input)) by (field; lra).
      done. }
    apply Int_part_at_least in Hq. lia.
Qed.

(** ** Sign of the lighting *)

Section LightingSign.
Local Open Scope R_scope.

Lemma contribution_nonneg (fragPos normal : vec3) (light : Light) :
  vec3_nonneg (color light) ->
  vec3_nonneg (contribution fragPos normal light).
Proof.
  intros (Hr & Hg & Hb). unfold contribution, vec3_nonneg. cbv zeta.
  destruct (Rle_dec _ lightRadius) as [Hin|Hout]; [|cbn; lra].
  unfold lightRadius in Hin.
  set (d := length3 (vec3_sub (position light) fragPos)) in *.
  set (m := Rmax (dot normal (vec3_div (vec3_sub (position light) fragPos) d)) 0).
  assert (Hm : 0 <= m) by apply Rmax_r.
  assert (Ha : 0 <= 1 - d / lightRadius) by (unfold lightRadius; lra).
  cbn [vec3_scale vx vy vz].
  repeat split; apply Rmult_le_pos; try apply Rmult_le_pos; done.
Qed.

Lemma load_light_nonneg (L : Lights) (e : Z) :
  (forall l, In l (lights L) -> vec3_nonneg (color l)) ->
  vec3_nonneg (color (load_light L e)).
Proof.
  intros Hall. unfold load_light.
  destruct (lights L !! Z.to_nat e) as [l|] eqn:Hl; cbn.
  - apply Hall. by apply list_elem_of_In, list_elem_of_lookup_2 with (Z.to_nat e).
  - unfold vec3_nonneg. cbn. lra.
Qed.

Lemma summed_lighting_nonneg (fragPos normal : vec3) (L : Lights)
  (entries : list Z) :
  (forall l, In l (lights L) -> vec3_nonneg (color l)) ->
  vec3_nonneg (summed_lighting fragPos normal L entries).
Proof.
  intros Hall. unfold summed_lighting.
  assert (Hgen : forall acc, vec3_nonneg acc ->
            vec3_nonneg
              (fold_left
                 (fun acc e =>
                    vec3_add acc (contribution fragPos normal (load_light L e)))
                 entries acc)).
  { induction entries as [|e es IH]; intros acc Hacc; [done|].
    cbn [fold_left]. apply IH.
    pose proof (contribution_nonneg fragPos normal (load_light L e)
                  (load_light_nonneg L e Hall)) as (H1 & H2 & H3).
    destruct Hacc as (A1 & A2 & A3).
    unfold vec3_nonneg, vec3_add. cbn. lra. }
  apply Hgen. unfold vec3_nonneg. cbn. lra.
Qed.

End LightingSign.

(** X13.  When no light colour and no albedo component is negative, no
    colour component either shading entry point outputs is negative, and
    the alpha it outputs is one. *)
Theorem shaded_colour_nonnegative (diffuse : vec2 -> vec3)
  (U : ClusteringUniforms) (L : Lights) (T : ClusterTable)
  (G : ClusteredDeferred.GBuffer)
  (input : ForwardPlus.FragmentInput)
  (dinput : ClusteredDeferred.FragmentInput) :
  (forall l, In l (lights L) -> vec3_nonneg (color l)) ->
  vec3_nonneg (diffuse (ForwardPlus.uv input)) ->
  vec3_nonneg
    (xyz (ClusteredDeferred.gAlbedoTex G
            (F32.to_i32 (wx (ClusteredDeferred.fragCoord dinput)))
            (F32.to_i32 (wy (ClusteredDeferred.fragCoord dinput))))) ->
  (vec3_nonneg (xyz (ForwardPlus.main diffuse U L T input)) /\
   ww (ForwardPlus.main diffuse U L T input) = 1%R) /\
  (vec3_nonneg (xyz (ClusteredDeferred.main U L T G dinput)) /\
   ww (ClusteredDeferred.main U L T G dinput) = 1%R).
Proof.
  intros Hall (A1 & A2 & A3) (B1 & B2 & B3).
  rewrite forward_plus_main_sum, deferred_main_sum.
  split; (split; [|reflexivity]).
  - pose proof (summed_lighting_nonneg (xyz (ForwardPlus.worldPos input))
                  (normalize (xyz (ForwardPlus.worldNormal input))) L
                  (cluster_entries U T (ForwardPlus.clusterIndex U input)) Hall)
      as (S1 & S2 & S3).
    rewrite xyz_vec4_of. unfold vec3_nonneg, vec3_mul. cbn [vx vy vz].
    repeat split; by apply Rmult_le_pos.
  - match goal with
    | |- vec3_nonneg (xyz (vec4_of (vec3_mul _ (summed_lighting ?p ?n L ?es)) _)) =>
        pose proof (summed_lighting_nonneg p n L es Hall) as (S1 & S2 & S3)
    end.
    rewrite xyz_vec4_of. unfold vec3_nonneg, vec3_mul. cbn [vx vy vz].
    repeat split; by apply Rmult_le_pos.
Qed.

(** ** The full-screen triangle *)

(** X14.  The one triangle the full-screen vertex shader emits covers the
    whole clip square: every point of [-1, 1] x [-1, 1] is a convex
    combination of its three vertices, and the texture coordinate
    interpolated there runs from 0 to 1 across the square. *)
Theorem fullscreen_triangle_covers_screen (x y : R) :
  (-1 <= x <= 1)%R -> (-1 <= y <= 1)%R ->
  let w0 := ((2 - x - y) / 4)%R in
  let w1 := ((x + 1) / 4)%R in
  let w2 := ((y + 1) / 4)%R in
  let out := FullscreenVS.main in
  (0 <= w0 /\ 0 <= w1 /\ 0 <= w2 /\ w0 + w1 + w2 = 1)%R /\
  interpolate w0 w1 w2 (wx (FullscreenVS.clipPos (out 0)))
    (wx (FullscreenVS.clipPos (out 1))) (wx (FullscreenVS.clipPos (out 2))) = x /\
  interpolate w0 w1 w2 (wy (FullscreenVS.clipPos (out 0)))
    (wy (FullscreenVS.clipPos (out 1))) (wy (FullscreenVS.clipPos (out 2))) = y /\
  interpolate w0 w1 w2 (v2x (FullscreenVS.uv (out 0)))
    (v2x (FullscreenVS.uv (out 1))) (v2x (FullscreenVS.uv (out 2)))
    = ((x + 1) / 2)%R /\
  interpolate w0 w1 w2 (v2y (FullscreenVS.uv (out 0)))
    (v2y (FullscreenVS.uv (out 1))) (v2y (FullscreenVS.uv (out 2)))
    = ((y + 1) / 2)%R.
Proof.
  intros Hx Hy. cbv zeta.
  unfold interpolate, FullscreenVS.main, FullscreenVS.pos. cbn.
  repeat split; lra.
Qed.

(** ** The uniform block on the host *)

Section UniformBlock.
Import UniformsHost.

Lemma length_write_floats (src : list R) :
  forall (buf : list Word) (off : nat),
    length (write_floats buf src off) = length buf.
Proof.
  induction src as [|r rest IH]; intros buf off; [reflexivity|].
  cbn [write_floats]. rewrite IH. apply length_insert.
Qed.

Lemma float_set_Some (buf : list Word) (src : list R) (off : nat) :
  (off + length src <= length buf)%nat ->
  float_set buf src off = Some (write_floats buf src off).
Proof. intros Hfit. unfold float_set. by rewrite decide_True. Qed.

Lemma float_set_None (buf : list Word) (src : list R) (off : nat) :
  ~ (off + length src <= length buf)%nat ->
  float_set buf src off = None.
Proof. intros Hfit. unfold float_set. by rewrite decide_False. Qed.

End UniformBlock.

(** X15.  The uniforms a shader reads are the ones the camera set: after
    the upload of a frame, whatever the buffer held before, the block read
    back member by member is the block of the three matrices, the screen
    size, the planes 0.1 and 1000, the grid 10 x 10 x 32 and the capacity
    512. *)
Theorem uploaded_uniforms_round_trip (V P I : mat4) (W H : R)
  (buf : list UniformsHost.Word) :
  length buf = UniformsHost.bufferWords ->
  exists b,
    UniformsHost.onFrame_upload (mat4_floats V) (mat4_floats P)
      (mat4_floats I) W H buf = Some b /\
    length b = UniformsHost.bufferWords /\
    read_uniforms b = Some (Camera.clusteringUniforms V P I W H).
Proof.
  intros Hlen. unfold UniformsHost.bufferWords in Hlen. cbn in Hlen.
  do 56 (destruct buf as [|? buf]; [discriminate Hlen|]).
  destruct buf; [|discriminate Hlen].
  destruct V as [[] [] [] []], P as [[] [] [] []], I as [[] [] [] []].
  unfold UniformsHost.onFrame_upload, UniformsHost.setMatrices.
  rewrite float_set_Some by (cbn; lia).
  rewrite float_set_Some by (rewrite length_write_floats; cbn; lia).
  rewrite float_set_Some by (rewrite !length_write_floats; cbn; lia).
  eexists. split; [reflexivity|]. split; reflexivity.
Qed.

(** X16.  [setMatrices] raises exactly when one of the three arrays does
    not fit behind its offset, and otherwise returns a buffer of the same
    size. *)
Theorem setMatrices_fails_iff_too_long (V P I : list R)
  (buf : list UniformsHost.Word) :
  (UniformsHost.setMatrices V P I buf = None <->
   ~ (length V <= length buf /\ 16 + length P <= length buf
      /\ 32 + length I <= length buf)%nat) /\
  (forall b, UniformsHost.setMatrices V P I buf = Some b ->
             length b = length buf).
Proof.
  unfold UniformsHost.setMatrices, UniformsHost.viewMatOff,
    UniformsHost.projMatOff, UniformsHost.invProjOff.
  destruct (decide (0 + length V <= length buf)%nat) as [HV|HV].
  2:{ rewrite float_set_None by done.
      split; [split; [lia | done] | discriminate]. }
  rewrite float_set_Some by done.
  destruct (decide (16 + length P <= length buf)%nat) as [HP|HP].
  2:{ rewrite float_set_None by (by rewrite length_write_floats).
      split; [split; [lia | done] | discriminate]. }
  rewrite float_set_Some by (by rewrite length_write_floats).
  destruct (decide (32 + length I <= length buf)%nat) as [HI|HI].
  2:{ rewrite float_set_None by (by rewrite !length_write_floats).
      split; [split; [lia | done] | discriminate]. }
  rewrite float_set_Some by (by rewrite !length_write_floats).
  split.
  - split; [discriminate | lia].
  - intros b [= <-]. by rewrite !length_write_floats.
Qed.

(** ** The camera *)

Section CameraFacts.
Local Open Scope R_scope.
Import CameraTs.

Lemma dot_self_nonneg (v : vec3) : 0 <= dot v v.
Proof. unfold dot. nra. Qed.

Lemma length3_nonneg (v : vec3) : 0 <= length3 v.
Proof. apply sqrt_pos. Qed.

Lemma length3_of_square (v : vec3) (c : R) :
  0 <= c -> dot v v = c * c -> length3 v = c.
Proof. intros Hc Hd. unfold length3. rewrite Hd. by apply sqrt_square. Qed.

Lemma vec3_normalize_long (v : vec3) (c : R) :
  length3 v = c -> 1 / 100000 < c -> vec3_normalize v = vec3_div v c.
Proof.
  intros Hlen Hc. unfold vec3_normalize. cbv zeta. rewrite Hlen.
  destruct (Rgt_dec c (1 / 100000)) as [_|Hn]; [reflexivity|].
  exfalso. apply Hn. exact Hc.
Qed.

Lemma vec3_normalize_zero (v : vec3) :
  vx v = 0 -> vy v = 0 -> vz v = 0 -> vec3_normalize v = vec3_zero.
Proof.
  intros Hx Hy Hz. unfold vec3_normalize. cbv zeta.
  assert (Hlen : length3 v = 0).
  { apply length3_of_square; [lra|]. unfold dot. rewrite Hx, Hy, Hz. ring. }
  rewrite Hlen.
  destruct (Rgt_dec 0 (1 / 100000)) as [Hgt|_]; [|reflexivity].
  exfalso. lra.
Qed.

(** A normalised vector has length one, or is the zero vector. *)
Lemma vec3_normalize_cases (v : vec3) :
  length3 (vec3_normalize v) = 1 \/ vec3_normalize v = vec3_zero.
Proof.
  unfold vec3_normalize. cbv zeta.
  destruct (Rgt_dec (length3 v) (1 / 100000)) as [Hgt|_]; [left|by right].
  set (l := length3 v) in *.
  assert (Hl : 0 < l) by lra.
  assert (Hd : dot v v = l * l).
  { unfold l, length3. rewrite sqrt_sqrt; [reflexivity | apply dot_self_nonneg]. }
  apply length3_of_square; [lra|].
  unfold dot, vec3_div. cbn [vx vy vz]. unfold dot in Hd.
  transitivity ((vx v * vx v + vy v * vy v + vz v * vz v) / (l * l));
    [field; lra|].
  rewrite Hd. field. lra.
Qed.

Lemma length3_scale (v : vec3) (s : R) :
  0 <= s -> length3 (vec3_scale v s) = length3 v * s.
Proof.
  intros Hs. unfold length3.
  replace (dot (vec3_scale v s) (vec3_scale v s)) with (dot v v * (s * s))
    by (unfold dot, vec3_scale; cbn; ring).
  rewrite sqrt_mult; [| apply dot_self_nonneg | nra].
  by rewrite sqrt_square.
Qed.

Lemma front_is_unit (y p : R) :
  length3 (mkVec3 (cos y * cos p) (sin p) (sin y * cos p)) = 1.
Proof.
  apply length3_of_square; [lra|]. unfold dot. cbn [vx vy vz].
  pose proof (sin2_cos2 y) as Hy. pose proof (sin2_cos2 p) as Hp.
  unfold Rsqr in Hy, Hp. nra.
Qed.

Lemma vec3_div_one (v : vec3) : vec3_div v 1 = v.
Proof. destruct v. unfold vec3_div. cbn. f_equal; field. Qed.

Lemma pitch_after_rotate (toRadians : R -> R) (dx dy : R) (s : State) :
  -89 <= pitch (rotateCamera toRadians dx dy s) <= 89.
Proof.
  unfold rotateCamera. cbn [pitch].
  destruct (Rgt_dec (pitch s - dy) 89) as [H1|H1];
    destruct (Rlt_dec _ (-89)) as [H2|H2]; lra.
Qed.

End CameraFacts.

(** X17.  The pitch never leaves [-89, 89] degrees: from the camera as
    constructed, after any sequence of mouse events, locked to the canvas
    or not, the pitch lies in that interval. *)
Theorem pitch_stays_clamped (toRadians : R -> R)
  (events : list (bool * (R * R))) :
  let s :=
    fold_left
      (fun s e => CameraTs.onMouseMove toRadians (fst e) (fst (snd e))
                    (snd (snd e)) s)
      events initial_camera in
  (-89 <= CameraTs.pitch s <= 89)%R.
Proof.
  cbv zeta.
  assert (Hgen : forall s0, (-89 <= CameraTs.pitch s0 <= 89)%R ->
            (-89 <= CameraTs.pitch
                      (fold_left
                         (fun s e =>
                            CameraTs.onMouseMove toRadians (fst e)
                              (fst (snd e)) (snd (snd e)) s)
                         events s0) <= 89)%R).
  { induction events as [|[locked [mx my]] es IH]; intros s0 Hs0; [exact Hs0|].
    cbn [fold_left fst snd]. apply IH.
    unfold CameraTs.onMouseMove. destruct locked; [|exact Hs0].
    apply pitch_after_rotate. }
  apply Hgen. cbn. lra.
Qed.

(** X18.  After [rotateCamera] the front vector has length one and the
    three camera vectors are pairwise orthogonal, for every yaw and pitch
    and every conversion to radians. *)
Theorem camera_basis_orthogonal (toRadians : R -> R) (dx dy : R)
  (s : CameraTs.State) :
  let s' := CameraTs.rotateCamera toRadians dx dy s in
  length3 (CameraTs.cameraFront s') = 1%R /\
  dot (CameraTs.cameraRight s') (CameraTs.cameraFront s') = 0%R /\
  dot (CameraTs.cameraUp s') (CameraTs.cameraFront s') = 0%R /\
  dot (CameraTs.cameraUp s') (CameraTs.cameraRight s') = 0%R.
Proof.
  cbv zeta. unfold CameraTs.rotateCamera.
  cbn [CameraTs.cameraFront CameraTs.cameraRight CameraTs.cameraUp].
  set (y := toRadians (CameraTs.yaw s + dx)%R).
  set (p := toRadians _).
  set (front := mkVec3 (cos y * cos p) (sin p) (sin y * cos p)).
  assert (Hf : CameraTs.vec3_normalize front = front).
  { rewrite (vec3_normalize_long front 1); [apply vec3_div_one | | lra].
    apply front_is_unit. }
  rewrite Hf.
  split; [apply front_is_unit|].
  set (c := CameraTs.vec3_cross front (mkVec3 0 1 0)).
  assert (Hr : exists k, CameraTs.vec3_normalize c = vec3_scale c k).
  { unfold CameraTs.vec3_normalize. cbv zeta.
    destruct (Rgt_dec (length3 c) (1 / 100000)) as [_|_].
    - exists (/ length3 c)%R. reflexivity.
    - exists 0%R. unfold vec3_zero, vec3_scale. f_equal; ring. }
  destruct Hr as [k ->].
  set (r := vec3_scale c k).
  set (u := CameraTs.vec3_cross r front).
  assert (Hu : exists k', CameraTs.vec3_normalize u = vec3_scale u k').
  { unfold CameraTs.vec3_normalize. cbv zeta.
    destruct (Rgt_dec (length3 u) (1 / 100000)) as [_|_].
    - exists (/ length3 u)%R. reflexivity.
    - exists 0%R. unfold vec3_zero, vec3_scale. f_equal; ring. }
  destruct Hu as [k' ->].
  unfold u, r, c, front, dot, vec3_scale, CameraTs.vec3_cross.
  cbn [vx vy vz]. repeat split; ring.
Qed.

(** X19.  With a conversion to radians that keeps the cosine of every
    pitch in [-89, 89] above the threshold of [vec3.normalize], the right
    and up vectors have length one as well, and they are the closed forms
    of the yaw and the pitch. *)
Theorem camera_basis_orthonormal (toRadians : R -> R) (dx dy : R)
  (s : CameraTs.State) :
  (forall x, (-89 <= x <= 89)%R -> (1 / 100000 < cos (toRadians x))%R) ->
  let s' := CameraTs.rotateCamera toRadians dx dy s in
  let y := toRadians (CameraTs.yaw s') in
  let p := toRadians (CameraTs.pitch s') in
  CameraTs.cameraFront s' = mkVec3 (cos y * cos p) (sin p) (sin y * cos p) /\
  CameraTs.cameraRight s' = mkVec3 (- sin y) 0 (cos y) /\
  CameraTs.cameraUp s' = mkVec3 (- (cos y * sin p)) (cos p) (- (sin y * sin p)) /\
  length3 (CameraTs.cameraRight s') = 1%R /\
  length3 (CameraTs.cameraUp s') = 1%R.
Proof.
  intros Hcos. cbv zeta.
  pose proof (Hcos _ (pitch_after_rotate toRadians dx dy s)) as Hcp.
  revert Hcp. unfold CameraTs.rotateCamera.
  cbn [CameraTs.cameraFront CameraTs.cameraRight CameraTs.cameraUp
       CameraTs.yaw CameraTs.pitch].
  set (y := toRadians (CameraTs.yaw s + dx)%R).
  set (p := toRadians _). intros Hcp.
  set (front := mkVec3 (cos y * cos p) (sin p) (sin y * cos p)).
  pose proof (sin2_cos2 y) as Hy. pose proof (sin2_cos2 p) as Hp.
  unfold Rsqr in Hy, Hp.
  assert (Hf : CameraTs.vec3_normalize front = front).
  { rewrite (vec3_normalize_long front 1); [apply vec3_div_one | | lra].
    apply front_is_unit. }
  rewrite Hf.
  assert (Hr : CameraTs.vec3_normalize
                 (CameraTs.vec3_cross front (mkVec3 0 1 0))
               = mkVec3 (- sin y) 0 (cos y)).
  { rewrite (vec3_normalize_long _ (cos p)); [| | exact Hcp].
    - unfold vec3_div, CameraTs.vec3_cross, front. cbn [vx vy vz].
      f_equal; field; lra.
    - apply length3_of_square; [lra|].
      unfold dot, CameraTs.vec3_cross, front. cbn [vx vy vz]. nra. }
  rewrite Hr.
  assert (Hlen : length3 (mkVec3 (- (cos y * sin p)) (cos p)
                            (- (sin y * sin p))) = 1%R).
  { apply length3_of_square; [lra|]. unfold dot. cbn [vx vy vz].
    replace (- (cos y * sin p) * - (cos y * sin p) + cos p * cos p
             + - (sin y * sin p) * - (sin y * sin p))%R
      with ((sin y * sin y + cos y * cos y) * (sin p * sin p)
            + cos p * cos p)%R by ring.
    rewrite Hy. lra. }
  assert (Hc : CameraTs.vec3_cross (mkVec3 (- sin y) 0 (cos y)) front
               = mkVec3 (- (cos y * sin p)) (cos p) (- (sin y * sin p))).
  { unfold CameraTs.vec3_cross, front. cbn [vx vy vz]. f_equal; [ring | | ring].
    replace (cos y * (cos y * cos p) - - sin y * (sin y * cos p))%R
      with ((sin y * sin y + cos y * cos y) * cos p)%R by ring.
    rewrite Hy. ring. }
  rewrite Hc, (vec3_normalize_long _ 1 Hlen), vec3_div_one by lra.
  repeat split.
  - apply length3_of_square; [lra|]. unfold dot. cbn [vx vy vz]. nra.
  - exact Hlen.
Qed.

(** X20.  In one frame the camera either stays where it is or moves by
    exactly [moveSpeed * deltaTime], whatever keys are held: moving along
    two or three axes at once is no faster than along one. *)
Theorem camera_step_length (keys : CameraTs.Keys) (deltaTime : R)
  (s : CameraTs.State) :
  (0 <= deltaTime)%R ->
  let step :=
    vec3_sub (CameraTs.cameraPos (CameraTs.processInput keys deltaTime s))
      (CameraTs.cameraPos s) in
  length3 step = 0%R \/
  length3 step = (CameraTs.moveSpeed * deltaTime)%R.
Proof.
  intros Hdt. cbv zeta. unfold CameraTs.processInput.
  cbn [CameraTs.cameraPos].
  set (m := CameraTs.moveDir keys s).
  set (v := (CameraTs.moveSpeed * deltaTime)%R).
  assert (Hv : (0 <= v)%R) by (unfold v, CameraTs.moveSpeed; nra).
  assert (Hstep : vec3_sub (vec3_add (CameraTs.cameraPos s) (vec3_scale m v))
                    (CameraTs.cameraPos s) = vec3_scale m v).
  { unfold vec3_sub, vec3_add, vec3_scale. cbn [vx vy vz]. f_equal; ring. }
  rewrite Hstep, length3_scale by exact Hv.
  unfold m, CameraTs.moveDir. cbv zeta.
  match goal with
  | |- context [CameraTs.vec3_normalize ?raw] =>
      destruct (vec3_normalize_cases raw) as [Hone|Hzero]
  end.
  - right. rewrite Hone. ring.
  - left. rewrite Hzero.
    replace (length3 vec3_zero) with 0%R; [ring|].
    symmetry. apply length3_of_square; [lra|]. unfold dot, vec3_zero. cbn. ring.
Qed.

(** X21.  Opposite keys cancel: when forward and back, left and right, and
    down and up are each held together or not at all, the camera does not
    move. *)
Theorem opposite_keys_cancel (keys : CameraTs.Keys) (deltaTime : R)
  (s : CameraTs.State) :
  CameraTs.key_w keys = CameraTs.key_s keys ->
  CameraTs.key_a keys = CameraTs.key_d keys ->
  CameraTs.key_q keys = CameraTs.key_e keys ->
  CameraTs.processInput keys deltaTime s = s.
Proof.
  intros Hws Had Hqe.
  assert (Hm : CameraTs.moveDir keys s = vec3_zero).
  { unfold CameraTs.moveDir. cbv zeta. rewrite Hws, Had, Hqe.
    apply vec3_normalize_zero;
      destruct (CameraTs.key_s keys), (CameraTs.key_d keys),
        (CameraTs.key_e keys);
      unfold vec3_add, vec3_sub; cbn [vx vy vz]; ring. }
  unfold CameraTs.processInput. cbv zeta. rewrite Hm.
  destruct s as [pos f u r y p]. cbn [CameraTs.cameraPos CameraTs.cameraFront
    CameraTs.cameraUp CameraTs.cameraRight CameraTs.yaw CameraTs.pitch].
  f_equal. destruct pos. unfold vec3_add, vec3_scale, vec3_zero.
  cbn [vx vy vz]. f_equal; ring.
Qed.

(** ** The initial colours of the lights *)

Section InitialColours.
Local Open Scope R_scope.
Import LightsInit.

Lemma hue_f_range (h n : R) : 0 <= hue_f h n <= 1.
Proof.
  unfold hue_f. cbv zeta.
  set (k := js_rem (n + h * 6) 6).
  pose proof (Rmax_r (Rmin (Rmin k (4 - k)) 1) 0) as H0.
  pose proof (Rmin_r (Rmin k (4 - k)) 1) as H1.
  assert (H2 : Rmax (Rmin (Rmin k (4 - k)) 1) 0 <= 1)
    by (apply Rmax_lub; lra).
  lra.
Qed.

End InitialColours.

(** X22.  Every light starts with a colour whose three components lie
    between 0.02 and 0.1, whatever number [Math.random] returns. *)
Theorem initial_colour_in_range (h : R) :
  let c := LightsInit.lightColor h in
  (2 / 100 <= vx c <= 1 / 10)%R /\
  (2 / 100 <= vy c <= 1 / 10)%R /\
  (2 / 100 <= vz c <= 1 / 10)%R.
Proof.
  cbv zeta.
  unfold LightsInit.lightColor, LightsInit.hueToRgb, LightsInit.vec3_lerp,
    LightsInit.lightIntensity, vec3_scale.
  cbn [vx vy vz].
  pose proof (hue_f_range h 5). pose proof (hue_f_range h 3).
  pose proof (hue_f_range h 1).
  repeat split; lra.
Qed.

(** The last iteration of a loop, taken out of it. *)
Lemma for_loop_last {A} (n : Z) (body : Z -> A -> A) (a : A) :
  0 <= n ->
  for_loop (n + 1) body 0 a = body n (for_loop n body 0 a).
Proof.
  intros Hn.
  assert (Hgen : forall (k : nat) (i : Z) (s : A),
            0 <= i -> i + Z.of_nat k = n ->
            for_loop (n + 1) body i s = body n (for_loop n body i s)).
  { induction k as [|k IH]; intros i s Hi Hk.
    - rewrite (for_loop_done n) by lia.
      rewrite for_loop_step by lia. rewrite for_loop_done by lia.
      by replace i with n by lia.
    - rewrite (for_loop_step (n + 1)) by lia.
      rewrite (for_loop_step n) by lia. apply IH; lia. }
  apply (Hgen (Z.to_nat n) 0); lia.
Qed.

Section Populate.
Import LightsInit.

Lemma write_at_three (a : list R) (x y z : R) (o : nat) :
  write_at a [x; y; z] o = <[S (S o) := z]> (<[S o := y]> (<[o := x]> a)).
Proof. reflexivity. Qed.

Lemma populated_step (random : Z -> R) (arr : list R) (i : Z)
  (st : option (list R)) :
  LightsTs.maxNumLights * numFloatsPerLight <= Z.of_nat (length arr) ->
  0 <= i < LightsTs.maxNumLights ->
  populated random arr i st ->
  populated random arr (i + 1) (populate_body random i st).
Proof.
  unfold LightsTs.maxNumLights, numFloatsPerLight.
  intros Hlen Hi (a & -> & Hla & Hcontent).
  unfold populate_body, array_set, numFloatsPerLight. cbv zeta.
  cbn [length].
  rewrite decide_True by lia.
  rewrite write_at_three.
  eexists. split; [reflexivity|]. split; [by rewrite !length_insert|].
  intros j. set (o := Z.to_nat (i * 8 + 4)).
  pose proof (Z.div_mod (Z.of_nat j) 8 ltac:(lia)) as Hdm.
  pose proof (Z.mod_pos_bound (Z.of_nat j) 8 ltac:(lia)) as Hmb.
  specialize (Hcontent j).
  set (q := Z.of_nat j / 8) in *. set (r := Z.of_nat j mod 8) in *.
  destruct (decide (j = S (S o))) as [->|Hn2].
  { rewrite list_lookup_insert_eq by (rewrite !length_insert; lia).
    assert (q = i /\ r = 6) as [-> ->] by lia.
    rewrite decide_True by lia. reflexivity. }
  rewrite list_lookup_insert_ne by done.
  destruct (decide (j = S o)) as [->|Hn1].
  { rewrite list_lookup_insert_eq by (rewrite !length_insert; lia).
    assert (q = i /\ r = 5) as [-> ->] by lia.
    rewrite decide_True by lia. reflexivity. }
  rewrite list_lookup_insert_ne by done.
  destruct (decide (j = o)) as [->|Hn0].
  { rewrite list_lookup_insert_eq by lia.
    assert (q = i /\ r = 4) as [-> ->] by lia.
    rewrite decide_True by lia. reflexivity. }
  rewrite list_lookup_insert_ne by done.
  rewrite Hcontent.
  destruct (decide (q < i /\ 4 <= r <= 6)) as [Hold|Hold].
  - rewrite decide_True by lia. reflexivity.
  - rewrite decide_False; [reflexivity|]. lia.
Qed.

End Populate.

(** X23.  [populateLightsBuffer] raises no exception on an array of at
    least [maxNumLights * 8] floats, keeps its size, puts the colour of
    light [i] at the offsets 4, 5 and 6 of its eight floats, and leaves
    every other float of the lights, the position and the two paddings, as
    it was. *)
Theorem populate_writes_colours_only (random : Z -> R) (arr : list R) :
  LightsTs.maxNumLights * LightsInit.numFloatsPerLight
    <= Z.of_nat (length arr) ->
  exists arr',
    LightsInit.populateLightsBuffer random arr = Some arr' /\
    length arr' = length arr /\
    forall i k : Z,
      0 <= i < LightsTs.maxNumLights ->
      0 <= k < LightsInit.numFloatsPerLight ->
      arr' !! Z.to_nat (i * LightsInit.numFloatsPerLight + k) =
      if (4 <=? k) && (k <=? 6)
      then Some (colour_component (LightsInit.lightColor (random i)) k)
      else arr !! Z.to_nat (i * LightsInit.numFloatsPerLight + k).
Proof.
  intros Hlen.
  assert (Hinv : populated random arr LightsTs.maxNumLights
                   (LightsInit.populateLightsBuffer random arr)).
  { unfold LightsInit.populateLightsBuffer.
    apply (for_loop_invariant (populated random arr)).
    - unfold LightsTs.maxNumLights. lia.
    - exists arr. split; [reflexivity|]. split; [reflexivity|].
      intros j. rewrite decide_False; [reflexivity|].
      pose proof (Z.div_pos (Z.of_nat j) 8). lia.
    - intros i s Hi Hs. by apply populated_step. }
  destruct Hinv as (arr' & Heq & Hl & Hcontent).
  exists arr'. split; [exact Heq|]. split; [exact Hl|].
  unfold LightsInit.numFloatsPerLight, LightsTs.maxNumLights in *.
  intros i k Hi Hk. rewrite Hcontent.
  rewrite Z2Nat.id by lia.
  assert (Hq : (i * 8 + k) / 8 = i).
  { rewrite Z.div_add_l by lia. rewrite Z.div_small by lia. lia. }
  assert (Hr : (i * 8 + k) mod 8 = k).
  { rewrite Z.add_comm, Z.mod_add by lia. by apply Z.mod_small. }
  rewrite Hq, Hr.
  destruct (4 <=? k) eqn:H4; destruct (k <=? 6) eqn:H6; cbn [andb].
  - rewrite decide_True by lia. reflexivity.
  - rewrite decide_False by lia. reflexivity.
  - rewrite decide_False by lia. reflexivity.
  - rewrite decide_False by lia. reflexivity.
Qed.

(** X24.  [populateLightsBuffer] raises a [RangeError] exactly when the
    array is too short for the colour of the last light, which ends at
    float [maxNumLights * 8 - 1]. *)
Theorem populate_fails_iff_too_short (random : Z -> R) (arr : list R) :
  LightsInit.populateLightsBuffer random arr = None <->
  Z.of_nat (length arr)
    < LightsTs.maxNumLights * LightsInit.numFloatsPerLight - 1.
Proof.
  unfold LightsInit.numFloatsPerLight, LightsTs.maxNumLights.
  assert (Hkeep : forall i st,
            (st = None \/ exists a, st = Some a /\ length a = length arr) ->
            (LightsInit.populate_body random i st = None \/
             exists a, LightsInit.populate_body random i st = Some a
                       /\ length a = length arr)).
  { intros i st [->|(a & -> & Hla)]; [by left|].
    unfold LightsInit.populate_body, LightsInit.array_set. cbv zeta.
    destruct (decide _) as [_|_]; [right|by left].
    eexists. split; [reflexivity|].
    rewrite write_at_three, !length_insert. exact Hla. }
  split.
  - intros Hnone.
    destruct (Z_lt_dec (Z.of_nat (length arr)) (5000 * 8 - 1)) as [|Hge];
      [done|exfalso].
    assert (Hinv : (fun (_ : Z) st =>
                      exists a, st = Some a /\ length a = length arr)
                     LightsTs.maxNumLights
                     (LightsInit.populateLightsBuffer random arr)).
    { unfold LightsInit.populateLightsBuffer.
      apply (for_loop_invariant
               (fun (_ : Z) st =>
                  exists a, st = Some a /\ length a = length arr)).
      - unfold LightsTs.maxNumLights. lia.
      - exists arr. split; reflexivity.
      - unfold LightsTs.maxNumLights. intros i s Hi (a & -> & Hla).
        unfold LightsInit.populate_body, LightsInit.array_set,
          LightsInit.numFloatsPerLight. cbv zeta. cbn [length].
        rewrite decide_True by lia.
        eexists. split; [reflexivity|].
        rewrite write_at_three, !length_insert. exact Hla. }
    destruct Hinv as (a & Hsome & _). congruence.
  - intros Hshort.
    unfold LightsInit.populateLightsBuffer, LightsTs.maxNumLights.
    change 5000 with (4999 + 1).
    rewrite for_loop_last by lia.
    set (st := for_loop 4999 _ 0 _).
    assert (Hst : st = None \/ exists a, st = Some a /\ length a = length arr).
    { unfold st.
      apply (for_loop_invariant
               (fun (_ : Z) st =>
                  st = None \/ exists a, st = Some a /\ length a = length arr)).
      - lia.
      - right. by exists arr.
      - intros i s _ Hs. by apply Hkeep. }
    destruct Hst as [->|(a & -> & Hla)]; [reflexivity|].
    unfold LightsInit.populate_body, LightsInit.array_set,
      LightsInit.numFloatsPerLight. cbv zeta. cbn [length].
    rewrite decide_False; [reflexivity|]. lia.
Qed.

(** ** Lights out of reach *)

(** X29.  A fragment farther than [lightRadius] from every light its
    cluster lists is shaded black, with alpha one, whatever its albedo and
    normal. *)
Theorem out_of_reach_fragment_is_black (diffuse : vec2 -> vec3)
  (U : ClusteringUniforms) (L : Lights) (T : ClusterTable)
  (input : ForwardPlus.FragmentInput) :
  (forall e,
     In e (cluster_entries U T (ForwardPlus.clusterIndex U input)) ->
     (length3 (vec3_sub (position (load_light L e))
                 (xyz (ForwardPlus.worldPos input))) > lightRadius)%R) ->
  ForwardPlus.main diffuse U L T input = mkVec4 0 0 0 1.
Proof.
  intros Hfar. rewrite forward_plus_main_sum.
  assert (Hsum : summed_lighting (xyz (ForwardPlus.worldPos input))
                   (normalize (xyz (ForwardPlus.worldNormal input))) L
                   (cluster_entries U T (ForwardPlus.clusterIndex U input))
                 = vec3_zero).
  { unfold summed_lighting.
    induction (cluster_entries U T (ForwardPlus.clusterIndex U input))
      as [|e es IH]; [reflexivity|].
    cbn [fold_left].
    rewrite contribution_outside by (apply Hfar; by left).
    rewrite vec3_add_zero_r. apply IH.
    intros e' He'. apply Hfar. by right. }
  rewrite Hsum. unfold vec4_of, vec3_mul, vec3_zero. cbn [vx vy vz].
  f_equal; ring.
Qed.

(** ** The size of the dispatch *)

(** X30.  The dispatch launches an invocation for every cluster and fewer
    than one workgroup of idle ones: the number of invocations is the
    number of clusters rounded up to a multiple of 64. *)
Theorem dispatch_size_tight (U : ClusteringUniforms) :
  LightsTs.numClusters U
    <= LightsTs.numWorkgroups U * LightsTs.workgroupSize
    < LightsTs.numClusters U + LightsTs.workgroupSize /\
  (LightsTs.numWorkgroups U * LightsTs.workgroupSize)
    mod LightsTs.workgroupSize = 0.
Proof.
  unfold LightsTs.numWorkgroups, LightsTs.ceil_div, LightsTs.workgroupSize.
  pose proof (Z.mul_div_le (- LightsTs.numClusters U) 64 ltac:(lia)).
  pose proof (Z.mul_succ_div_gt (- LightsTs.numClusters U) 64 ltac:(lia)).
  split; [lia|]. apply Z.mod_mul. lia.
Qed.

(** ** The further results at the example inputs *)

Lemma single_cluster_slots_fit : slots_fit single_cluster_uniforms.
Proof. reflexivity. Qed.

Lemma example_slots_fit : slots_fit example_uniforms.
Proof. reflexivity. Qed.

Lemma single_table_allocated :
  LightsTs.table_allocated single_cluster_uniforms stale_single_table.
Proof. split; reflexivity. Qed.

Lemma single_cluster_in_range :
  0 <= 0 < Clustering.totalClusters single_cluster_uniforms.
Proof. split; [discriminate | reflexivity]. Qed.

Lemma one_near_light_count :
  load_u32
    (counts (LightsTs.doLightClustering single_cluster_uniforms
               (mkLights 1 [near_light]) stale_single_table)) 0 = 1.
Proof.
  unfold load_u32.
  rewrite counts_after_dispatch
    by (exact single_cluster_uniforms_wf || exact single_table_allocated
        || exact single_cluster_in_range).
  rewrite accepted_single_hit;
    [reflexivity | reflexivity | exact near_light_hits_single_cluster].
Qed.

Lemma three_near_lights_count :
  load_u32
    (counts (LightsTs.doLightClustering single_cluster_uniforms
               (mkLights 3 [near_light; near_light; near_light])
               stale_single_table)) 0 = 2.
Proof.
  unfold load_u32.
  rewrite counts_after_dispatch
    by (exact single_cluster_uniforms_wf || exact single_table_allocated
        || exact single_cluster_in_range).
  unfold accepted, hit_list. cbn [numLights].
  change (Z.to_nat 3) with 3%nat.
  change (Z.to_nat (maxLightsPerCluster single_cluster_uniforms)) with 2%nat.
  cbn [seq map List.filter].
  change (load_light (mkLights 3 [near_light; near_light; near_light])
            (Z.of_nat 0)) with near_light.
  change (load_light (mkLights 3 [near_light; near_light; near_light])
            (Z.of_nat 1)) with near_light.
  change (load_light (mkLights 3 [near_light; near_light; near_light])
            (Z.of_nat 2)) with near_light.
  rewrite near_light_hits_single_cluster. reflexivity.
Qed.

Lemma count_is_capped_hit_count_witness :
  load_u32
    (counts (LightsTs.doLightClustering single_cluster_uniforms
               (mkLights 3 [near_light; near_light; near_light])
               stale_single_table)) 0 =
  Z.min (maxLightsPerCluster single_cluster_uniforms)
    (Z.of_nat
       (length (hits single_cluster_uniforms 0
                  (mkLights 3 [near_light; near_light; near_light])))).
Proof.
  apply (count_is_capped_hit_count single_cluster_uniforms
           (mkLights 3 [near_light; near_light; near_light])
           stale_single_table 0).
  - exact single_cluster_uniforms_wf.
  - split; reflexivity.
  - split; [discriminate | reflexivity].
Defined.

Lemma listed_lights_increasing_witness :
  load_u32
    (indices (LightsTs.doLightClustering single_cluster_uniforms
                (mkLights 3 [near_light; near_light; near_light])
                stale_single_table))
    (0 * maxLightsPerCluster single_cluster_uniforms + Z.of_nat 0)
  < load_u32
      (indices (LightsTs.doLightClustering single_cluster_uniforms
                  (mkLights 3 [near_light; near_light; near_light])
                  stale_single_table))
      (0 * maxLightsPerCluster single_cluster_uniforms + Z.of_nat 1).
Proof.
  apply (listed_lights_increasing single_cluster_uniforms
           (mkLights 3 [near_light; near_light; near_light])
           stale_single_table 0 0 1).
  - exact single_cluster_uniforms_wf.
  - reflexivity.
  - split; reflexivity.
  - split; [discriminate | reflexivity].
  - lia.
  - rewrite three_near_lights_count. reflexivity.
Defined.

Lemma nothing_dropped_below_capacity_witness :
  exists k : nat,
    Z.of_nat k
    < load_u32
        (counts (LightsTs.doLightClustering single_cluster_uniforms
                   (mkLights 1 [near_light]) stale_single_table)) 0 /\
    indices (LightsTs.doLightClustering single_cluster_uniforms
               (mkLights 1 [near_light]) stale_single_table)
      !! Z.to_nat (0 * maxLightsPerCluster single_cluster_uniforms + Z.of_nat k)
    = Some 0.
Proof.
  apply (nothing_dropped_below_capacity single_cluster_uniforms
           (mkLights 1 [near_light]) stale_single_table 0 0).
  - exact single_cluster_uniforms_wf.
  - reflexivity.
  - split; reflexivity.
  - split; [discriminate | reflexivity].
  - rewrite one_near_light_count. reflexivity.
  - split; [discriminate | reflexivity].
  - exact near_light_hits_single_cluster.
Defined.

Lemma slots_beyond_count_keep_old_content_witness :
  indices (LightsTs.doLightClustering single_cluster_uniforms
             (mkLights 1 [near_light]) stale_single_table)
    !! Z.to_nat (0 * maxLightsPerCluster single_cluster_uniforms + Z.of_nat 1)
  = indices stale_single_table
      !! Z.to_nat (0 * maxLightsPerCluster single_cluster_uniforms + Z.of_nat 1).
Proof.
  apply (slots_beyond_count_keep_old_content single_cluster_uniforms
           (mkLights 1 [near_light]) stale_single_table 0 1).
  - exact single_cluster_uniforms_wf.
  - reflexivity.
  - split; [discriminate | reflexivity].
  - rewrite one_near_light_count. split; [discriminate | reflexivity].
  - split; reflexivity.
Defined.

Lemma no_active_lights_witness :
  indices (LightsTs.doLightClustering single_cluster_uniforms
             (mkLights 0 [near_light]) stale_single_table)
  = indices stale_single_table /\
  forall c, 0 <= c < Clustering.totalClusters single_cluster_uniforms ->
            counts (LightsTs.doLightClustering single_cluster_uniforms
                      (mkLights 0 [near_light]) stale_single_table)
              !! Z.to_nat c = Some 0.
Proof.
  apply (no_active_lights single_cluster_uniforms (mkLights 0 [near_light])
           stale_single_table).
  - exact single_cluster_uniforms_wf.
  - split; reflexivity.
  - reflexivity.
Defined.

Lemma empty_grid_uniforms_wf : uniforms_wf empty_grid_uniforms.
Proof. unfold uniforms_wf, U32.in_range. vm_compute. intuition discriminate. Qed.

Lemma empty_grid_leaves_table_witness :
  LightsTs.doLightClustering empty_grid_uniforms (mkLights 1 [near_light])
    stale_single_table = stale_single_table.
Proof.
  apply (empty_grid_leaves_table empty_grid_uniforms
           (mkLights 1 [near_light]) stale_single_table).
  - exact empty_grid_uniforms_wf.
  - reflexivity.
Defined.

Section ExampleLights.
Local Open Scope R_scope.

Lemma behind_light_distance :
  forward_distance example_uniforms
    (load_light (mkLights 1 [behind_light]) 0)
  < near example_uniforms - lightRadius.
Proof.
  unfold forward_distance. rewrite lightPosView_identity by reflexivity.
  change (load_light (mkLights 1 [behind_light]) 0) with behind_light.
  cbn. unfold Camera.nearPlane, lightRadius. lra.
Qed.

Lemma axis_light_distance :
  forward_distance example_uniforms (load_light (mkLights 1 [axis_light]) 0)
  = 400.
Proof.
  unfold forward_distance. rewrite lightPosView_identity by reflexivity.
  change (load_light (mkLights 1 [axis_light]) 0) with axis_light.
  cbn. lra.
Qed.

Lemma example_near_lt_far : near example_uniforms < far example_uniforms.
Proof. cbn. unfold Camera.nearPlane, Camera.farPlane. lra. Qed.

End ExampleLights.

Lemma lights_before_near_unassigned_witness :
  (forward_distance example_uniforms
     (load_light (mkLights 1 [behind_light]) 0)
   < near example_uniforms - lightRadius)%R /\
  (forall p, ~ In (StoreIndex p 0)
               (LightsTs.dispatch_trace example_uniforms
                  (mkLights 1 [behind_light]))).
Proof.
  split; [exact behind_light_distance|].
  apply (lights_before_near_unassigned example_uniforms
           (mkLights 1 [behind_light]) 0).
  - exact example_uniforms_wf.
  - exact example_grid_fits.
  - exact example_near_far.
  - exact behind_light_distance.
Defined.

Lemma lights_too_far_to_cover_unassigned_witness :
  (forward_distance example_uniforms
     (load_light (mkLights 1 [axis_light]) 0) = 400)%R /\
  (forall p, ~ In (StoreIndex p 0)
               (LightsTs.dispatch_trace example_uniforms
                  (mkLights 1 [axis_light]))).
Proof.
  split; [exact axis_light_distance|].
  apply (lights_too_far_to_cover_unassigned example_uniforms
           (mkLights 1 [axis_light]) 0).
  - exact example_uniforms_wf.
  - exact example_grid_fits.
  - rewrite axis_light_distance. lra.
  - rewrite axis_light_distance, fovY_value.
    change (clustersY example_uniforms) with 10. lra.
Defined.

Lemma depth_slices_tile_witness :
  (0 = 0 ->
   Clustering.zNear
     (Clustering.cluster_bounds example_uniforms
        (flat_index example_uniforms 6 5 0))
   = near example_uniforms) /\
  (0 = clustersZ example_uniforms - 1 ->
   Clustering.zFar
     (Clustering.cluster_bounds example_uniforms
        (flat_index example_uniforms 6 5 0))
   = far example_uniforms) /\
  (0 + 1 < clustersZ example_uniforms ->
   Clustering.zFar
     (Clustering.cluster_bounds example_uniforms
        (flat_index example_uniforms 6 5 0)) =
   Clustering.zNear
     (Clustering.cluster_bounds example_uniforms
        (flat_index example_uniforms 6 5 (0 + 1)))) /\
  (Clustering.zNear
     (Clustering.cluster_bounds example_uniforms
        (flat_index example_uniforms 6 5 0))
   < Clustering.zFar
       (Clustering.cluster_bounds example_uniforms
          (flat_index example_uniforms 6 5 0)))%R.
Proof.
  apply (depth_slices_tile example_uniforms 6 5 0).
  - exact example_uniforms_wf.
  - exact example_grid_fits.
  - exact example_near_lt_far.
  - split; [discriminate | reflexivity].
  - split; [discriminate | reflexivity].
  - split; [discriminate | reflexivity].
Defined.

Lemma angular_wedges_tile_witness :
  (6 = 0 ->
   (Clustering.angleLeft
      (Clustering.cluster_bounds example_uniforms
         (flat_index example_uniforms 6 5 0))
    = - Clustering.fovX example_uniforms / 2)%R) /\
  (6 = clustersX example_uniforms - 1 ->
   (Clustering.angleRight
      (Clustering.cluster_bounds example_uniforms
         (flat_index example_uniforms 6 5 0))
    = Clustering.fovX example_uniforms / 2)%R) /\
  (6 + 1 < clustersX example_uniforms ->
   Clustering.angleRight
     (Clustering.cluster_bounds example_uniforms
        (flat_index example_uniforms 6 5 0)) =
   Clustering.angleLeft
     (Clustering.cluster_bounds example_uniforms
        (flat_index example_uniforms (6 + 1) 5 0))) /\
  (5 = 0 ->
   (Clustering.angleUp
      (Clustering.cluster_bounds example_uniforms
         (flat_index example_uniforms 6 5 0))
    = - Clustering.fovY / 2)%R) /\
  (5 = clustersY example_uniforms - 1 ->
   (Clustering.angleDown
      (Clustering.cluster_bounds example_uniforms
         (flat_index example_uniforms 6 5 0))
    = Clustering.fovY / 2)%R) /\
  (5 + 1 < clustersY example_uniforms ->
   Clustering.angleDown
     (Clustering.cluster_bounds example_uniforms
        (flat_index example_uniforms 6 5 0)) =
   Clustering.angleUp
     (Clustering.cluster_bounds example_uniforms
        (flat_index example_uniforms 6 (5 + 1) 0))).
Proof.
  apply (angular_wedges_tile example_uniforms 6 5 0).
  - exact example_uniforms_wf.
  - exact example_grid_fits.
  - split; [discriminate | reflexivity].
  - split; [discriminate | reflexivity].
  - split; [discriminate | reflexivity].
Defined.

Lemma shading_index_in_table_witness :
  0 <= ForwardPlus.clusterIndex example_uniforms example_fragment
    < Clustering.totalClusters example_uniforms /\
  0 <= ClusteredDeferred.clusterIndex example_uniforms example_deferred_input
         (xyz (ForwardPlus.worldPos example_fragment))
    < Clustering.totalClusters example_uniforms.
Proof.
  apply (shading_index_in_table example_uniforms example_fragment
           example_deferred_input (xyz (ForwardPlus.worldPos example_fragment))).
  - exact example_uniforms_wf.
  - exact example_grid_fits.
  - discriminate.
  - discriminate.
  - discriminate.
  - cbn. lra.
  - cbn. lra.
  - exact example_near_lt_far.
Defined.

Lemma out_of_range_fragments_clamp_witness :
  ((ForwardPlus.viewDepth example_uniforms example_fragment
    <= near example_uniforms)%R ->
   ForwardPlus.clusterZIndex example_uniforms example_fragment = 0) /\
  ((far example_uniforms
    <= ForwardPlus.viewDepth example_uniforms example_fragment)%R ->
   ForwardPlus.clusterZIndex example_uniforms example_fragment
   = clustersZ example_uniforms - 1) /\
  ((wx (ForwardPlus.fragCoord example_fragment) <= 0)%R ->
   ForwardPlus.clusterXIndex example_uniforms example_fragment = 0) /\
  ((screenWidth example_uniforms
    <= wx (ForwardPlus.fragCoord example_fragment))%R ->
   ForwardPlus.clusterXIndex example_uniforms example_fragment
   = clustersX example_uniforms - 1).
Proof.
  apply (out_of_range_fragments_clamp example_uniforms example_fragment).
  - exact example_uniforms_wf.
  - discriminate.
  - discriminate.
  - cbn. lra.
  - exact example_near_lt_far.
Defined.

Lemma white_nonneg : vec3_nonneg white.
Proof. unfold vec3_nonneg, white. cbn. lra. Qed.

Lemma shaded_colour_nonnegative_witness :
  (vec3_nonneg
     (xyz (ForwardPlus.main (fun _ => white) example_uniforms
             (mkLights 1 [near_light]) stale_single_table example_fragment)) /\
   ww (ForwardPlus.main (fun _ => white) example_uniforms
         (mkLights 1 [near_light]) stale_single_table example_fragment)
   = 1%R) /\
  (vec3_nonneg
     (xyz (ClusteredDeferred.main example_uniforms (mkLights 1 [near_light])
             stale_single_table example_gbuffer example_deferred_input)) /\
   ww (ClusteredDeferred.main example_uniforms (mkLights 1 [near_light])
         stale_single_table example_gbuffer example_deferred_input) = 1%R).
Proof.
  apply (shaded_colour_nonnegative (fun _ => white) example_uniforms
           (mkLights 1 [near_light]) stale_single_table example_gbuffer
           example_fragment example_deferred_input).
  - intros l [<-|[]]. exact white_nonneg.
  - exact white_nonneg.
  - exact white_nonneg.
Defined.

Lemma fullscreen_triangle_covers_screen_witness :
  let w0 := ((2 - 0 - 0) / 4)%R in
  let w1 := ((0 + 1) / 4)%R in
  let w2 := ((0 + 1) / 4)%R in
  let out := FullscreenVS.main in
  (0 <= w0 /\ 0 <= w1 /\ 0 <= w2 /\ w0 + w1 + w2 = 1)%R /\
  interpolate w0 w1 w2 (wx (FullscreenVS.clipPos (out 0)))
    (wx (FullscreenVS.clipPos (out 1))) (wx (FullscreenVS.clipPos (out 2)))
    = 0%R /\
  interpolate w0 w1 w2 (wy (FullscreenVS.clipPos (out 0)))
    (wy (FullscreenVS.clipPos (out 1))) (wy (FullscreenVS.clipPos (out 2)))
    = 0%R /\
  interpolate w0 w1 w2 (v2x (FullscreenVS.uv (out 0)))
    (v2x (FullscreenVS.uv (out 1))) (v2x (FullscreenVS.uv (out 2)))
    = ((0 + 1) / 2)%R /\
  interpolate w0 w1 w2 (v2y (FullscreenVS.uv (out 0)))
    (v2y (FullscreenVS.uv (out 1))) (v2y (FullscreenVS.uv (out 2)))
    = ((0 + 1) / 2)%R.
Proof.
  apply (fullscreen_triangle_covers_screen 0 0); lra.
Defined.

Lemma uploaded_uniforms_round_trip_witness :
  exists b,
    UniformsHost.onFrame_upload (mat4_floats mat4_identity)
      (mat4_floats example_proj) (mat4_floats example_invProj) 1000 1000
      UniformsHost.new_buffer = Some b /\
    length b = UniformsHost.bufferWords /\
    read_uniforms b =
    Some (Camera.clusteringUniforms mat4_identity example_proj
            example_invProj 1000 1000).
Proof.
  apply (uploaded_uniforms_round_trip mat4_identity example_proj
           example_invProj 1000 1000 UniformsHost.new_buffer).
  reflexivity.
Defined.

Section OneDegree.
Local Open Scope R_scope.

Lemma sin_one_degree : 1 / 100 < sin (PI / 180).
Proof.
  pose proof PI2_gt_1 as Hpi. pose proof PI_4 as Hpi4.
  set (a := PI / 180).
  assert (Ha : 1 / 90 < a < PI / 2) by (unfold a; lra).
  assert (Hc : 0 < cos a) by (apply cos_gt_0; lra).
  assert (Ht : 0 < tan a) by (apply tan_gt_0; lra).
  assert (Hat : a <= tan a).
  { rewrite <- (atan_tan a) at 1 by lra. apply atan_le_id. lra. }
  assert (Hs : a * cos a <= sin a).
  { unfold tan in Hat.
    apply (Rmult_le_compat_r (cos a)) in Hat; [|lra].
    replace (sin a / cos a * cos a) with (sin a) in Hat by (field; lra).
    exact Hat. }
  pose proof (sin2_cos2 a) as H1. unfold Rsqr in H1.
  destruct (Rlt_dec (1 / 100) (sin a)) as [|Hn]; [done|exfalso].
  assert (Hs0 : 0 < sin a) by nra.
  assert (Hss : sin a * sin a <= 1 / 10000) by nra.
  assert (Hcc : 99 / 100 <= cos a) by nra.
  nra.
Qed.

Lemma degrees_cos_bound (x : R) :
  -89 <= x <= 89 -> 1 / 100000 < cos (degrees x).
Proof.
  intros Hx. pose proof PI2_gt_1 as Hpi. pose proof sin_one_degree as Hsin.
  assert (Hkey : forall t, 0 <= t <= 89 -> 1 / 100 < cos (degrees t)).
  { intros t Ht. unfold degrees.
    assert (Hle : cos (PI / 2 - PI / 180) <= cos (t * PI / 180)).
    { apply cos_decr_1; nra. }
    rewrite cos_shift in Hle. lra. }
  destruct (Rle_dec 0 x) as [Hpos|Hneg].
  - pose proof (Hkey x ltac:(lra)). lra.
  - pose proof (Hkey (- x) ltac:(lra)) as H.
    replace (degrees (- x)) with (- degrees x) in H
      by (unfold degrees; field).
    rewrite cos_neg in H. lra.
Qed.

End OneDegree.

Lemma camera_basis_orthonormal_witness :
  let s' := CameraTs.rotateCamera degrees 30 10 initial_camera in
  let y := degrees (CameraTs.yaw s') in
  let p := degrees (CameraTs.pitch s') in
  CameraTs.cameraFront s' = mkVec3 (cos y * cos p) (sin p) (sin y * cos p) /\
  CameraTs.cameraRight s' = mkVec3 (- sin y) 0 (cos y) /\
  CameraTs.cameraUp s' = mkVec3 (- (cos y * sin p)) (cos p) (- (sin y * sin p)) /\
  length3 (CameraTs.cameraRight s') = 1%R /\
  length3 (CameraTs.cameraUp s') = 1%R.
Proof.
  exact (camera_basis_orthonormal degrees 30 10 initial_camera
           degrees_cos_bound).
Defined.

Lemma camera_step_length_witness :
  let step :=
    vec3_sub
      (CameraTs.cameraPos
         (CameraTs.processInput strafe_keys 16 initial_camera))
      (CameraTs.cameraPos initial_camera) in
  length3 step = 0%R \/
  length3 step = (CameraTs.moveSpeed * 16)%R.
Proof.
  apply (camera_step_length strafe_keys 16 initial_camera). lra.
Defined.

Lemma opposite_keys_cancel_witness :
  CameraTs.processInput opposed_keys 16 initial_camera = initial_camera.
Proof.
  apply (opposite_keys_cancel opposed_keys 16 initial_camera); reflexivity.
Defined.

Lemma populate_writes_colours_only_witness :
  exists arr',
    LightsInit.populateLightsBuffer (fun _ => (1 / 2)%R)
      LightsInit.new_lightsArray = Some arr' /\
    length arr' = length LightsInit.new_lightsArray /\
    forall i k : Z,
      0 <= i < LightsTs.maxNumLights ->
      0 <= k < LightsInit.numFloatsPerLight ->
      arr' !! Z.to_nat (i * LightsInit.numFloatsPerLight + k) =
      if (4 <=? k) && (k <=? 6)
      then Some (colour_component (LightsInit.lightColor (1 / 2)%R) k)
      else LightsInit.new_lightsArray
             !! Z.to_nat (i * LightsInit.numFloatsPerLight + k).
Proof.
  apply (populate_writes_colours_only (fun _ => (1 / 2)%R)
           LightsInit.new_lightsArray).
  unfold LightsInit.new_lightsArray. rewrite length_replicate.
  unfold LightsTs.maxNumLights, LightsInit.numFloatsPerLight. lia.
Defined.

Lemma listed_lights_valid_witness :
  exists l,
    indices (LightsTs.doLightClustering single_cluster_uniforms
               (mkLights 1 [near_light]) stale_single_table)
      !! Z.to_nat (0 * maxLightsPerCluster single_cluster_uniforms + Z.of_nat 0)
    = Some l /\
    0 <= l < numLights (mkLights 1 [near_light]) /\
    sphere_overlaps single_cluster_uniforms
      (Clustering.cluster_bounds single_cluster_uniforms 0)
      (load_light (mkLights 1 [near_light]) l).
Proof.
  apply (listed_lights_valid single_cluster_uniforms
           (mkLights 1 [near_light]) stale_single_table 0 0).
  - exact single_cluster_uniforms_wf.
  - reflexivity.
  - reflexivity.
  - split; reflexivity.
  - split; [discriminate | reflexivity].
  - rewrite one_near_light_count. reflexivity.
Defined.

Lemma dispatch_order_irrelevant_witness :
  exec stale_single_table
    (concat (map (Clustering.main example_uniforms (mkLights 1 [near_light]))
               (rev (LightsTs.invocations example_uniforms)))) =
  LightsTs.doLightClustering example_uniforms (mkLights 1 [near_light])
    stale_single_table.
Proof.
  apply (dispatch_order_irrelevant example_uniforms
           (mkLights 1 [near_light]) stale_single_table
           (rev (LightsTs.invocations example_uniforms))).
  - exact example_uniforms_wf.
  - reflexivity.
  - apply Permutation_sym, Permutation_rev.
Defined.

Section ExampleDeferred.
Local Open Scope R_scope.

Lemma example_deferred_viewDepth :
  ClusteredDeferred.viewDepth example_uniforms
    (xyz (ForwardPlus.worldPos example_fragment)) = 10000 / 50005.
Proof.
  unfold ClusteredDeferred.viewDepth, mat4_mul_vec4, xyz, vec4_of.
  cbn. lra.
Qed.

End ExampleDeferred.

Lemma grid_self_consistent_deferred_witness :
  ClusteredDeferred.clusterIndex example_uniforms example_deferred_input
    (xyz (ForwardPlus.worldPos example_fragment))
  = flat_index example_uniforms 6 5 0.
Proof.
  apply (grid_self_consistent_deferred example_uniforms
           example_deferred_input
           (xyz (ForwardPlus.worldPos example_fragment)) 6 5 0).
  - exact example_uniforms_wf.
  - exact example_grid_fits.
  - cbn. lra.
  - cbn. lra.
  - exact example_near_lt_far.
  - split; [discriminate | reflexivity].
  - split; [discriminate | reflexivity].
  - split; [discriminate | reflexivity].
  - change (clustersX example_uniforms) with 10. cbn. lra.
  - change (clustersY example_uniforms) with 10. cbn. lra.
  - rewrite example_deferred_viewDepth.
    change (flat_index example_uniforms 6 5 0) with 56.
    example_bounds 6 5 0. lra.
Defined.

Section OutOfReach.
Local Open Scope R_scope.

Lemma single_cluster_index (input : ForwardPlus.FragmentInput) :
  ForwardPlus.clusterIndex single_cluster_uniforms input = 0%Z.
Proof.
  unfold ForwardPlus.clusterIndex, ForwardPlus.clusterXIndex,
    ForwardPlus.clusterYIndex, ForwardPlus.clusterZIndex.
  rewrite !clamped_floor_exact
    by (apply single_cluster_uniforms_wf || discriminate).
  change (clustersX single_cluster_uniforms) with 1%Z.
  change (clustersY single_cluster_uniforms) with 1%Z.
  change (clustersZ single_cluster_uniforms) with 1%Z.
  repeat match goal with
  | |- context [Z.min (Z.max ?k 0) (1 - 1)] =>
      replace (Z.min (Z.max k 0) (1 - 1)) with 0%Z by lia
  end.
  reflexivity.
Qed.

Lemma axis_light_out_of_reach :
  length3 (vec3_sub (position axis_light)
             (xyz (ForwardPlus.worldPos example_fragment))) > lightRadius.
Proof.
  unfold length3, dot, vec3_sub, xyz, lightRadius.
  cbn [position axis_light example_fragment ForwardPlus.worldPos
       vx vy vz wx wy wz].
  rewrite <- (sqrt_Rsqr 2) by lra.
  apply sqrt_lt_1_alt. unfold Rsqr. split; [lra|]. nra.
Qed.

End OutOfReach.

Lemma out_of_reach_fragment_is_black_witness :
  ForwardPlus.main (fun _ => white) single_cluster_uniforms
    (mkLights 1 [axis_light]) listing_single_table example_fragment
  = mkVec4 0 0 0 1.
Proof.
  apply (out_of_reach_fragment_is_black (fun _ => white)
           single_cluster_uniforms (mkLights 1 [axis_light])
           listing_single_table example_fragment).
  rewrite single_cluster_index.
  intros e [<-|[]]. exact axis_light_out_of_reach.
Defined.

(** ** Overlapping lights at capacity two *)

Section AxisLightsSingleCluster.
Local Open Scope R_scope.

Lemma axis_light_overlaps_single_cluster :
  sphere_overlaps single_cluster_uniforms
    (Clustering.cluster_bounds single_cluster_uniforms 0) axis_light.
Proof.
  unfold sphere_overlaps. cbv zeta.
  rewrite lightPosView_identity by reflexivity.
  unfold horizAngle, vertAngle. cbn [position axis_light vx vy vz].
  replace (-400 * -1) with 400 by lra. replace (- -400) with 400 by lra.
  rewrite atan2_axis by lra.
  pose proof (halfAngle_far 400 ltac:(lra)) as Hh.
  example_bounds 0%Z 0%Z 0%Z.
  lra.
Qed.

Lemma axis_light_rejected_by_single_cluster :
  Clustering.intersects single_cluster_uniforms
    (Clustering.cluster_bounds single_cluster_uniforms 0) axis_light = false.
Proof.
  assert (Hd : forward_distance single_cluster_uniforms axis_light = 400).
  { unfold forward_distance. rewrite lightPosView_identity by reflexivity.
    cbn. lra. }
  apply intersects_false_small.
  - exact single_cluster_uniforms_wf.
  - reflexivity.
  - split; [discriminate | reflexivity].
  - rewrite Hd. lra.
  - rewrite Hd, fovY_value.
    change (clustersY single_cluster_uniforms) with 1%Z. lra.
Qed.

End AxisLightsSingleCluster.

(** C4, the code at the failing input.  With room for two lights in the
    one cluster of a 1 x 1 x 1 grid and three lights on the view axis at
    depth 400, each of which overlaps the cluster in depth and in both
    angular ranges, the dispatch stores no light index at all and the count
    zero: the table ends as count [0] with the index buffer untouched, where
    the claim has count 2 and two of the three indices. *)
Theorem overlapping_lights_not_counted :
  (forall i, 0 <= i < 3 ->
     sphere_overlaps single_cluster_uniforms
       (Clustering.cluster_bounds single_cluster_uniforms 0)
       (load_light three_axis_lights i)) /\
  maxLightsPerCluster single_cluster_uniforms = 2 /\
  LightsTs.dispatch_trace single_cluster_uniforms three_axis_lights
  = [StoreCount 0 0] /\
  LightsTs.doLightClustering single_cluster_uniforms three_axis_lights
    stale_single_table = mkClusterTable [0] [9; 9].
Proof.
  assert (Htrace :
            LightsTs.dispatch_trace single_cluster_uniforms three_axis_lights
            = [StoreCount 0 0]).
  { rewrite dispatch_trace_in_range by exact single_cluster_uniforms_wf.
    change (Z.to_nat (Clustering.totalClusters single_cluster_uniforms))
      with 1%nat.
    cbn [seq map concat]. change (Z.of_nat 0) with 0. rewrite app_nil_r.
    rewrite main_spec; [| apply single_cluster_uniforms_wf | reflexivity].
    assert (Hacc : accepted single_cluster_uniforms
                     (Clustering.cluster_bounds single_cluster_uniforms 0)
                     three_axis_lights = []).
    { unfold accepted, hit_list, three_axis_lights. cbn [numLights].
      change (Z.to_nat 3) with 3%nat. cbn [seq map List.filter].
      change (load_light (mkLights 3 [axis_light; axis_light; axis_light])
                (Z.of_nat 0)) with axis_light.
      change (load_light (mkLights 3 [axis_light; axis_light; axis_light])
                (Z.of_nat 1)) with axis_light.
      change (load_light (mkLights 3 [axis_light; axis_light; axis_light])
                (Z.of_nat 2)) with axis_light.
      rewrite axis_light_rejected_by_single_cluster. apply take_nil. }
    rewrite Hacc. reflexivity. }
  split.
  { intros i Hi.
    assert (Hcases : i = 0 \/ i = 1 \/ i = 2) by lia.
    destruct Hcases as [->|[->| ->]];
      exact axis_light_overlaps_single_cluster. }
  split; [reflexivity|].
  split; [exact Htrace|].
  unfold LightsTs.doLightClustering. rewrite Htrace. reflexivity.
Qed.

(** ** The depth Forward+ resolves for a rasterised fragment *)

Section RasterisedDepth.
Local Open Scope R_scope.

Lemma axis_fragment_rasterised (d : R) :
  0 < d -> rasterised example_uniforms (axis_fragment d).
Proof.
  intros Hd. unfold rasterised, clip_position, mat4_mul_vec4, axis_fragment.
  cbn. repeat split.
  - lra.
  - field. lra.
  - field. lra.
  - field. lra.
Qed.

(** Under the example camera, a rasterised fragment of a point at view
    depth [d] is resolved by Forward+ to the depth [1000 d / (2000 - d)]:
    the shader maps the device depth, which lies in [0, 1], through
    [z * 2 - 1] before it applies the inverse projection. *)
Lemma forward_plus_depth_of_rasterised (input : ForwardPlus.FragmentInput) :
  rasterised example_uniforms input ->
  ww (ForwardPlus.worldPos input) = 1 ->
  let d := - vz (view_position example_uniforms (ForwardPlus.worldPos input)) in
  d <> 2000 ->
  ForwardPlus.viewDepth example_uniforms input = 1000 * d / (2000 - d).
Proof.
  destruct input as [[px py pz pw] n uv [fx fy fz fw]].
  unfold rasterised, clip_position, view_position, ForwardPlus.viewDepth,
    ForwardPlus.viewPos, ForwardPlus.ndcPos, mat4_mul_vec4, vec3_div, xyz.
  cbn. intros (Hw & _ & _ & Hz) -> Hd. subst fz.
  field. repeat split; lra.
Qed.

Lemma axis_fragment_forward_depth (d : R) :
  0 < d < 2000 ->
  ForwardPlus.viewDepth example_uniforms (axis_fragment d)
  = 1000 * d / (2000 - d).
Proof.
  intros Hd.
  rewrite forward_plus_depth_of_rasterised.
  - unfold view_position, mat4_mul_vec4, xyz, axis_fragment. cbn.
    f_equal; [|f_equal]; lra.
  - apply axis_fragment_rasterised. lra.
  - reflexivity.
  - unfold view_position, mat4_mul_vec4, xyz, axis_fragment. cbn. lra.
Qed.

Lemma axis_fragment_deferred_depth (d : R) :
  ClusteredDeferred.viewDepth example_uniforms
    (xyz (ForwardPlus.worldPos (axis_fragment d))) = d.
Proof.
  unfold ClusteredDeferred.viewDepth, mat4_mul_vec4, xyz, vec4_of,
    axis_fragment.
  cbn. lra.
Qed.

End RasterisedDepth.

(** ** The cluster index of a fragment in a known tile and slice *)

Lemma forward_plus_index_at (U : ClusteringUniforms)
  (input : ForwardPlus.FragmentInput) (x y z : Z) :
  uniforms_wf U -> grid_fits U ->
  (0 < screenWidth U)%R -> (0 < screenHeight U)%R ->
  0 <= x < clustersX U -> 0 <= y < clustersY U -> 0 <= z < clustersZ U ->
  (IZR x * (screenWidth U / IZR (clustersX U))
   <= wx (ForwardPlus.fragCoord input)
   < (IZR x + 1) * (screenWidth U / IZR (clustersX U)))%R ->
  (IZR y * (screenHeight U / IZR (clustersY U))
   <= wy (ForwardPlus.fragCoord input)
   < (IZR y + 1) * (screenHeight U / IZR (clustersY U)))%R ->
  (IZR z
   <= (ForwardPlus.viewDepth U input - near U) / (far U - near U)
      * IZR (clustersZ U)
   < IZR z + 1)%R ->
  ForwardPlus.clusterIndex U input = flat_index U x y z.
Proof.
  intros Hwf Hfit HW HH Hx Hy Hz Hpx Hpy Hd.
  pose proof Hwf as (Hcx & Hcy & Hcz & _).
  unfold ForwardPlus.clusterIndex.
  assert (Hxi : ForwardPlus.clusterXIndex U input = x).
  { unfold ForwardPlus.clusterXIndex. apply clamped_floor_index; [done..|].
    apply tile_quotient; [done | lia | done]. }
  assert (Hyi : ForwardPlus.clusterYIndex U input = y).
  { unfold ForwardPlus.clusterYIndex. apply clamped_floor_index; [done..|].
    apply tile_quotient; [done | lia | done]. }
  assert (Hzi : ForwardPlus.clusterZIndex U input = z).
  { unfold ForwardPlus.clusterZIndex. by apply clamped_floor_index. }
  rewrite Hxi, Hyi, Hzi. by apply flat_index_no_wrap.
Qed.

Lemma deferred_index_at (U : ClusteringUniforms)
  (dinput : ClusteredDeferred.FragmentInput) (fragPos : vec3) (x y z : Z) :
  uniforms_wf U -> grid_fits U ->
  (0 < screenWidth U)%R -> (0 < screenHeight U)%R ->
  0 <= x < clustersX U -> 0 <= y < clustersY U -> 0 <= z < clustersZ U ->
  (IZR x * (screenWidth U / IZR (clustersX U))
   <= wx (ClusteredDeferred.fragCoord dinput)
   < (IZR x + 1) * (screenWidth U / IZR (clustersX U)))%R ->
  (IZR y * (screenHeight U / IZR (clustersY U))
   <= wy (ClusteredDeferred.fragCoord dinput)
   < (IZR y + 1) * (screenHeight U / IZR (clustersY U)))%R ->
  (IZR z
   <= (ClusteredDeferred.viewDepth U fragPos - near U) / (far U - near U)
      * IZR (clustersZ U)
   < IZR z + 1)%R ->
  ClusteredDeferred.clusterIndex U dinput fragPos = flat_index U x y z.
Proof.
  intros Hwf Hfit HW HH Hx Hy Hz Hpx Hpy Hd.
  pose proof Hwf as (Hcx & Hcy & Hcz & _).
  unfold ClusteredDeferred.clusterIndex.
  assert (Hxi : ClusteredDeferred.clusterX U dinput = x).
  { unfold ClusteredDeferred.clusterX. apply clamped_floor_index; [done..|].
    apply tile_quotient; [done | lia | done]. }
  assert (Hyi : ClusteredDeferred.clusterY U dinput = y).
  { unfold ClusteredDeferred.clusterY. apply clamped_floor_index; [done..|].
    apply tile_quotient; [done | lia | done]. }
  assert (Hzi : ClusteredDeferred.clusterZ U fragPos = z).
  { unfold ClusteredDeferred.clusterZ. by apply clamped_floor_index. }
  rewrite Hxi, Hyi, Hzi. by apply flat_index_no_wrap.
Qed.

Section AxisIndices.
Local Open Scope R_scope.

(** On the view axis of the example camera Forward+ takes the slice from
    the depth it resolves, the deferred resolve from the depth of the
    point. *)
Lemma axis_fragment_forward_index (d : R) (z : Z) :
  0 < d < 2000 -> (0 <= z < 32)%Z ->
  IZR z <= (1000 * d / (2000 - d) - 1 / 10) / (1000 - 1 / 10) * 32
    < IZR z + 1 ->
  ForwardPlus.clusterIndex example_uniforms (axis_fragment d)
  = flat_index example_uniforms 5 5 z.
Proof.
  intros Hd Hz Hq.
  apply forward_plus_index_at.
  - exact example_uniforms_wf.
  - exact example_grid_fits.
  - cbn. lra.
  - cbn. lra.
  - split; [discriminate | reflexivity].
  - split; [discriminate | reflexivity].
  - exact Hz.
  - change (clustersX example_uniforms) with 10%Z. cbn. lra.
  - change (clustersY example_uniforms) with 10%Z. cbn. lra.
  - rewrite axis_fragment_forward_depth by exact Hd.
    change (clustersZ example_uniforms) with 32%Z.
    cbn [example_uniforms Camera.clusteringUniforms near far].
    unfold Camera.nearPlane, Camera.farPlane. exact Hq.
Qed.

Lemma axis_fragment_deferred_index (d : R) (z : Z) :
  (0 <= z < 32)%Z ->
  IZR z <= (d - 1 / 10) / (1000 - 1 / 10) * 32 < IZR z + 1 ->
  ClusteredDeferred.clusterIndex example_uniforms axis_deferred_input
    (xyz (ForwardPlus.worldPos (axis_fragment d)))
  = flat_index example_uniforms 5 5 z.
Proof.
  intros Hz Hq.
  apply deferred_index_at.
  - exact example_uniforms_wf.
  - exact example_grid_fits.
  - cbn. lra.
  - cbn. lra.
  - split; [discriminate | reflexivity].
  - split; [discriminate | reflexivity].
  - exact Hz.
  - change (clustersX example_uniforms) with 10%Z. cbn. lra.
  - change (clustersY example_uniforms) with 10%Z. cbn. lra.
  - rewrite axis_fragment_deferred_depth.
    change (clustersZ example_uniforms) with 32%Z.
    cbn [example_uniforms Camera.clusteringUniforms near far].
    unfold Camera.nearPlane, Camera.farPlane. exact Hq.
Qed.

Lemma axis_point_in_cell_355 :
  in_cell example_uniforms 355
    (view_position example_uniforms
       (ForwardPlus.worldPos (axis_fragment 100))).
Proof.
  unfold in_cell. cbv zeta.
  replace (view_position example_uniforms
             (ForwardPlus.worldPos (axis_fragment 100)))
    with (mkVec3 0 0 (-100)).
  2:{ unfold view_position, mat4_mul_vec4, xyz, axis_fragment. cbn.
      f_equal; lra. }
  unfold horizAngle, vertAngle. cbn [vx vy vz].
  replace (-100 * -1) with 100 by lra.
  rewrite atan2_axis by lra.
  example_bounds 5%Z 5%Z 3%Z.
  lra.
Qed.

End AxisIndices.

(** C1, the code at the failing input.  The fragment rasterised from the
    point of the view axis at view depth 100 lies in the cell of flat index
    355 that the assignment side builds (tile column 5, tile row 5, depth
    slice 3), and the deferred resolve derives 355 for it; the Forward+
    shader derives 155, the same tile in depth slice 1. *)
Theorem forward_plus_shades_other_slice :
  rasterised example_uniforms (axis_fragment 100) /\
  in_cell example_uniforms 355
    (view_position example_uniforms
       (ForwardPlus.worldPos (axis_fragment 100))) /\
  ForwardPlus.clusterIndex example_uniforms (axis_fragment 100) = 155 /\
  ClusteredDeferred.clusterIndex example_uniforms axis_deferred_input
    (xyz (ForwardPlus.worldPos (axis_fragment 100))) = 355.
Proof.
  split; [apply axis_fragment_rasterised; lra|].
  split; [exact axis_point_in_cell_355|].
  split.
  - change 155 with (flat_index example_uniforms 5 5 1).
    apply axis_fragment_forward_index; [lra | lia | cbn; lra].
  - change 355 with (flat_index example_uniforms 5 5 3).
    apply axis_fragment_deferred_index; [lia | cbn; lra].
Qed.

(** ** One light in one frame *)

Lemma zero_table_allocated (U : ClusteringUniforms) :
  LightsTs.table_allocated U (zero_table U).
Proof. split; apply length_replicate. Qed.

Lemma one_light_count (U : ClusteringUniforms) (light : Light) (c : Z) :
  uniforms_wf U -> 0 < maxLightsPerCluster U ->
  0 <= c < Clustering.totalClusters U ->
  load_u32 (counts (frame_table U (mkLights 1 [light]))) c =
  if Clustering.intersects U (Clustering.cluster_bounds U c) light
  then 1 else 0.
Proof.
  intros Hwf Hm Hc. unfold load_u32, frame_table.
  rewrite counts_after_dispatch
    by (exact Hwf || apply zero_table_allocated || exact Hc).
  destruct (Clustering.intersects U (Clustering.cluster_bounds U c) light)
    eqn:Hhit.
  - rewrite accepted_single_hit by (exact Hm || exact Hhit). reflexivity.
  - rewrite accepted_single_miss by exact Hhit. reflexivity.
Qed.

Lemma one_light_entry (U : ClusteringUniforms) (light : Light) (c : Z) :
  uniforms_wf U -> slots_fit U -> 0 < maxLightsPerCluster U ->
  0 <= c < Clustering.totalClusters U ->
  Clustering.intersects U (Clustering.cluster_bounds U c) light = true ->
  load_u32 (indices (frame_table U (mkLights 1 [light])))
    (U32.add (U32.mul c (maxLightsPerCluster U)) 0) = 0.
Proof.
  intros Hwf Hfit Hm Hc Hhit.
  change (U32.add (U32.mul c (maxLightsPerCluster U)) 0)
    with (slot U c 0%nat).
  rewrite slot_exact by (exact Hwf || exact Hfit || exact Hc || lia).
  unfold load_u32, frame_table.
  rewrite (indices_after_dispatch U (mkLights 1 [light]) (zero_table U) c
             0%nat 0); [reflexivity|..].
  - exact Hwf.
  - exact Hfit.
  - apply zero_table_allocated.
  - exact Hc.
  - rewrite accepted_single_hit by (exact Hm || exact Hhit). reflexivity.
Qed.

(** A fragment whose cluster has count zero is black; a fragment whose
    cluster has count one gets the contribution of the one listed light. *)
Lemma forward_plus_unlit_cluster (diffuse : vec2 -> vec3)
  (U : ClusteringUniforms) (L : Lights) (T : ClusterTable)
  (input : ForwardPlus.FragmentInput) :
  load_u32 (counts T) (ForwardPlus.clusterIndex U input) = 0 ->
  ForwardPlus.main diffuse U L T input =
  vec4_of (vec3_mul (diffuse (ForwardPlus.uv input)) vec3_zero) 1.
Proof.
  intros Hcount. rewrite forward_plus_main_sum.
  unfold cluster_entries. rewrite Hcount. reflexivity.
Qed.

Lemma deferred_single_entry (U : ClusteringUniforms) (L : Lights)
  (T : ClusterTable) (G : ClusteredDeferred.GBuffer)
  (dinput : ClusteredDeferred.FragmentInput) :
  let px := F32.to_i32 (wx (ClusteredDeferred.fragCoord dinput)) in
  let py := F32.to_i32 (wy (ClusteredDeferred.fragCoord dinput)) in
  let dpos := xyz (ClusteredDeferred.gPositionTex G px py) in
  let dnormal := normalize (xyz (ClusteredDeferred.gNormalTex G px py)) in
  let c := ClusteredDeferred.clusterIndex U dinput dpos in
  load_u32 (counts T) c = 1 ->
  ClusteredDeferred.main U L T G dinput =
  vec4_of
    (vec3_mul (xyz (ClusteredDeferred.gAlbedoTex G px py))
       (vec3_add vec3_zero
          (contribution dpos dnormal
             (load_light L
                (load_u32 (indices T)
                   (U32.add (U32.mul c (maxLightsPerCluster U)) 0))))))
    1.
Proof.
  cbv zeta. intros Hcount. rewrite deferred_main_sum.
  unfold cluster_entries. rewrite Hcount. reflexivity.
Qed.

Section LightAbove.
Local Open Scope R_scope.

(** Farther away the half angle is above the cubic bound of its sine. *)
Lemma halfAngle_lower (lz : R) :
  4 <= lz -> 2 / lz - (2 / lz) ^ 3 / 3 <= Clustering.halfAngle lz.
Proof.
  unfold Clustering.halfAngle, lightRadius, F32.min, F32.max. intros Hlz.
  rewrite Rmax_left by lra.
  assert (Hq : 0 < 2 / lz <= 1 / 2).
  { split; [apply Rdiv_lt_0_compat; lra|].
    apply (Rmult_le_reg_r lz); [lra|].
    unfold Rdiv. rewrite Rmult_assoc, Rinv_l by lra. lra. }
  rewrite Rmin_right by lra.
  rewrite asin_atan by lra.
  set (q := 2 / lz) in *.
  assert (Hs : 0 < sqrt (1 - q²) <= 1).
  { split.
    - apply sqrt_lt_R0. unfold Rsqr. nra.
    - rewrite <- sqrt_1 at 2. apply sqrt_le_1_alt. unfold Rsqr. nra. }
  assert (Hd : q <= q / sqrt (1 - q²)).
  { apply (Rmult_le_reg_r (sqrt (1 - q²))); [lra|].
    unfold Rdiv. rewrite Rmult_assoc, Rinv_l by lra. nra. }
  eapply Rle_trans; [apply atan_lower; lra|].
  destruct Hd as [Hlt|Heq].
  - left. by apply atan_increasing.
  - rewrite <- Heq. lra.
Qed.

Lemma light_above_34_hits_155 :
  Clustering.intersects example_uniforms
    (Clustering.cluster_bounds example_uniforms 155) (light_above 34) = true.
Proof.
  apply intersects_true_iff. cbv zeta.
  rewrite lightPosView_identity by reflexivity.
  unfold horizAngle, vertAngle. cbn [position light_above vx vy vz].
  replace (- (34) * -1) with 34 by lra. replace (- - (34)) with 34 by lra.
  rewrite atan2_axis by lra. rewrite atan2_front by lra.
  pose proof (atan_lower (1 / 34) ltac:(lra)) as Hlo.
  pose proof (atan_le_id (1 / 34) ltac:(lra)) as Hup.
  pose proof (halfAngle_lower 34 ltac:(lra)) as Hhl.
  pose proof (halfAngle_far 34 ltac:(lra)) as Hhu.
  example_bounds 5%Z 5%Z 1%Z.
  lra.
Qed.

Lemma light_above_34_misses_55 :
  Clustering.intersects example_uniforms
    (Clustering.cluster_bounds example_uniforms 55) (light_above 34) = false.
Proof.
  apply intersects_false_depth. unfold forward_distance.
  rewrite lightPosView_identity by reflexivity.
  cbn [position light_above vx vy vz].
  example_bounds 5%Z 5%Z 0%Z.
  lra.
Qed.

Lemma light_above_1_hits_55 :
  Clustering.intersects example_uniforms
    (Clustering.cluster_bounds example_uniforms 55) (light_above 1) = true.
Proof.
  apply intersects_true_iff. cbv zeta.
  rewrite lightPosView_identity by reflexivity.
  unfold horizAngle, vertAngle. cbn [position light_above vx vy vz].
  replace (- (1) * -1) with 1 by lra. replace (- - (1)) with 1 by lra.
  rewrite atan2_axis by lra. rewrite atan2_front by lra.
  replace (1 / 1) with 1 by lra. rewrite atan_1.
  rewrite halfAngle_close by (unfold lightRadius; lra).
  pose proof PI2_gt_1 as Hpi. pose proof PI_4 as Hpi4.
  example_bounds 5%Z 5%Z 0%Z.
  lra.
Qed.

(** A white light one unit straight above an upward-facing point adds
    one half to each colour channel. *)
Lemma light_above_contribution (d : R) :
  contribution (xyz (mkVec4 0 0 (- d) 1))
    (normalize (xyz (mkVec4 0 1 0 0))) (light_above d)
  = mkVec3 (1 / 2) (1 / 2) (1 / 2).
Proof.
  assert (Hup : length3 (mkVec3 0 1 0) = 1).
  { unfold length3, dot. cbn [vx vy vz].
    replace (0 * 0 + 1 * 1 + 0 * 0) with 1 by lra. apply sqrt_1. }
  assert (Hto : vec3_sub (position (light_above d)) (xyz (mkVec4 0 0 (- d) 1))
                = mkVec3 0 1 0).
  { unfold vec3_sub, light_above, xyz. cbn. f_equal; lra. }
  assert (Hn : normalize (xyz (mkVec4 0 1 0 0)) = mkVec3 0 1 0).
  { unfold normalize, xyz. cbn [wx wy wz]. rewrite Hup.
    unfold vec3_div. cbn. f_equal; lra. }
  rewrite Hn, contribution_inside; rewrite Hto, Hup;
    [|unfold lightRadius; lra].
  unfold vec3_div, vec3_scale, dot, light_above, white, lightRadius.
  cbn [vx vy vz color].
  replace (0 * (0 / 1) + 1 * (1 / 1) + 0 * (0 / 1)) with 1 by lra.
  rewrite Rmax_left by lra. f_equal; lra.
Qed.

End LightAbove.

Lemma example_capacity_positive : 0 < maxLightsPerCluster example_uniforms.
Proof. reflexivity. Qed.

(** The deferred resolve of the axis fragment at depth [d] when the
    cluster it derives lists the light above the point. *)
Lemma deferred_lit_by_light_above (d : R) (z : Z) :
  0 <= z < 32 ->
  (IZR z <= (d - 1 / 10) / (1000 - 1 / 10) * 32 < IZR z + 1)%R ->
  Clustering.intersects example_uniforms
    (Clustering.cluster_bounds example_uniforms
       (flat_index example_uniforms 5 5 z)) (light_above d) = true ->
  ClusteredDeferred.main example_uniforms (mkLights 1 [light_above d])
    (frame_table example_uniforms (mkLights 1 [light_above d]))
    (gbuffer_of (fun _ => white) (axis_fragment d)) axis_deferred_input
  = mkVec4 (1 / 2) (1 / 2) (1 / 2) 1.
Proof.
  intros Hz Hq Hhit.
  assert (Hc : 0 <= flat_index example_uniforms 5 5 z
               < Clustering.totalClusters example_uniforms).
  { change (Clustering.totalClusters example_uniforms) with 3200.
    change (flat_index example_uniforms 5 5 z) with (5 + 5 * 10 + z * 10 * 10).
    lia. }
  pose proof (axis_fragment_deferred_index d z Hz Hq) as Hidx.
  rewrite deferred_single_entry;
    change (xyz (ClusteredDeferred.gPositionTex
                   (gbuffer_of (fun _ => white) (axis_fragment d))
                   (F32.to_i32 (wx (ClusteredDeferred.fragCoord
                                      axis_deferred_input)))
                   (F32.to_i32 (wy (ClusteredDeferred.fragCoord
                                      axis_deferred_input)))))
      with (xyz (ForwardPlus.worldPos (axis_fragment d)));
    rewrite Hidx.
  - rewrite one_light_entry
      by (exact example_uniforms_wf || exact example_slots_fit
          || exact example_capacity_positive || exact Hc || exact Hhit).
    change (load_light (mkLights 1 [light_above d]) 0) with (light_above d).
    change (xyz (ForwardPlus.worldPos (axis_fragment d)))
      with (xyz (mkVec4 0 0 (- d) 1)).
    change (xyz (ClusteredDeferred.gNormalTex
                   (gbuffer_of (fun _ => white) (axis_fragment d))
                   (F32.to_i32 (wx (ClusteredDeferred.fragCoord
                                      axis_deferred_input)))
                   (F32.to_i32 (wy (ClusteredDeferred.fragCoord
                                      axis_deferred_input)))))
      with (normalize (xyz (mkVec4 0 1 0 0))).
    rewrite normalize_idempotent, light_above_contribution.
    unfold vec4_of, vec3_mul, vec3_add, vec3_zero, gbuffer_of, white, xyz.
    cbn [vx vy vz wx wy wz ClusteredDeferred.gAlbedoTex
         GBufferPass.out_albedo GBufferPass.main GBufferPass.uv vec4_of].
    f_equal; lra.
  - rewrite one_light_count
      by (exact example_uniforms_wf || exact example_capacity_positive
          || exact Hc).
    by rewrite Hhit.
Qed.

(** C6, the code at the failing input.  One scene, one camera, one light:
    an upward-facing white surface point on the view axis at view depth 34,
    a white light one unit above it, and the table the frame's dispatch
    leaves.  For the fragment rasterised from the point Forward+ outputs
    black, the deferred pipeline outputs the colour (0.5, 0.5, 0.5). *)
Theorem pipelines_disagree_on_rasterised_fragment :
  rasterised example_uniforms (axis_fragment 34) /\
  ForwardPlus.main (fun _ => white) example_uniforms
    (mkLights 1 [light_above 34])
    (frame_table example_uniforms (mkLights 1 [light_above 34]))
    (axis_fragment 34)
  = mkVec4 0 0 0 1 /\
  ClusteredDeferred.main example_uniforms (mkLights 1 [light_above 34])
    (frame_table example_uniforms (mkLights 1 [light_above 34]))
    (gbuffer_of (fun _ => white) (axis_fragment 34)) axis_deferred_input
  = mkVec4 (1 / 2) (1 / 2) (1 / 2) 1.
Proof.
  split; [apply axis_fragment_rasterised; lra|].
  split.
  - rewrite forward_plus_unlit_cluster.
    + unfold vec4_of, vec3_mul, vec3_zero, white. cbn [vx vy vz].
      f_equal; lra.
    + rewrite (axis_fragment_forward_index 34 0) by (lra || lia || (cbn; lra)).
      rewrite one_light_count
        by (exact example_uniforms_wf || exact example_capacity_positive
            || (split; [discriminate | reflexivity])).
      change (flat_index example_uniforms 5 5 0) with 55.
      by rewrite light_above_34_misses_55.
  - apply (deferred_lit_by_light_above 34 1); [lia | cbn; lra |].
    exact light_above_34_hits_155.
Qed.

Lemma pipelines_agree_on_shared_cluster_witness :
  ForwardPlus.main (fun _ => white) example_uniforms
    (mkLights 1 [light_above 1])
    (frame_table example_uniforms (mkLights 1 [light_above 1]))
    (axis_fragment 1)
  = ClusteredDeferred.main example_uniforms (mkLights 1 [light_above 1])
      (frame_table example_uniforms (mkLights 1 [light_above 1]))
      (gbuffer_of (fun _ => white) (axis_fragment 1)) axis_deferred_input /\
  ClusteredDeferred.main example_uniforms (mkLights 1 [light_above 1])
    (frame_table example_uniforms (mkLights 1 [light_above 1]))
    (gbuffer_of (fun _ => white) (axis_fragment 1)) axis_deferred_input
  = mkVec4 (1 / 2) (1 / 2) (1 / 2) 1 /\
  rasterised example_uniforms (axis_fragment 1).
Proof.
  split; [|split].
  - apply (pipelines_agree_on_shared_cluster (fun _ => white)
             example_uniforms (mkLights 1 [light_above 1])
             (frame_table example_uniforms (mkLights 1 [light_above 1]))
             (gbuffer_of (fun _ => white) (axis_fragment 1))
             (axis_fragment 1) axis_deferred_input).
    + reflexivity.
    + reflexivity.
    + reflexivity.
    + rewrite (axis_fragment_forward_index 1 0) by (lra || lia || (cbn; lra)).
      apply (axis_fragment_deferred_index 1 0); [lia | cbn; lra].
  - apply (deferred_lit_by_light_above 1 0); [lia | cbn; lra |].
    exact light_above_1_hits_55.
  - apply axis_fragment_rasterised. lra.
Defined.
